(** * Deep-reactivity proxy of svelte: [packages/svelte/src/internal/client/proxy.js]

    A shallow embedding of the wrapper factory [proxy], of the interception
    handler set [state_proxy_handler] and of the identity utilities
    [get_proxied_value] and [is], followed by the properties of the
    specification that are stated about them and by further properties of
    the code: what the calls keep, what they never do, and how they compose.

    Conventions of the embedding.
    - JavaScript numbers are modelled by [Z]: only integers occur (array
      indices, lengths, the structural version).  Fractions, NaN, the
      infinities and the negative zero are not represented.
    - A raw object lives in the store [objs] at an address; it owns an
      ordered list of properties (in the order of [Reflect.ownKeys]), a
      prototype link, the result of [Object.isFrozen] and of [Array.isArray].
      A non-frozen object is extensible.
    - A [Proxy] has an identity of its own (an index in [proxies]) and a
      target.
    - A metadata record (the object literal with the fields s, v, a, p, t)
      lives in the store [metas].  A source is represented by the value it
      holds (its field v): a source is reachable only through the [Map] it
      is stored in, it is never replaced nor removed, so a source is
      identified by its metadata record and its key.
    - The build is the production build: [DEV] is false, so the ownership
      diagnostics and the [setPrototypeOf] trap are absent.
    - The reactive runtime ([get], [set], [source]) and user accessor functions
      are outside proxy.js.  What they do to the outside world is recorded in
      a [trace] of events, in program order.
    - A computation ends in [Ok] (a result and a state), in [Thrown] (a
      JavaScript exception) or in [OutOfModel]: the program reached a
      construct the embedding does not describe (a user getter has to be
      run, a coercion of a non-number to a number is needed, a reference
      dangles).  Every property below is stated on computations that end in
      [Ok] or [Thrown]. *)

From Stdlib Require Import ZArith String Ascii Bool Lia DecimalString DecimalPos DecimalZ.
From stdpp Require Import base option list numbers strings.

Local Open Scope string_scope.
Local Open Scope list_scope.
Local Open Scope Z_scope.

(** ** Values *)

Abbreviation loc := nat (only parsing).   (* address of a raw object *)
Abbreviation mloc := nat (only parsing).  (* address of a metadata record *)
Abbreviation ploc := nat (only parsing).  (* identity of a Proxy *)

(** A property key is a string or a symbol. *)
Inductive key : Type :=
| KStr (str : string)
| KSym (id : nat).

Inductive val : Type :=
| VUndef
| VNull
| VBool (b : bool)
| VNum (n : Z)
| VStr (str : string)
| VSymbol (id : nat)
| VFun (id : nat)
| VObj (l : loc)
| VProxy (p : ploc)
| VMeta (m : mloc).

#[global] Instance key_eq_dec : EqDecision key.
Proof. solve_decision. Defined.

#[global] Instance val_eq_dec : EqDecision val.
Proof. solve_decision. Defined.

(** Modelled from the spec: the constants [STATE_SYMBOL] (./constants.js, the
    hidden marker) and [UNINITIALIZED] (../../constants.js, the tombstone) are
    two distinct symbols. *)
Definition STATE_SYMBOL : key := KSym 0.
Definition UNINITIALIZED : val := VSymbol 1.

(** [typeof value === 'object' && value != null] *)
Definition is_object (x : val) : bool :=
  match x with
  | VObj _ | VProxy _ | VMeta _ => true
  | _ => false
  end.

(** JavaScript truthiness, as in [if (metadata)]. *)
Definition truthy (x : val) : bool :=
  match x with
  | VUndef | VNull => false
  | VBool b => b
  | VNum n => negb (n =? 0)
  | VStr str => negb (String.eqb str "")
  | _ => true
  end.

(** ** Raw objects *)

(** An own property: a data property or an accessor property.  The getter and
    the setter of an accessor are user functions, known by their identity. *)
Inductive property : Type :=
| PData (v : val) (writable enumerable configurable : bool)
| PAccessor (getter setter : option nat) (enumerable configurable : bool).

Record object : Type := {
  o_props : list (key * property);
  o_proto : option loc;
  o_frozen : bool;
  o_array : bool
}.

(** Modelled from the spec: [object_prototype] and [array_prototype]
    (../shared/utils.js) are [Object.prototype] and [Array.prototype]; they sit
    at two fixed addresses of the store. *)
Definition object_prototype : loc := 0%nat.
Definition array_prototype : loc := 1%nat.

(** ** Ordered maps: [Map] and property lists *)

Section Assoc.
Context {V : Type}.

Fixpoint assoc_get (k : key) (l : list (key * V)) : option V :=
  match l with
  | [] => None
  | (k', x) :: r => if decide (k = k') then Some x else assoc_get k r
  end.

(** [Map.prototype.set]: an existing key keeps its place, a new key goes
    last. *)
Fixpoint assoc_set (k : key) (x : V) (l : list (key * V)) : list (key * V) :=
  match l with
  | [] => [(k, x)]
  | (k', y) :: r =>
      if decide (k = k') then (k, x) :: r else (k', y) :: assoc_set k x r
  end.

Definition assoc_keys (l : list (key * V)) : list key := map fst l.
End Assoc.

(** ** Metadata records, events, state *)

(** The fields s, v, a, p, t of the source's metadata object. *)
Record metadata : Type := {
  m_s : list (key * val);
  m_v : Z;
  m_a : bool;
  m_p : val;
  m_t : val
}.

(** A signal is the source of a key or the version source of a record. *)
Inductive signal : Type :=
| SKey (m : mloc) (k : key)
| SVersion (m : mloc).

Inductive event : Type :=
| EGet (sg : signal)                    (* get(signal): a dependency is registered *)
| ESet (sg : signal) (x : val)        (* set(signal, x): dependents are notified *)
| ECall (f : nat) (this arg : val).   (* descriptor.set.call(this, arg) *)

Record state : Type := {
  objs : list object;
  metas : list metadata;
  proxies : list loc;
  trace : list event;
  current_effect : bool   (* current_effect !== null *)
}.

Inductive error : Type :=
| state_descriptors_fixed
| TypeError.

Inductive outcome (A : Type) : Type :=
| Ok (x : A) (σ : state)
| Thrown (e : error) (σ : state)
| OutOfModel.
Arguments Ok {A} x σ.
Arguments Thrown {A} e σ.
Arguments OutOfModel {A}.

Definition M (A : Type) : Type := state -> outcome A.

Definition ret {A} (x : A) : M A := fun σ => Ok x σ.

Definition bind {A B} (c : M A) (f : A -> M B) : M B :=
  fun σ =>
    match c σ with
    | Ok x σ' => f x σ'
    | Thrown e σ' => Thrown e σ'
    | OutOfModel => OutOfModel
    end.

Definition throw {A} (e : error) : M A := fun σ => Thrown e σ.
Definition out_of_model {A} : M A := fun _ => OutOfModel.

Declare Scope js_scope.
Delimit Scope js_scope with js.
Notation "x <- c ;; k" := (bind c (fun x => k))
  (at level 100, c at next level, right associativity) : js_scope.
Notation "c ;; k" := (bind c (fun _ => k))
  (at level 100, right associativity) : js_scope.
Local Open Scope js_scope.

Definition gets {A} (f : state -> A) : M A := fun σ => Ok (f σ) σ.
Definition modify (f : state -> state) : M unit := fun σ => Ok tt (f σ).

Definition of_option {A} (o : option A) : M A :=
  match o with
  | Some x => ret x
  | None => out_of_model
  end.

Definition when (b : bool) (c : M unit) : M unit := if b then c else ret tt.

Definition set_objs (f : list object -> list object) (σ : state) : state :=
  {| objs := f (objs σ); metas := metas σ; proxies := proxies σ;
     trace := trace σ; current_effect := current_effect σ |}.
Definition set_metas (f : list metadata -> list metadata) (σ : state) : state :=
  {| objs := objs σ; metas := f (metas σ); proxies := proxies σ;
     trace := trace σ; current_effect := current_effect σ |}.
Definition set_proxies (f : list loc -> list loc) (σ : state) : state :=
  {| objs := objs σ; metas := metas σ; proxies := f (proxies σ);
     trace := trace σ; current_effect := current_effect σ |}.
Definition emit (e : event) (σ : state) : state :=
  {| objs := objs σ; metas := metas σ; proxies := proxies σ;
     trace := trace σ ++ [e]; current_effect := current_effect σ |}.

(** ** Property access on raw objects *)

(** [Object.getOwnPropertyDescriptor(target, prop)] *)
Definition get_descriptor (target : loc) (k : key) : M (option property) :=
  o <- (σ <- gets objs ;; of_option (σ !! target)) ;;
  ret (assoc_get k (o_props o)).

(** [get_descriptor(target, prop)?.writable], as a condition. *)
Definition is_writable (d : option property) : bool :=
  match d with
  | Some (PData _ w _ _) => w
  | _ => false
  end.

(** [descriptor?.set]: the setter of an accessor descriptor. *)
Definition descriptor_set (d : option property) : option nat :=
  match d with
  | Some (PAccessor _ st _ _) => st
  | _ => None
  end.

(** The property that [k] denotes on the object at [l], looked up along the
    prototype chain; [fuel] bounds the length of the chain. *)
Fixpoint find_property (fuel : nat) (os : list object) (l : loc) (k : key)
  : option (option property) :=
  match fuel with
  | O => None
  | S fuel' =>
      match os !! l with
      | None => None
      | Some o =>
          match assoc_get k (o_props o) with
          | Some pr => Some (Some pr)
          | None =>
              match o_proto o with
              | None => Some None
              | Some l' => find_property fuel' os l' k
              end
          end
      end
  end.

Definition lookup_property (target : loc) (k : key) : M (option property) :=
  os <- gets objs ;;
  of_option (find_property (S (length os)) os target k).

(** [prop in target], [Reflect.has(target, prop)] *)
Definition has_property (target : loc) (k : key) : M bool :=
  d <- lookup_property target k ;;
  ret (match d with Some _ => true | None => false end).

(** [target[prop]], [Reflect.get(target, prop, receiver)].  Running a user
    getter is not described. *)
Definition get_property (target : loc) (k : key) : M val :=
  d <- lookup_property target k ;;
  match d with
  | None => ret VUndef
  | Some (PData x _ _ _) => ret x
  | Some (PAccessor None _ _ _) => ret VUndef
  | Some (PAccessor (Some _) _ _ _) => out_of_model
  end.

(** ** Numbers and keys *)

(** [i + ''] for an integer [i]. *)
Definition string_of_Z (i : Z) : string :=
  NilZero.string_of_int (Z.to_int i).

Definition is_digit (c : ascii) : bool :=
  let n := nat_of_ascii c in (48 <=? n)%nat && (n <=? 57)%nat.

Fixpoint digits_value (acc : Z) (str : string) : option Z :=
  match str with
  | EmptyString => Some acc
  | String c r =>
      if is_digit c
      then digits_value (10 * acc + Z.of_nat (nat_of_ascii c - 48)) r
      else None
  end.

(** What [Number(prop)] is for a string key, as far as [Number.isInteger]
    and the comparison with the length need it. *)
Inductive number_of_string : Type :=
| NInteger (n : Z)     (* an integer that a double holds exactly *)
| NNotInteger          (* NaN *)
| NUnknown.            (* not described: padded, fractional, exponent, radix, huge *)

Definition safe_integer (n : Z) : number_of_string :=
  if Z.abs n <? 2 ^ 53 then NInteger n else NUnknown.

Definition unsigned_number (str : string) : number_of_string :=
  match str with
  | EmptyString => NUnknown
  | _ => match digits_value 0 str with
         | Some n => safe_integer n
         | None => NUnknown
         end
  end.

(** The empty string is 0; an optional sign followed by decimal digits is
    that integer; a string whose first character can start neither white
    space nor a numeric literal is NaN. *)
Definition Number (str : string) : number_of_string :=
  match str with
  | EmptyString => NInteger 0
  | String c r =>
      if is_digit c then unsigned_number str
      else if Ascii.eqb c "+" then unsigned_number r
      else if Ascii.eqb c "-" then
        match unsigned_number r with
        | NInteger n => NInteger (- n)
        | other => other
        end
      else
        let n := nat_of_ascii c in
        if (33 <=? n)%nat && (n <=? 126)%nat
           && negb (Ascii.eqb c ".") && negb (Ascii.eqb c "I")
        then NNotInteger
        else NUnknown
  end.

(** ** The reactive runtime *)

Definition get_meta (m : mloc) : M metadata :=
  ms <- gets metas ;; of_option (ms !! m).

Definition update_meta (m : mloc) (f : metadata -> metadata) : M unit :=
  md <- get_meta m ;;
  modify (set_metas (fun ms => <[m := f md]> ms)).

Definition with_s (f : list (key * val) -> list (key * val)) (md : metadata)
  : metadata :=
  {| m_s := f (m_s md); m_v := m_v md; m_a := m_a md; m_p := m_p md; m_t := m_t md |}.

Definition with_v (x : Z) (md : metadata) : metadata :=
  {| m_s := m_s md; m_v := x; m_a := m_a md; m_p := m_p md; m_t := m_t md |}.

(** [metadata.s.get(prop)]: the source of [k], given by the value it holds. *)
Definition s_get (m : mloc) (k : key) : M (option val) :=
  md <- get_meta m ;; ret (assoc_get k (m_s md)).

(** Modelled from the spec: [source] (./reactivity/sources.js) is the
    [create(initial) -> Cell] of the reactive cell primitive.
    [metadata.s.set(prop, source(x))] stores a new source holding [x]. *)
Definition s_set_source (m : mloc) (k : key) (x : val) : M unit :=
  update_meta m (with_s (assoc_set k x)).

(** Modelled from the spec: [get] (./runtime.js) is the [read(cell) -> value]
    of the reactive cell primitive: it registers a dependency and returns the
    value of the cell. *)
Module runtime.
Definition get (sg : signal) : M val :=
  modify (emit (EGet sg)) ;;
  match sg with
  | SKey m k => s <- s_get m k ;; of_option s
  | SVersion m => md <- get_meta m ;; ret (VNum (m_v md))
  end.
End runtime.

(** Modelled from the spec: [set] (./reactivity/sources.js) is the
    [write(cell, value)] of the reactive cell primitive: the cell holds the
    value and the dependents are notified.  A source is known by its record
    and its key, so a write to the source of [k] is a write to the entry of
    [k] in the map of the record. *)
Module sources.
Definition set (sg : signal) (x : val) : M unit :=
  modify (emit (ESet sg x)) ;;
  match sg with
  | SKey m k => update_meta m (with_s (assoc_set k x))
  | SVersion m =>
      match x with
      | VNum n => update_meta m (with_v n)
      | _ => out_of_model
      end
  end.
End sources.

(** [update_version(signal)], with the default [d = 1]. *)
Definition update_version (m : mloc) : M unit :=
  md <- get_meta m ;;
  sources.set (SVersion m) (VNum (m_v md + 1)).

(** ** The wrapper factory *)

Definition get_object (l : loc) : M object :=
  os <- gets objs ;; of_option (os !! l).

Definition proxy_target (p : ploc) : M loc :=
  ps <- gets proxies ;; of_option (ps !! p).

Definition with_props (f : list (key * property) -> list (key * property)) (o : object)
  : object :=
  {| o_props := f (o_props o); o_proto := o_proto o;
     o_frozen := o_frozen o; o_array := o_array o |}.

(** [new Proxy(value, state_proxy_handler)]: a proxy with a fresh identity. *)
Definition new_Proxy (target : loc) : M ploc :=
  ps <- gets proxies ;;
  modify (set_proxies (fun ps => ps ++ [target])) ;;
  ret (length ps).

(** The object literal of a metadata record: a fresh record. *)
Definition new_metadata (md : metadata) : M mloc :=
  ms <- gets metas ;;
  modify (set_metas (fun ms => ms ++ [md])) ;;
  ret (length ms).

(** [define_property(value, prop, { value: x, writable: true, enumerable:
    false })] on a raw, extensible object, that is [Object.defineProperty]: a
    new property is added last and is not configurable; an existing one is
    redefined in place when the language allows it, and a [TypeError] is
    thrown otherwise. *)
Definition define_property (l : loc) (k : key) (x : val) : M unit :=
  o <- get_object l ;;
  match assoc_get k (o_props o) with
  | None =>
      modify (set_objs (fun os =>
        <[l := with_props (fun ps => ps ++ [(k, PData x true false false)]) o]> os))
  | Some (PData _ w e c) =>
      if c || (w && negb e)
      then modify (set_objs (fun os =>
             <[l := with_props (assoc_set k (PData x true false c)) o]> os))
      else throw TypeError
  | Some (PAccessor _ _ _ c) =>
      if c
      then modify (set_objs (fun os =>
             <[l := with_props (assoc_set k (PData x true false c)) o]> os))
      else throw TypeError
  end.

(** [metadata.t === value || metadata.p === value] for the value [mv] found
    under [STATE_SYMBOL]; the result is [metadata.p] when the record belongs
    to [x]. *)
Definition existing_proxy (mv x : val) : M (option val) :=
  match mv with
  | VMeta m =>
      md <- get_meta m ;;
      ret (if bool_decide (m_t md = x) || bool_decide (m_p md = x)
           then Some (m_p md) else None)
  | VUndef | VNull => throw TypeError
  | VBool _ | VNum _ | VStr _ | VSymbol _ => ret None
  | _ => out_of_model
  end.

(** [proxy(value, parent)].  The parameter [parent] is read by the
    diagnostics of the development build only. *)
Definition proxy (x : val) (parent : option mloc) : M val :=
  match x with
  | VObj l =>
      o <- get_object l ;;
      if o_frozen o then ret x else
      marked <- has_property l STATE_SYMBOL ;;
      existing <- (if marked
                   then mv <- get_property l STATE_SYMBOL ;; existing_proxy mv x
                   else ret None) ;;
      match existing with
      | Some px => ret px
      | None =>
          let prototype := o_proto o in
          if bool_decide (prototype = Some object_prototype)
             || bool_decide (prototype = Some array_prototype)
          then
            p <- new_Proxy l ;;
            m <- new_metadata {| m_s := []; m_v := 0; m_a := o_array o;
                                 m_p := VProxy p; m_t := x |} ;;
            define_property l STATE_SYMBOL (VMeta m) ;;
            ret (VProxy p)
          else ret x
      end
  | VProxy p =>
      (* the [has] trap answers true for the marker, the [get] trap reads the
         marker of the target *)
      target <- proxy_target p ;;
      o <- get_object target ;;
      if o_frozen o then out_of_model else
      mv <- get_property target STATE_SYMBOL ;;
      existing <- existing_proxy mv x ;;
      match existing with
      | Some px => ret px
      | None => out_of_model
      end
  | VMeta _ => out_of_model
  | _ => ret x
  end.

(** ** The interception handler set *)

(** The descriptor object that the [defineProperty] trap receives: every
    field may be absent. *)
Record property_descriptor : Type := {
  d_value : option val;
  d_get : option val;
  d_set : option val;
  d_writable : option bool;
  d_enumerable : option bool;
  d_configurable : option bool
}.

(** [var metadata = target[STATE_SYMBOL]] *)
Definition target_metadata (target : loc) : M mloc :=
  mv <- get_property target STATE_SYMBOL ;;
  match mv with
  | VMeta m => get_meta m ;; ret m
  | _ => out_of_model
  end.

Definition is_uninitialized (x : val) : bool := bool_decide (x = UNINITIALIZED).

(** The loop [for (var i = value; i < target.length; i += 1)] of the [set]
    trap, [count] iterations from [i] on. *)
Fixpoint clear_signals (m : mloc) (i : Z) (count : nat) : M unit :=
  match count with
  | O => ret tt
  | S count' =>
      other_s <- s_get m (KStr (string_of_Z i)) ;;
      when (bool_decide (other_s <> None))
           (sources.set (SKey m (KStr (string_of_Z i))) UNINITIALIZED) ;;
      clear_signals m (i + 1) count'
  end.

(** The loop [for (var [key, source] of metadata.s)] of the [ownKeys] trap. *)
Fixpoint pushed_keys (target : loc) (cells : list (key * val)) : M (list key) :=
  match cells with
  | [] => ret []
  | (k, x) :: rest =>
      inside <- has_property target k ;;
      more <- pushed_keys target rest ;;
      ret (if negb (is_uninitialized x) && negb inside then k :: more else more)
  end.

Module state_proxy_handler.

Definition defineProperty (target : loc) (prop : key) (descriptor : property_descriptor)
  : M bool :=
  when (bool_decide (d_value descriptor = None)
        || bool_decide (d_configurable descriptor = Some false)
        || bool_decide (d_enumerable descriptor = Some false)
        || bool_decide (d_writable descriptor = Some false))
       (throw state_descriptors_fixed) ;;
  m <- target_metadata target ;;
  let value := default VUndef (d_value descriptor) in
  s <- s_get m prop ;;
  match s with
  | None => s_set_source m prop value
  | Some _ => pv <- proxy value (Some m) ;; sources.set (SKey m prop) pv
  end ;;
  ret true.

Definition deleteProperty (target : loc) (prop : key) : M bool :=
  m <- target_metadata target ;;
  s <- s_get m prop ;;
  exists_ <- match s with
             | Some x => ret (negb (is_uninitialized x))
             | None => has_property target prop
             end ;;
  when (bool_decide (s <> None)) (sources.set (SKey m prop) UNINITIALIZED) ;;
  when exists_ (update_version m) ;;
  ret exists_.

Definition get (target : loc) (prop : key) (receiver : val) : M val :=
  if bool_decide (prop = STATE_SYMBOL) then get_property target STATE_SYMBOL else
  m <- target_metadata target ;;
  s <- s_get m prop ;;
  exists_ <- has_property target prop ;;
  d <- get_descriptor target prop ;;
  s <- (if bool_decide (s = None) && (negb exists_ || is_writable d)
        then
          raw <- (if exists_ then get_property target prop
                  else ret UNINITIALIZED) ;;
          pv <- proxy raw (Some m) ;;
          s_set_source m prop pv ;;
          ret (Some pv)
        else ret s) ;;
  match s with
  | Some _ =>
      value <- runtime.get (SKey m prop) ;;
      ret (if is_uninitialized value then VUndef else value)
  | None => get_property target prop
  end.

Definition getOwnPropertyDescriptor (target : loc) (prop : key)
  : M (option property) :=
  descriptor <- get_descriptor target prop ;;
  m <- target_metadata target ;;
  match descriptor with
  | Some (PData x w e c) =>
      s <- s_get m prop ;;
      match s with
      | Some _ => value <- runtime.get (SKey m prop) ;; ret (Some (PData value w e c))
      | None => ret descriptor
      end
  | Some (PAccessor _ _ _ _) => ret descriptor
  | None =>
      source <- s_get m prop ;;
      match source with
      | Some value =>
          ret (if negb (is_uninitialized value)
               then Some (PData value true true true) else None)
      | None => ret None
      end
  end.

Definition has (target : loc) (prop : key) : M bool :=
  if bool_decide (prop = STATE_SYMBOL) then ret true else
  m <- target_metadata target ;;
  s <- s_get m prop ;;
  has <- match s with
         | Some x =>
             if negb (is_uninitialized x) then ret true
             else has_property target prop
         | None => has_property target prop
         end ;;
  effect <- gets current_effect ;;
  d <- get_descriptor target prop ;;
  if bool_decide (s <> None) || (effect && (negb has || is_writable d))
  then
    when (bool_decide (s = None))
         (init <- (if has
                   then raw <- get_property target prop ;; proxy raw (Some m)
                   else ret UNINITIALIZED) ;;
          s_set_source m prop init) ;;
    value <- runtime.get (SKey m prop) ;;
    ret (if is_uninitialized value then false else has)
  else ret has.

Definition set (target : loc) (prop : key) (value : val) (receiver : val)
  : M bool :=
  m <- target_metadata target ;;
  s <- s_get m prop ;;
  inside <- has_property target prop ;;
  d <- get_descriptor target prop ;;
  has <- match s with
         | None =>
             when (negb inside || is_writable d)
                  (pv <- proxy value (Some m) ;;
                   sources.set (SKey m prop) pv ;;
                   s_set_source m prop pv) ;;
             ret inside
         | Some x =>
             pv <- proxy value (Some m) ;;
             sources.set (SKey m prop) pv ;;
             ret (negb (is_uninitialized x))
         end ;;
  md <- get_meta m ;;
  let is_array := m_a md in
  when (is_array && bool_decide (prop = KStr "length"))
       (len <- get_property target (KStr "length") ;;
        match value, len with
        | VNum i, VNum n => clear_signals m i (Z.to_nat (n - i))
        | _, _ => out_of_model
        end) ;;
  descriptor <- get_descriptor target prop ;;
  match descriptor_set descriptor with
  | Some f => modify (emit (ECall f receiver value))
  | None => ret tt
  end ;;
  when (negb has)
       (match prop with
        | KStr str =>
            when is_array
                 (ls <- s_get m (KStr "length") ;;
                  match ls with
                  | None => ret tt
                  | Some lv =>
                      match Number str with
                      | NInteger n =>
                          match lv with
                          | VNum len =>
                              when (n >=? len)
                                   (sources.set (SKey m (KStr "length")) (VNum (n + 1)))
                          | _ => out_of_model
                          end
                      | NNotInteger => ret tt
                      | NUnknown => out_of_model
                      end
                  end)
        | KSym _ => ret tt
        end ;;
        update_version m) ;;
  ret true.

Definition ownKeys (target : loc) : M (list key) :=
  m <- target_metadata target ;;
  runtime.get (SVersion m) ;;
  o <- get_object target ;;
  md <- get_meta m ;;
  let own_keys :=
    List.filter
      (fun key => match assoc_get key (m_s md) with
                  | None => true
                  | Some x => negb (is_uninitialized x)
                  end)
      (assoc_keys (o_props o)) in
  pushed <- pushed_keys target (m_s md) ;;
  ret (own_keys ++ pushed).

End state_proxy_handler.

(** ** Identity utilities *)

(** [get_proxied_value(value)].  It reads the state and changes nothing. *)
Definition get_proxied_value (x : val) : M val :=
  match x with
  | VObj l =>
      marked <- has_property l STATE_SYMBOL ;;
      if marked then
        metadata <- get_property l STATE_SYMBOL ;;
        match metadata with
        | VMeta m => md <- get_meta m ;; ret (m_p md)
        | _ => if truthy metadata then out_of_model else ret x
        end
      else ret x
  | VProxy p =>
      target <- proxy_target p ;;
      metadata <- get_property target STATE_SYMBOL ;;
      match metadata with
      | VMeta m => md <- get_meta m ;; ret (m_p md)
      | _ => if truthy metadata then out_of_model else ret x
      end
  | VMeta _ => ret x
  | _ => ret x
  end.

(** [is(a, b)]: [Object.is] of the two proxied values.  ([is] is a reserved
    word here, hence the name.) *)
Definition is_same (a b : val) : M bool :=
  pa <- get_proxied_value a ;;
  pb <- get_proxied_value b ;;
  ret (bool_decide (pa = pb)).

(** * Vocabulary of the properties *)

(** ** States *)

(** The target at address [t] carries, as an own property under the marker,
    the metadata record [m], and the record belongs to it. *)
Definition wrapped (σ : state) (t : loc) (m : mloc) : Prop :=
  exists o md w e c,
    objs σ !! t = Some o
    /\ assoc_get STATE_SYMBOL (o_props o) = Some (PData (VMeta m) w e c)
    /\ metas σ !! m = Some md
    /\ m_t md = VObj t.

(** The structural version of the record [m]. *)
Definition version (σ : state) (m : mloc) : option Z := m_v <$> metas σ !! m.

(** The value that the cell of [k] holds in the record [m], if there is a
    cell. *)
Definition cell (σ : state) (m : mloc) (k : key) : option val :=
  md ← metas σ !! m; assoc_get k (m_s md).

(** Existence of a key as the specification words it: its cell holds a value
    other than the tombstone or, absent a cell, the key is present on the raw
    target. *)
Definition key_exists (σ : state) (t : loc) (m : mloc) (k : key) : option bool :=
  match cell σ m k with
  | Some x => Some (negb (is_uninitialized x))
  | None =>
      match find_property (S (length (objs σ))) (objs σ) t k with
      | Some d => Some (bool_decide (d <> None))
      | None => None
      end
  end.

(** The result of a computation that returns. *)
Definition result {A} (o : outcome A) : option A :=
  match o with
  | Ok x _ => Some x
  | _ => None
  end.

(** The state a computation ends in. *)
Definition final_state {A} (o : outcome A) (σ0 : state) : state :=
  match o with
  | Ok _ σ => σ
  | Thrown _ σ => σ
  | OutOfModel => σ0
  end.

(** The state after [metadata.s.set(k, source(x))] on the record [m]. *)
Definition store_source (m : mloc) (md : metadata) (k : key) (x : val) (σ : state)
  : state :=
  set_metas (fun ms => <[m := with_s (assoc_set k x) md]> ms) σ.

(** The state after the bump of the structural version of the record [m]. *)
Definition bump (m : mloc) (md : metadata) (σ : state) : state :=
  set_metas (fun ms => <[m := with_v (m_v md + 1) md]> ms)
    (emit (ESet (SVersion m) (VNum (m_v md + 1))) σ).

(** The state after the write of a primitive value to a key that is neither
    tracked nor present, on a target that is not an array. *)
Definition written (m : mloc) (md : metadata) (k : key) (v : val) (σ : state) : state :=
  let md1 := with_s (assoc_set k v) md in
  let md2 := with_s (assoc_set k v) md1 in
  bump m md2
    (store_source m md1 k v (store_source m md k v (emit (ESet (SKey m k) v) σ))).

(** The state after the delete of a key whose cell holds a value. *)
Definition deleted (m : mloc) (md : metadata) (k : key) (σ : state) : state :=
  bump m (with_s (assoc_set k UNINITIALIZED) md)
    (store_source m md k UNINITIALIZED (emit (ESet (SKey m k) UNINITIALIZED) σ)).

(** The state after a first wrap of the object [o] at [l]. *)
Definition first_wrap (l : loc) (o : object) (σ : state) : state :=
  let p := length (proxies σ) in
  let m := length (metas σ) in
  set_objs
    (fun os => <[l := with_props
                        (fun ps => ps ++ [(STATE_SYMBOL, PData (VMeta m) true false false)])
                        o]> os)
    (set_metas
       (fun ms => ms ++ [{| m_s := []; m_v := 0; m_a := o_array o;
                            m_p := VProxy p; m_t := VObj l |}])
       (set_proxies (fun ps => ps ++ [l]) σ)).

(** ** What a step leaves alone *)

(** A write to a structural version. *)
Definition is_version_write (e : event) : bool :=
  match e with
  | ESet (SVersion _) _ => true
  | _ => false
  end.

(** The event that bumps the structural version of the record [m]. *)
Definition is_bump (m : mloc) (e : event) : bool :=
  match e with
  | ESet (SVersion m') _ => bool_decide (m' = m)
  | _ => false
  end.

Definition quiet (m : mloc) (evs : list event) : bool :=
  forallb (fun e => negb (is_bump m e)) evs.

(** From [σ] to [σ'] the raw target [t] is untouched, its record [m] keeps
    its place, its version, its keys and its kind, and no event bumps the
    version. *)
Definition frame (t : loc) (m : mloc) (σ σ' : state) : Prop :=
  wrapped σ t m ->
  wrapped σ' t m
  /\ objs σ' !! t = objs σ !! t
  /\ version σ' m = version σ m
  /\ current_effect σ' = current_effect σ
  /\ (exists evs, trace σ' = trace σ ++ evs /\ quiet m evs = true)
  /\ (forall k, is_Some (cell σ m k) -> is_Some (cell σ' m k))
  /\ m_a <$> metas σ' !! m = m_a <$> metas σ !! m.

(** A relation between the state before and the state after that every step
    of the wrapper factory and of the handlers respects, the bump of a
    structural version apart: it holds of no step at all, of two steps in a
    row, of an event that is no version write, of a store into the map of a
    record, and of a wrap. *)
Class Respected (R : state -> state -> Prop) : Prop := {
  respected_refl : forall σ, R σ σ;
  respected_trans : forall σ1 σ2 σ3, R σ1 σ2 -> R σ2 σ3 -> R σ1 σ3;
  respected_emit : forall e σ, is_version_write e = false -> R σ (emit e σ);
  respected_store : forall σ m md k x,
    metas σ !! m = Some md -> R σ (store_source m md k x σ);
  respected_proxy : forall x parent σ y σ',
    proxy x parent σ = Ok y σ' -> R σ σ'
}.

(** A computation that returns relates the state it starts in to the state it
    ends in. *)
Definition preserves (R : state -> state -> Prop) {A} (c : M A) : Prop :=
  forall σ x σ', c σ = Ok x σ' -> R σ σ'.

(** ** Descriptors *)

(** The descriptor [{ value: x, writable: true, enumerable: true,
    configurable: true }]. *)
Definition value_descriptor (x : val) : property_descriptor :=
  {| d_value := Some x; d_get := None; d_set := None;
     d_writable := Some true; d_enumerable := Some true;
     d_configurable := Some true |}.





(** ** Key enumeration *)

(** The prototype chain of the object at [l] ends, within [fuel] links. *)
Fixpoint chain_ends (fuel : nat) (os : list object) (l : loc) : bool :=
  match fuel with
  | O => false
  | S fuel' =>
      match os !! l with
      | None => false
      | Some o =>
          match o_proto o with
          | None => true
          | Some l' => chain_ends fuel' os l'
          end
      end
  end.

Definition chain_ok (σ : state) (l : loc) : Prop :=
  chain_ends (S (length (objs σ))) (objs σ) l = true.

(** What [ownKeys] returns: the own keys of the raw target whose cell does
    not hold the tombstone, then the keys of the live cells that are not in
    the raw target, own or inherited. *)
Definition kept_raw_keys (md : metadata) (o : object) : list key :=
  List.filter
    (fun k => match assoc_get k (m_s md) with
              | None => true
              | Some x => negb (is_uninitialized x)
              end)
    (assoc_keys (o_props o)).

(** The key is not in the raw target, neither own nor inherited. *)
Definition absent_from (σ : state) (t : loc) (k : key) : bool :=
  match find_property (S (length (objs σ))) (objs σ) t k with
  | Some None => true
  | _ => false
  end.

Definition wrapper_only_keys (σ : state) (t : loc) (md : metadata) : list key :=
  assoc_keys
    (List.filter
       (fun kx => negb (is_uninitialized (snd kx)) && absent_from σ t (fst kx))
       (m_s md)).

(** ** Plain objects and well-formed stores *)

(** A plain object: not frozen, and its prototype is [Object.prototype] or
    [Array.prototype]. *)
Definition plain (σ : state) (l : loc) : Prop :=
  exists o, objs σ !! l = Some o
            /\ o_frozen o = false
            /\ (o_proto o = Some object_prototype \/ o_proto o = Some array_prototype).

(** A well-formed store: every marker was installed by the wrapper factory on
    the object that owns it; every proxy is the wrapper recorded for its
    target; every prototype chain ends. *)
Definition well_formed (σ : state) : Prop :=
  (forall l o pr,
      objs σ !! l = Some o -> assoc_get STATE_SYMBOL (o_props o) = Some pr ->
      exists m md p,
        pr = PData (VMeta m) true false false
        /\ metas σ !! m = Some md /\ m_t md = VObj l /\ m_p md = VProxy p
        /\ proxies σ !! p = Some l)
  /\ (forall p l,
      proxies σ !! p = Some l ->
      exists o m md,
        objs σ !! l = Some o
        /\ assoc_get STATE_SYMBOL (o_props o) = Some (PData (VMeta m) true false false)
        /\ metas σ !! m = Some md /\ m_p md = VProxy p)
  /\ (forall l, (l < length (objs σ))%nat -> chain_ok σ l).

(** From [σ] to [σ'] the store stays well formed. *)
Definition keeps_well_formed (σ σ' : state) : Prop :=
  well_formed σ -> well_formed σ'.

(** ** Concrete stores *)

(** [Object.prototype] and [Array.prototype], with a few of their members. *)
Definition Object_prototype : object :=
  {| o_props := [(KStr "constructor", PData (VFun 0) true false true);
                 (KStr "toString", PData (VFun 1) true false true);
                 (KStr "hasOwnProperty", PData (VFun 2) true false true)];
     o_proto := None; o_frozen := false; o_array := false |}.

Definition Array_prototype : object :=
  {| o_props := [(KStr "length", PData (VNum 0) true false false);
                 (KStr "push", PData (VFun 3) true false true)];
     o_proto := Some object_prototype; o_frozen := false; o_array := true |}.

(** An object literal [{ k1: x1, ... }]. *)
Definition object_literal (ps : list (key * property)) : object :=
  {| o_props := ps; o_proto := Some object_prototype;
     o_frozen := false; o_array := false |}.

Definition data (x : val) : property := PData x true true true.

(** [Object.create(proto)]: an object without own properties whose prototype
    is the object at [proto]. *)
Definition object_create (proto : loc) : object :=
  {| o_props := []; o_proto := Some proto; o_frozen := false; o_array := false |}.

(** An array literal [[x0, x1, ...]]: the indices, then [length]. *)
Definition array_literal (xs : list val) : object :=
  {| o_props := imap (fun i x => (KStr (string_of_Z (Z.of_nat i)), data x)) xs
                ++ [(KStr "length", PData (VNum (Z.of_nat (length xs))) true false false)];
     o_proto := Some array_prototype; o_frozen := false; o_array := true |}.

(** A store holding the two prototypes and the given objects, from address 2
    on; no object is wrapped yet and no computation is running. *)
Definition store (os : list object) : state :=
  {| objs := Object_prototype :: Array_prototype :: os;
     metas := []; proxies := []; trace := []; current_effect := false |}.

(** [w = proxy({})], as a state: the object at address 2 is wrapped by the
    proxy 0 and the record 0. *)
Definition wrapped_empty_object : state :=
  Eval vm_compute in
    final_state (proxy (VObj 2%nat) None (store [object_literal []]))
                (store [object_literal []]).

(** [w = proxy([1, 2, 3])], as a state. *)
Definition wrapped_array_123 : state :=
  Eval vm_compute in
    final_state (proxy (VObj 2%nat) None (store [array_literal [VNum 1; VNum 2; VNum 3]]))
                (store [array_literal [VNum 1; VNum 2; VNum 3]]).



(** [w = proxy({}); w.a = 1], as a state. *)
Definition after_write_a : state :=
  Eval vm_compute in
    final_state
      (state_proxy_handler.set 2%nat (KStr "a") (VNum 1) (VProxy 0%nat)
         wrapped_empty_object)
      wrapped_empty_object.


(** ... or followed by [delete w.a]. *)
Definition after_delete_a : state :=
  Eval vm_compute in
    final_state (state_proxy_handler.deleteProperty 2%nat (KStr "a") after_write_a)
                after_write_a.


(** [w = proxy({ a: 1 })] read once, so that [a] has a cell. *)
Definition tracked_a : state :=
  Eval vm_compute in
    final_state
      ((proxy (VObj 2%nat) None ;;
        state_proxy_handler.get 2%nat (KStr "a") (VProxy 0%nat))
         (store [object_literal [(KStr "a", data (VNum 1))]]))
      (store [object_literal [(KStr "a", data (VNum 1))]]).


(** [w = proxy({})] with the key [toString] defined through the wrapper. *)
Definition defined_toString : state :=
  Eval vm_compute in
    final_state
      (state_proxy_handler.defineProperty 2%nat (KStr "toString")
         (value_descriptor (VNum 1)) wrapped_empty_object)
      wrapped_empty_object.

(** * Vocabulary of the further properties *)

(** ** Calls *)

(** A call of the wrapper factory or of one of the handlers. *)
Inductive call : Type :=
| CallProxy (x : val) (parent : option mloc)
| CallDefineProperty (target : loc) (prop : key) (descriptor : property_descriptor)
| CallDeleteProperty (target : loc) (prop : key)
| CallGet (target : loc) (prop : key) (receiver : val)
| CallGetOwnPropertyDescriptor (target : loc) (prop : key)
| CallHas (target : loc) (prop : key)
| CallSet (target : loc) (prop : key) (x : val) (receiver : val)
| CallOwnKeys (target : loc).

(** The call [c], started in [σ], returns in [σ']. *)
Definition returns (c : call) (σ σ' : state) : Prop :=
  match c with
  | CallProxy x parent => exists y, proxy x parent σ = Ok y σ'
  | CallDefineProperty t k d =>
      exists b, state_proxy_handler.defineProperty t k d σ = Ok b σ'
  | CallDeleteProperty t k => exists b, state_proxy_handler.deleteProperty t k σ = Ok b σ'
  | CallGet t k rcv => exists x, state_proxy_handler.get t k rcv σ = Ok x σ'
  | CallGetOwnPropertyDescriptor t k =>
      exists d, state_proxy_handler.getOwnPropertyDescriptor t k σ = Ok d σ'
  | CallHas t k => exists b, state_proxy_handler.has t k σ = Ok b σ'
  | CallSet t k x rcv => exists b, state_proxy_handler.set t k x rcv σ = Ok b σ'
  | CallOwnKeys t => exists ks, state_proxy_handler.ownKeys t σ = Ok ks σ'
  end.

(** [σ'] is reached from [σ] by a sequence of calls that return. *)
Inductive reaches : state -> state -> Prop :=
| reaches_here σ : reaches σ σ
| reaches_call σ1 σ2 σ3 c : reaches σ1 σ2 -> returns c σ2 σ3 -> reaches σ1 σ3.

(** The own properties of an object other than the marker, in order. *)
Definition user_props (o : object) : list (key * property) :=
  List.filter (fun kp => negb (bool_decide (fst kp = STATE_SYMBOL))) (o_props o).

(** From [σ] to [σ'] the raw objects are the same, up to the marker: no object
    is made or lost, and each one keeps its prototype, what [Object.isFrozen]
    and [Array.isArray] say of it, and its own properties other than the
    marker, with their order, values and flags. *)
Definition raw_objects_kept (σ σ' : state) : Prop :=
  length (objs σ') = length (objs σ)
  /\ forall l o,
       objs σ !! l = Some o ->
       exists o',
         objs σ' !! l = Some o'
         /\ o_proto o' = o_proto o
         /\ o_frozen o' = o_frozen o
         /\ o_array o' = o_array o
         /\ user_props o' = user_props o.

(** No object has two own properties of the same key, and no record has two
    cells of the same key. *)
Definition unique_keys (σ : state) : Prop :=
  (forall l o, objs σ !! l = Some o -> NoDup (assoc_keys (o_props o)))
  /\ (forall m md, metas σ !! m = Some md -> NoDup (assoc_keys (m_s md))).

Definition keeps_unique_keys (σ σ' : state) : Prop :=
  unique_keys σ -> unique_keys σ'.

(** [w = proxy([1, 2, 3])] after the reads of [w[1]], [w[2]] and
    [w.length], so that these three keys have a cell. *)
Definition read_array_123 : state :=
  Eval vm_compute in
    final_state
      ((state_proxy_handler.get 2%nat (KStr "1") (VProxy 0%nat) ;;
        state_proxy_handler.get 2%nat (KStr "2") (VProxy 0%nat) ;;
        state_proxy_handler.get 2%nat (KStr "length") (VProxy 0%nat)) wrapped_array_123)
      wrapped_array_123.

(** [w = proxy({ a: 1 })], not read yet. *)
Definition wrapped_object_a : state :=
  Eval vm_compute in
    final_state (proxy (VObj 2%nat) None (store [object_literal [(KStr "a", data (VNum 1))]]))
                (store [object_literal [(KStr "a", data (VNum 1))]]).


(** [w = proxy({ a: 1 })] while a computation is running. *)
Definition wrapped_object_a_in_effect : state :=
  {| objs := objs wrapped_object_a; metas := metas wrapped_object_a;
     proxies := proxies wrapped_object_a; trace := trace wrapped_object_a;
     current_effect := true |}.

(** From [σ] to [σ'] every proxy keeps its target, and every record keeps
    its target, its proxy and its kind; its structural version has not
    decreased, and every key that had a cell still has one. *)
Definition wrappers_kept (σ σ' : state) : Prop :=
  (forall p l, proxies σ !! p = Some l -> proxies σ' !! p = Some l)
  /\ forall m md,
       metas σ !! m = Some md ->
       exists md',
         metas σ' !! m = Some md'
         /\ m_t md' = m_t md /\ m_p md' = m_p md /\ m_a md' = m_a md
         /\ m_v md <= m_v md'
         /\ forall k, is_Some (assoc_get k (m_s md)) -> is_Some (assoc_get k (m_s md')).

(** The target of a call of a handler. *)
Definition call_target (c : call) : option loc :=
  match c with
  | CallProxy _ _ => None
  | CallDefineProperty t _ _ | CallDeleteProperty t _ | CallGet t _ _
  | CallGetOwnPropertyDescriptor t _ | CallHas t _ | CallSet t _ _ _
  | CallOwnKeys t => Some t
  end.

(** From [σ] to [σ'] every record other than [m] is as it was. *)
Definition other_records_kept (m : mloc) (σ σ' : state) : Prop :=
  forall m' md', m' <> m -> metas σ !! m' = Some md' -> metas σ' !! m' = Some md'.

(** [w1 = proxy({}); w2 = proxy({})], as a state: the objects at the
    addresses 2 and 3, the proxies and the records 0 and 1. *)
Definition two_wrappers : state :=
  Eval vm_compute in
    final_state
      ((proxy (VObj 2%nat) None ;; proxy (VObj 3%nat) None)
         (store [object_literal []; object_literal []]))
      (store [object_literal []; object_literal []]).

(** * Reasoning about computations *)

Lemma bind_Ok {A B} (c : M A) (f : A -> M B) σ x σ1 :
  c σ = Ok x σ1 -> bind c f σ = f x σ1.
Proof. intros H. unfold bind. rewrite H. reflexivity. Qed.

Lemma bind_Ok_inv {A B} (c : M A) (f : A -> M B) σ y σ' :
  bind c f σ = Ok y σ' -> exists x σ1, c σ = Ok x σ1 /\ f x σ1 = Ok y σ'.
Proof.
  unfold bind. destruct (c σ) as [x σ1| |]; try discriminate.
  intros H. exists x, σ1. split; [reflexivity | exact H].
Qed.

Lemma when_Ok_inv (b : bool) (c : M unit) σ u σ' :
  when b c σ = Ok u σ' -> (b = true /\ c σ = Ok u σ') \/ (b = false /\ σ' = σ).
Proof.
  destruct b; simpl; intros H; [left; auto | right].
  unfold ret in H. inversion H. auto.
Qed.

Lemma assoc_get_set_eq {V} k (x : V) l : assoc_get k (assoc_set k x l) = Some x.
Proof.
  induction l as [|[k' y] r IH]; simpl.
  - rewrite decide_True; auto.
  - destruct (decide (k = k')); simpl.
    + rewrite decide_True; auto.
    + rewrite decide_False; auto.
Qed.

Lemma assoc_get_set_ne {V} k k' (x : V) l :
  k' <> k -> assoc_get k' (assoc_set k x l) = assoc_get k' l.
Proof.
  intros Hne. induction l as [|[k0 y] r IH]; simpl.
  - rewrite decide_False; auto.
  - destruct (decide (k = k0)) as [->|]; simpl.
    + rewrite !decide_False; auto.
    + destruct (decide (k' = k0)); auto.
Qed.

Lemma assoc_get_app_None {V} k (l1 l2 : list (key * V)) :
  assoc_get k l1 = None -> assoc_get k (l1 ++ l2) = assoc_get k l2.
Proof.
  induction l1 as [|[k' y] r IH]; simpl; auto.
  destruct (decide (k = k')); [discriminate | auto].
Qed.

Lemma assoc_get_app_Some {V} k (l1 l2 : list (key * V)) x :
  assoc_get k l1 = Some x -> assoc_get k (l1 ++ l2) = Some x.
Proof.
  induction l1 as [|[k' y] r IH]; simpl; [discriminate|].
  destruct (decide (k = k')); auto.
Qed.

Lemma assoc_set_new {V} k (x : V) l :
  assoc_get k l = None -> assoc_set k x l = l ++ [(k, x)].
Proof.
  induction l as [|[k' y] r IH]; simpl; auto.
  destruct (decide (k = k')); [discriminate|].
  intros H. rewrite IH; auto.
Qed.

Lemma assoc_keys_set_old {V} k (x y : V) l :
  assoc_get k l = Some y -> assoc_keys (assoc_set k x l) = assoc_keys l.
Proof.
  unfold assoc_keys. induction l as [|[k' z] r IH]; simpl; [discriminate|].
  destruct (decide (k = k')) as [->|]; simpl; auto.
  intros H. rewrite IH; auto.
Qed.

Lemma in_assoc_keys_filter {V} (f : key * V -> bool) k x (l : list (key * V)) :
  assoc_get k l = Some x -> f (k, x) = true -> In k (assoc_keys (List.filter f l)).
Proof.
  induction l as [|[k' y] r IH]; simpl; [discriminate|].
  destruct (decide (k = k')) as [->|Hne].
  - intros Hx Hf. inversion Hx; subst y. rewrite Hf. simpl. auto.
  - intros Hx Hf. destruct (f (k', y)); simpl; auto.
Qed.

(** ** Reads *)

Lemma find_property_own fuel os l k o pr :
  os !! l = Some o -> assoc_get k (o_props o) = Some pr ->
  find_property (S fuel) os l k = Some (Some pr).
Proof. intros Ho Hk. simpl. rewrite Ho, Hk. reflexivity. Qed.

Lemma find_property_source fuel os l k pr :
  find_property fuel os l k = Some (Some pr) ->
  exists l' o', os !! l' = Some o' /\ assoc_get k (o_props o') = Some pr.
Proof.
  revert l. induction fuel as [|fuel IH]; intros l; simpl; [discriminate|].
  destruct (os !! l) as [o|] eqn:Ho; [|discriminate].
  destruct (assoc_get k (o_props o)) as [pr'|] eqn:Hk.
  - intros H. inversion H; subst pr'. eauto.
  - destruct (o_proto o) as [l'|]; [apply IH | discriminate].
Qed.

Lemma get_object_Ok σ l o : objs σ !! l = Some o -> get_object l σ = Ok o σ.
Proof. intros H. unfold get_object, bind, gets, of_option. rewrite H. reflexivity. Qed.

Lemma get_object_inv σ l o σ' :
  get_object l σ = Ok o σ' -> objs σ !! l = Some o /\ σ' = σ.
Proof.
  unfold get_object, bind, gets, of_option.
  destruct (objs σ !! l); unfold ret, out_of_model; intros H; inversion H; auto.
Qed.

Lemma get_meta_Ok σ m md : metas σ !! m = Some md -> get_meta m σ = Ok md σ.
Proof. intros H. unfold get_meta, bind, gets, of_option. rewrite H. reflexivity. Qed.

Lemma get_meta_inv σ m md σ' :
  get_meta m σ = Ok md σ' -> metas σ !! m = Some md /\ σ' = σ.
Proof.
  unfold get_meta, bind, gets, of_option.
  destruct (metas σ !! m); simpl; unfold ret, out_of_model; intros H; inversion H; auto.
Qed.

Lemma s_get_Ok σ m md k :
  metas σ !! m = Some md -> s_get m k σ = Ok (assoc_get k (m_s md)) σ.
Proof. intros H. unfold s_get. rewrite (bind_Ok _ _ _ _ _ (get_meta_Ok _ _ _ H)). reflexivity. Qed.

Lemma s_get_inv σ m k s σ' :
  s_get m k σ = Ok s σ' -> cell σ m k = s /\ σ' = σ.
Proof.
  unfold s_get, cell. intros H.
  apply bind_Ok_inv in H as (md & σ1 & H1 & H2).
  apply get_meta_inv in H1 as [Hm ->]. rewrite Hm. simpl.
  unfold ret in H2. inversion H2; auto.
Qed.

Lemma get_descriptor_Ok σ t o k :
  objs σ !! t = Some o -> get_descriptor t k σ = Ok (assoc_get k (o_props o)) σ.
Proof.
  intros H. unfold get_descriptor, bind, gets, of_option. rewrite H. reflexivity.
Qed.

Lemma get_descriptor_inv σ t k d σ' :
  get_descriptor t k σ = Ok d σ' -> σ' = σ.
Proof.
  unfold get_descriptor, bind, gets, of_option.
  destruct (objs σ !! t); unfold ret, out_of_model; intros H; inversion H; auto.
Qed.

Lemma get_descriptor_inv' σ t k d σ' :
  get_descriptor t k σ = Ok d σ' ->
  exists o, objs σ !! t = Some o /\ d = assoc_get k (o_props o).
Proof.
  unfold get_descriptor, bind, gets, of_option.
  destruct (objs σ !! t) as [o|]; [|discriminate].
  intros H. inversion H. eauto.
Qed.

Lemma lookup_property_own σ t o k pr :
  objs σ !! t = Some o -> assoc_get k (o_props o) = Some pr ->
  lookup_property t k σ = Ok (Some pr) σ.
Proof.
  intros Ho Hk. unfold lookup_property, bind, gets, of_option.
  rewrite (find_property_own _ _ _ _ _ _ Ho Hk). reflexivity.
Qed.

(** Reading the state leaves it as it is. *)
Lemma lookup_property_inv σ t k d σ' :
  lookup_property t k σ = Ok d σ' -> σ' = σ.
Proof.
  unfold lookup_property, bind, gets, of_option.
  destruct (find_property _ _ _ _); unfold ret, out_of_model; intros H; inversion H; auto.
Qed.

Lemma get_property_own_data σ t o k x w e c :
  objs σ !! t = Some o -> assoc_get k (o_props o) = Some (PData x w e c) ->
  get_property t k σ = Ok x σ.
Proof.
  intros Ho Hk. unfold get_property.
  rewrite (bind_Ok _ _ _ _ _ (lookup_property_own _ _ _ _ _ Ho Hk)). reflexivity.
Qed.

Lemma get_property_inv σ t k x σ' :
  get_property t k σ = Ok x σ' -> σ' = σ.
Proof.
  unfold get_property. intros H.
  apply bind_Ok_inv in H as (d & σ1 & H1 & H2).
  apply lookup_property_inv in H1 as ->.
  destruct d as [[? ? ? ?|[?|] ? ? ?]|]; unfold ret, out_of_model in H2; inversion H2; auto.
Qed.

Lemma has_property_own σ t o k pr :
  objs σ !! t = Some o -> assoc_get k (o_props o) = Some pr ->
  has_property t k σ = Ok true σ.
Proof.
  intros Ho Hk. unfold has_property.
  rewrite (bind_Ok _ _ _ _ _ (lookup_property_own _ _ _ _ _ Ho Hk)). reflexivity.
Qed.

Lemma has_property_inv σ t k b σ' :
  has_property t k σ = Ok b σ' -> σ' = σ.
Proof.
  unfold has_property. intros H.
  apply bind_Ok_inv in H as (d & σ1 & H1 & H2).
  apply lookup_property_inv in H1 as ->. unfold ret in H2. inversion H2; auto.
Qed.

Lemma has_property_find σ t k b σ' :
  has_property t k σ = Ok b σ' ->
  exists d, find_property (S (length (objs σ))) (objs σ) t k = Some d
            /\ b = bool_decide (d <> None).
Proof.
  unfold has_property, lookup_property, bind, gets, of_option.
  destruct (find_property _ _ _ _) as [d|]; [|discriminate].
  intros H. exists d. split; auto. destruct d; inversion H; reflexivity.
Qed.

Lemma has_property_same_objs σ σ' t k b :
  objs σ' = objs σ -> has_property t k σ = Ok b σ -> has_property t k σ' = Ok b σ'.
Proof.
  intros Ho H. apply has_property_find in H as (d & Hf & ->).
  unfold has_property, lookup_property, bind, gets, of_option. rewrite Ho, Hf.
  destruct d; reflexivity.
Qed.

Lemma has_property_false_own σ t k o :
  has_property t k σ = Ok false σ -> objs σ !! t = Some o ->
  assoc_get k (o_props o) = None.
Proof.
  intros H Ho. apply has_property_find in H as (d & Hf & Hb).
  simpl in Hf. rewrite Ho in Hf.
  destruct (assoc_get k (o_props o)) as [pr|]; [|reflexivity].
  inversion Hf; subst d. rewrite bool_decide_eq_true_2 in Hb; discriminate.
Qed.

Lemma target_metadata_wrapped σ t m :
  wrapped σ t m -> target_metadata t σ = Ok m σ.
Proof.
  intros (o & md & w & e & c & Ho & Hk & Hm & _).
  unfold target_metadata.
  rewrite (bind_Ok _ _ _ _ _ (get_property_own_data _ _ _ _ _ _ _ _ Ho Hk)).
  rewrite (bind_Ok _ _ _ _ _ (get_meta_Ok _ _ _ Hm)). reflexivity.
Qed.

Lemma target_metadata_inv σ t m σ' :
  target_metadata t σ = Ok m σ' -> σ' = σ.
Proof.
  unfold target_metadata. intros H.
  apply bind_Ok_inv in H as (mv & σ1 & H1 & H2).
  apply get_property_inv in H1 as ->.
  destruct mv; try discriminate.
  apply bind_Ok_inv in H2 as (md & σ2 & H2 & H3).
  apply get_meta_inv in H2 as [_ ->]. unfold ret in H3. inversion H3; auto.
Qed.

Lemma cell_Some_meta σ m k x :
  cell σ m k = Some x -> exists md, metas σ !! m = Some md /\ assoc_get k (m_s md) = Some x.
Proof.
  unfold cell. destruct (metas σ !! m) as [md|]; [|discriminate]. simpl. eauto.
Qed.

Lemma cell_None_meta σ m md k :
  metas σ !! m = Some md -> cell σ m k = None -> assoc_get k (m_s md) = None.
Proof. unfold cell. intros ->. simpl. auto. Qed.

Lemma wrapped_meta σ t m : wrapped σ t m -> exists md, metas σ !! m = Some md.
Proof. intros (o & md & w & e & c & _ & _ & Hm & _). eauto. Qed.

Lemma wrapped_object σ t m : wrapped σ t m -> exists o, objs σ !! t = Some o.
Proof. intros (o & md & w & e & c & Ho & _). eauto. Qed.


Lemma is_uninitialized_false x : x <> UNINITIALIZED -> is_uninitialized x = false.
Proof. intros H. unfold is_uninitialized. apply bool_decide_eq_false_2. exact H. Qed.

(** ** Stores, reads of a cell, bumps *)

Lemma s_set_source_Ok σ m md k x :
  metas σ !! m = Some md -> s_set_source m k x σ = Ok tt (store_source m md k x σ).
Proof.
  intros Hm. unfold s_set_source, update_meta.
  rewrite (bind_Ok _ _ _ _ _ (get_meta_Ok _ _ _ Hm)). reflexivity.
Qed.

Lemma set_key_Ok σ m md k x :
  metas σ !! m = Some md ->
  sources.set (SKey m k) x σ = Ok tt (store_source m md k x (emit (ESet (SKey m k) x) σ)).
Proof.
  intros Hm. unfold sources.set.
  rewrite (bind_Ok _ _ σ tt (emit (ESet (SKey m k) x) σ)) by reflexivity.
  apply (s_set_source_Ok (emit _ σ)). exact Hm.
Qed.

Lemma get_key_Ok σ m k x :
  cell σ m k = Some x ->
  runtime.get (SKey m k) σ = Ok x (emit (EGet (SKey m k)) σ).
Proof.
  intros Hc. unfold runtime.get.
  rewrite (bind_Ok _ _ σ tt (emit (EGet (SKey m k)) σ)) by reflexivity.
  unfold cell in Hc. destruct (metas σ !! m) as [md|] eqn:Hm; [|discriminate].
  simpl in Hc.
  rewrite (bind_Ok _ _ _ _ _ (s_get_Ok (emit _ σ) m md k Hm)). rewrite Hc. reflexivity.
Qed.

Lemma cell_store_source_eq σ m md k x :
  metas σ !! m = Some md -> cell (store_source m md k x σ) m k = Some x.
Proof.
  intros Hm. unfold cell, store_source. simpl.
  rewrite list_lookup_insert_eq by (eapply lookup_lt_Some; eauto). simpl.
  apply assoc_get_set_eq.
Qed.

Lemma cell_store_source_ne σ m md k k' x :
  metas σ !! m = Some md -> k' <> k ->
  cell (store_source m md k x σ) m k' = cell σ m k'.
Proof.
  intros Hm Hne. unfold cell, store_source. simpl.
  rewrite list_lookup_insert_eq by (eapply lookup_lt_Some; eauto). rewrite Hm. simpl.
  apply assoc_get_set_ne. exact Hne.
Qed.

Lemma update_version_Ok σ m md :
  metas σ !! m = Some md -> update_version m σ = Ok tt (bump m md σ).
Proof.
  intros Hm. unfold update_version.
  rewrite (bind_Ok _ _ _ _ _ (get_meta_Ok _ _ _ Hm)).
  unfold sources.set.
  rewrite (bind_Ok _ _ σ tt (emit (ESet (SVersion m) (VNum (m_v md + 1))) σ)) by reflexivity.
  unfold update_meta.
  rewrite (bind_Ok _ _ _ _ _ (get_meta_Ok (emit _ σ) _ _ Hm)). reflexivity.
Qed.

Lemma update_version_inv σ m u σ' :
  update_version m σ = Ok u σ' ->
  exists md, metas σ !! m = Some md /\ σ' = bump m md σ.
Proof.
  intros H. unfold update_version in H.
  apply bind_Ok_inv in H as (md & σ1 & H1 & H2).
  apply get_meta_inv in H1 as [Hm ->]. exists md. split; auto.
  pose proof (update_version_Ok σ m md Hm) as E. unfold update_version in E.
  rewrite (bind_Ok _ _ _ _ _ (get_meta_Ok _ _ _ Hm)) in E. congruence.
Qed.

Lemma bump_version σ m md :
  metas σ !! m = Some md -> version (bump m md σ) m = Some (m_v md + 1).
Proof.
  intros Hm. unfold version, bump. simpl.
  rewrite list_lookup_insert_eq by (eapply lookup_lt_Some; eauto). reflexivity.
Qed.

Lemma bump_cell σ m md k :
  metas σ !! m = Some md -> cell (bump m md σ) m k = cell σ m k.
Proof.
  intros Hm. unfold cell, bump. simpl.
  rewrite list_lookup_insert_eq by (eapply lookup_lt_Some; eauto). rewrite Hm. reflexivity.
Qed.

Lemma bump_wrapped σ t m md :
  metas σ !! m = Some md -> wrapped σ t m -> wrapped (bump m md σ) t m.
Proof.
  intros Hm (o & md0 & w & e & c & Ho & Hk & Hm0 & Ht).
  assert (md0 = md) by congruence. subst md0.
  exists o, (with_v (m_v md + 1) md), w, e, c. unfold bump. simpl.
  rewrite list_lookup_insert_eq by (eapply lookup_lt_Some; eauto). auto.
Qed.

(** ** The wrapper factory *)

Lemma existing_proxy_inv mv x σ r σ' :
  existing_proxy mv x σ = Ok r σ' -> σ' = σ.
Proof.
  destruct mv; simpl; intros H; try (inversion H; auto; fail).
  apply bind_Ok_inv in H as (md & σ1 & H1 & H2).
  apply get_meta_inv in H1 as [_ ->]. inversion H2; auto.
Qed.

Lemma existing_proxy_owner σ m md x :
  metas σ !! m = Some md -> m_t md = x ->
  existing_proxy (VMeta m) x σ = Ok (Some (m_p md)) σ.
Proof.
  intros Hm Ht. simpl. rewrite (bind_Ok _ _ _ _ _ (get_meta_Ok _ _ _ Hm)).
  unfold ret. rewrite (bool_decide_eq_true_2 _ Ht). reflexivity.
Qed.

(** Wrapping a value that is not an object returns it. *)
Lemma proxy_primitive x parent σ :
  is_object x = false -> proxy x parent σ = Ok x σ.
Proof. destruct x; simpl; intros H; try discriminate; reflexivity. Qed.

(** Wrapping the target of a wrapped record again finds the record. *)
Lemma proxy_wrapped σ t m parent :
  wrapped σ t m ->
  exists md, metas σ !! m = Some md /\
    (proxy (VObj t) parent σ = Ok (m_p md) σ \/ proxy (VObj t) parent σ = Ok (VObj t) σ).
Proof.
  intros (o & md & w & e & c & Ho & Hk & Hm & Ht). exists md. split; auto.
  unfold proxy. rewrite (bind_Ok _ _ _ _ _ (get_object_Ok _ _ _ Ho)).
  destruct (o_frozen o); [right; reflexivity | left].
  rewrite (bind_Ok _ _ _ _ _ (has_property_own _ _ _ _ _ Ho Hk)).
  match goal with
  | |- bind ?c _ _ = _ => assert (E : c σ = Ok (Some (m_p md)) σ)
  end.
  { rewrite (bind_Ok _ _ _ _ _ (get_property_own_data _ _ _ _ _ _ _ _ Ho Hk)).
    apply existing_proxy_owner; auto. }
  rewrite (bind_Ok _ _ _ _ _ E). reflexivity.
Qed.

Lemma define_property_inv l k x σ u σ' :
  define_property l k x σ = Ok u σ' ->
  exists o', σ' = set_objs (fun os => <[l := o']> os) σ.
Proof.
  unfold define_property. intros H.
  apply bind_Ok_inv in H as (o & σ1 & H1 & H2).
  apply get_object_inv in H1 as [Ho ->].
  destruct (assoc_get k (o_props o)) as [[? w e c|? ? ? c]|].
  - destruct (c || (w && negb e)); inversion H2; eauto.
  - destruct c; inversion H2; eauto.
  - inversion H2; eauto.
Qed.

Lemma new_Proxy_inv l σ p σ' :
  new_Proxy l σ = Ok p σ' ->
  p = length (proxies σ) /\ σ' = set_proxies (fun ps => ps ++ [l]) σ.
Proof. intros H. inversion H. auto. Qed.

Lemma new_metadata_inv md σ mm σ' :
  new_metadata md σ = Ok mm σ' ->
  mm = length (metas σ) /\ σ' = set_metas (fun ms => ms ++ [md]) σ.
Proof. intros H. inversion H. auto. Qed.


(** * What the steps respect *)

Section Preservation.
Context {R : state -> state -> Prop} `{!Respected R}.

Lemma preserves_ret {A} (x : A) : preserves R (ret x).
Proof. intros σ y σ' H. inversion H. apply respected_refl. Qed.

Lemma preserves_bind {A B} (c : M A) (f : A -> M B) :
  preserves R c -> (forall x, preserves R (f x)) -> preserves R (bind c f).
Proof.
  intros Hc Hf σ y σ' H. apply bind_Ok_inv in H as (x & σ1 & H1 & H2).
  eapply respected_trans; [eapply Hc | eapply Hf]; eauto.
Qed.

Lemma preserves_read {A} (c : M A) :
  (forall σ x σ', c σ = Ok x σ' -> σ' = σ) -> preserves R c.
Proof. intros Hc σ x σ' H. apply Hc in H as ->. apply respected_refl. Qed.

Lemma preserves_gets {A} (f : state -> A) : preserves R (gets f).
Proof. apply preserves_read. intros σ x σ' H. inversion H. auto. Qed.

Lemma preserves_of_option {A} (o : option A) : preserves R (of_option o).
Proof. apply preserves_read. intros σ x σ' H. destruct o; inversion H. auto. Qed.

Lemma preserves_out_of_model {A} : preserves R (@out_of_model A).
Proof. intros σ x σ' H. inversion H. Qed.

Lemma preserves_throw {A} e : preserves R (@throw A e).
Proof. intros σ x σ' H. inversion H. Qed.

Lemma preserves_when b c : preserves R c -> preserves R (when b c).
Proof. intros Hc. destruct b; simpl; [exact Hc | apply preserves_ret]. Qed.

Lemma preserves_has_property l k : preserves R (has_property l k).
Proof. apply preserves_read. intros ? ? ?. apply has_property_inv. Qed.

Lemma preserves_get_property l k : preserves R (get_property l k).
Proof. apply preserves_read. intros ? ? ?. apply get_property_inv. Qed.

Lemma preserves_get_descriptor l k : preserves R (get_descriptor l k).
Proof. apply preserves_read. intros ? ? ?. apply get_descriptor_inv. Qed.

Lemma preserves_get_object l : preserves R (get_object l).
Proof. apply preserves_read. intros σ x σ' H. apply get_object_inv in H. tauto. Qed.

Lemma preserves_get_meta m : preserves R (get_meta m).
Proof. apply preserves_read. intros σ x σ' H. apply get_meta_inv in H. tauto. Qed.

Lemma preserves_s_get m k : preserves R (s_get m k).
Proof. apply preserves_read. intros σ x σ' H. apply s_get_inv in H. tauto. Qed.

Lemma preserves_target_metadata l : preserves R (target_metadata l).
Proof. apply preserves_read. intros ? ? ?. apply target_metadata_inv. Qed.

Lemma preserves_emit e : is_version_write e = false -> preserves R (modify (emit e)).
Proof. intros He σ x σ' H. inversion H; subst. apply respected_emit. exact He. Qed.

Lemma preserves_s_set_source m k x : preserves R (s_set_source m k x).
Proof.
  intros σ u σ' H. unfold s_set_source, update_meta in H.
  apply bind_Ok_inv in H as (md & σ1 & H1 & H2).
  apply get_meta_inv in H1 as [Hm ->]. inversion H2; subst; clear H2.
  apply (respected_store σ m md k x Hm).
Qed.

Lemma preserves_set_key m k x : preserves R (sources.set (SKey m k) x).
Proof.
  unfold sources.set. apply preserves_bind.
  - apply preserves_emit. reflexivity.
  - intros _. apply preserves_s_set_source.
Qed.

Lemma preserves_get sg : preserves R (runtime.get sg).
Proof.
  unfold runtime.get. apply preserves_bind.
  - apply preserves_emit. reflexivity.
  - intros _. destruct sg.
    + apply preserves_bind; [apply preserves_s_get | intros; apply preserves_of_option].
    + apply preserves_bind; [apply preserves_get_meta | intros; apply preserves_ret].
Qed.

Lemma preserves_proxy x parent : preserves R (proxy x parent).
Proof. intros σ y σ' H. eapply respected_proxy. exact H. Qed.

Lemma preserves_clear_signals m i count : preserves R (clear_signals m i count).
Proof.
  revert i. induction count as [|n IH]; intros i; simpl.
  - apply preserves_ret.
  - apply preserves_bind; [apply preserves_s_get|]. intros s.
    apply preserves_bind; [apply preserves_when, preserves_set_key|].
    intros _. apply IH.
Qed.

Lemma preserves_pushed_keys t cells : preserves R (pushed_keys t cells).
Proof.
  induction cells as [|[k x] r IH]; simpl.
  - apply preserves_ret.
  - apply preserves_bind; [apply preserves_has_property|]. intros inside.
    apply preserves_bind; [exact IH|]. intros more. apply preserves_ret.
Qed.
End Preservation.

(** Decomposes a computation into steps that are known to be respected. *)
Ltac preserving :=
  repeat first
    [ assumption
    | match goal with
      | H : _ |- preserves _ (update_version _) => apply H
      end
    | apply preserves_ret
    | apply preserves_out_of_model
    | apply preserves_throw
    | apply preserves_gets
    | apply preserves_of_option
    | apply preserves_has_property
    | apply preserves_get_property
    | apply preserves_get_descriptor
    | apply preserves_get_object
    | apply preserves_get_meta
    | apply preserves_s_get
    | apply preserves_target_metadata
    | apply preserves_proxy
    | apply preserves_s_set_source
    | apply preserves_set_key
    | apply preserves_get
    | apply preserves_clear_signals
    | apply preserves_pushed_keys
    | apply preserves_emit; reflexivity
    | apply preserves_when
    | apply preserves_bind; [|intros ?]
    | match goal with
      | |- preserves _ (if ?b then _ else _) => destruct b
      | |- preserves _ (match ?x with _ => _ end) => destruct x
      end ].

(** The handlers, one by one.  The write and the delete end with a bump of
    the structural version: they are respected when the bump is. *)
Section Handlers.
Context {R : state -> state -> Prop} `{!Respected R}.
Import state_proxy_handler.

Lemma preserves_defineProperty t k d : preserves R (defineProperty t k d).
Proof. unfold defineProperty. preserving. Qed.

Lemma preserves_get_trap t k rcv : preserves R (get t k rcv).
Proof. unfold get. preserving. Qed.

Lemma preserves_has t k : preserves R (has t k).
Proof. unfold has. preserving. Qed.

Lemma preserves_getOwnPropertyDescriptor t k :
  preserves R (getOwnPropertyDescriptor t k).
Proof. unfold getOwnPropertyDescriptor. preserving. Qed.

Lemma preserves_ownKeys t : preserves R (ownKeys t).
Proof. unfold ownKeys. preserving. Qed.

Lemma preserves_set t k v rcv :
  (forall m, preserves R (update_version m)) -> preserves R (set t k v rcv).
Proof. intros Hbump. unfold set. preserving. Qed.

Lemma preserves_deleteProperty t k :
  (forall m, preserves R (update_version m)) -> preserves R (deleteProperty t k).
Proof. intros Hbump. unfold deleteProperty. preserving. Qed.
End Handlers.

(** A wrap either leaves the state as it is, or it is the first wrap of a
    raw object that is not frozen and that carries no record of its own: a
    proxy and a record are made, and the marker is defined on the object. *)
Lemma proxy_inv x parent σ y σ' :
  proxy x parent σ = Ok y σ' ->
  σ' = σ
  \/ exists l o,
       x = VObj l
       /\ objs σ !! l = Some o
       /\ o_frozen o = false
       /\ (marked <- has_property l STATE_SYMBOL ;;
           if marked
           then mv <- get_property l STATE_SYMBOL ;; existing_proxy mv (VObj l)
           else ret None) σ = Ok None σ
       /\ define_property l STATE_SYMBOL (VMeta (length (metas σ)))
            (set_metas
               (fun ms => ms ++ [{| m_s := []; m_v := 0; m_a := o_array o;
                                    m_p := VProxy (length (proxies σ));
                                    m_t := VObj l |}])
               (set_proxies (fun ps => ps ++ [l]) σ))
          = Ok tt σ'.
Proof.
  intros Hp. destruct x; simpl in Hp; try (inversion Hp; left; reflexivity).
  - apply bind_Ok_inv in Hp as (o & σ0 & H0 & Hp).
    apply get_object_inv in H0 as [Ho ->].
    destruct (o_frozen o) eqn:Hfrozen; [inversion Hp; left; reflexivity|].
    apply bind_Ok_inv in Hp as (marked & σ0 & H1 & Hp).
    pose proof (has_property_inv _ _ _ _ _ H1) as ->.
    apply bind_Ok_inv in Hp as (existing & σ0 & H2 & Hp).
    assert (σ0 = σ) as ->.
    { destruct marked; [|inversion H2; auto].
      apply bind_Ok_inv in H2 as (mv & σ2 & H2 & H3).
      apply get_property_inv in H2 as ->.
      eapply existing_proxy_inv; eauto. }
    destruct existing; [inversion Hp; left; reflexivity|].
    destruct (bool_decide _ || bool_decide _); [|inversion Hp; left; reflexivity].
    right. exists l, o.
    apply bind_Ok_inv in Hp as (p & σ0 & H3 & Hp).
    apply new_Proxy_inv in H3 as [-> ->].
    apply bind_Ok_inv in Hp as (mm & σ0 & H4 & Hp).
    apply new_metadata_inv in H4 as [-> ->].
    apply bind_Ok_inv in Hp as (u & σ0 & H5 & Hp).
    inversion Hp; subst y σ0; clear Hp. destruct u.
    split; [reflexivity|]. split; [exact Ho|]. split; [exact Hfrozen|].
    split; [|exact H5].
    rewrite (bind_Ok _ _ _ _ _ H1). exact H2.
  - left. apply bind_Ok_inv in Hp as (target & σ0 & H0 & Hp).
    assert (σ0 = σ) as ->.
    { unfold proxy_target, bind, gets, of_option in H0.
      destruct (proxies σ !! p); inversion H0; auto. }
    apply bind_Ok_inv in Hp as (o & σ0 & H1 & Hp).
    apply get_object_inv in H1 as [_ ->].
    destruct (o_frozen o); [discriminate|].
    apply bind_Ok_inv in Hp as (mv & σ0 & H2 & Hp).
    apply get_property_inv in H2 as ->.
    apply bind_Ok_inv in Hp as (existing & σ0 & H3 & Hp).
    apply existing_proxy_inv in H3 as ->.
    destruct existing; inversion Hp; reflexivity.
Qed.

(** ** The frame of a wrapped target *)

Section Frame.
Variables (t : loc) (m : mloc).

Lemma frame_refl σ : frame t m σ σ.
Proof.
  intros Hw. repeat split; auto.
  exists []. rewrite app_nil_r. auto.
Qed.

Lemma frame_trans σ1 σ2 σ3 : frame t m σ1 σ2 -> frame t m σ2 σ3 -> frame t m σ1 σ3.
Proof.
  intros H12 H23 Hw.
  destruct (H12 Hw) as (Hw2 & Ho2 & Hv2 & Hc2 & (ev2 & Ht2 & Hq2) & Hk2 & Ha2).
  destruct (H23 Hw2) as (Hw3 & Ho3 & Hv3 & Hc3 & (ev3 & Ht3 & Hq3) & Hk3 & Ha3).
  split; [exact Hw3|]. split; [congruence|]. split; [congruence|].
  split; [congruence|]. split; [|split; [auto | congruence]].
  exists (ev2 ++ ev3). split.
  - rewrite Ht3, Ht2, app_assoc. reflexivity.
  - unfold quiet in *. rewrite forallb_app, Hq2, Hq3. reflexivity.
Qed.

Lemma frame_emit e σ : is_bump m e = false -> frame t m σ (emit e σ).
Proof.
  intros He Hw. repeat split; auto.
  exists [e]. split; [reflexivity|]. unfold quiet. simpl. rewrite He. reflexivity.
Qed.

Lemma frame_store σ m' md' k x :
  metas σ !! m' = Some md' -> frame t m σ (store_source m' md' k x σ).
Proof.
  intros Hm' (o & md & w & e & c & Ho & Hk & Hm & Ht).
  assert (Hlt : (m' < length (metas σ))%nat) by (eapply lookup_lt_Some; eauto).
  unfold store_source.
  destruct (decide (m' = m)) as [->|Hne].
  - assert (md' = md) by congruence. subst md'.
    repeat split; auto.
    + exists o, (with_s (assoc_set k x) md), w, e, c. simpl.
      rewrite list_lookup_insert_eq by auto. auto.
    + unfold version. simpl. rewrite list_lookup_insert_eq by auto.
      rewrite Hm. reflexivity.
    + exists []. rewrite app_nil_r. auto.
    + intros k0. unfold cell. simpl. rewrite list_lookup_insert_eq by auto.
      rewrite Hm. simpl. intros Hs.
      destruct (decide (k0 = k)) as [->|Hk0].
      * rewrite assoc_get_set_eq. eauto.
      * rewrite assoc_get_set_ne by auto. auto.
    + simpl. rewrite list_lookup_insert_eq by auto. rewrite Hm. reflexivity.
  - repeat split; auto.
    + exists o, md, w, e, c. simpl. rewrite list_lookup_insert_ne by auto. auto.
    + unfold version. simpl. rewrite list_lookup_insert_ne by auto. reflexivity.
    + exists []. rewrite app_nil_r. auto.
    + intros k0. unfold cell. simpl. rewrite list_lookup_insert_ne by auto. auto.
    + simpl. rewrite list_lookup_insert_ne by auto. reflexivity.
Qed.

Lemma frame_fresh σ l o' p md' :
  l <> t ->
  frame t m σ
    (set_objs (fun os => <[l := o']> os)
       (set_metas (fun ms => ms ++ [md'])
          (set_proxies (fun ps => ps ++ [p]) σ))).
Proof.
  intros Hne (o & md & w & e & c & Ho & Hk & Hm & Ht).
  repeat split; simpl.
  - exists o, md, w, e, c. simpl. rewrite list_lookup_insert_ne by auto.
    rewrite (lookup_app_l_Some _ _ _ _ Hm). auto.
  - rewrite list_lookup_insert_ne by auto. reflexivity.
  - unfold version. simpl. rewrite (lookup_app_l_Some _ _ _ _ Hm), Hm. reflexivity.
  - exists []. rewrite app_nil_r. auto.
  - intros k. unfold cell. simpl. rewrite (lookup_app_l_Some _ _ _ _ Hm), Hm. auto.
  - rewrite (lookup_app_l_Some _ _ _ _ Hm), Hm. reflexivity.
Qed.

(** A wrap never touches a wrapped target: wrapping the target itself finds
    its record. *)
Lemma frame_proxy x parent σ y σ' : proxy x parent σ = Ok y σ' -> frame t m σ σ'.
Proof.
  intros Hp. destruct (proxy_inv _ _ _ _ _ Hp)
    as [-> | (l & o & -> & Ho & Hfrozen & Hex & Hdef)]; [apply frame_refl|].
  intros Hw. revert Hw.
  apply define_property_inv in Hdef as (o' & ->).
  intros Hw. assert (Hne : l <> t).
  { intros ->. destruct Hw as (o0 & md0 & w & e & c & Ho0 & Hk & Hm0 & Ht).
    assert (o0 = o) by congruence. subst o0.
    rewrite (bind_Ok _ _ _ _ _ (has_property_own _ _ _ _ _ Ho Hk)) in Hex.
    rewrite (bind_Ok _ _ _ _ _ (get_property_own_data _ _ _ _ _ _ _ _ Ho Hk)) in Hex.
    rewrite (existing_proxy_owner _ _ _ _ Hm0 Ht) in Hex. discriminate. }
  revert Hw. apply frame_fresh. exact Hne.
Qed.

#[global] Instance frame_respected : Respected (frame t m).
Proof.
  split.
  - apply frame_refl.
  - apply frame_trans.
  - intros e σ He. apply frame_emit. destruct e as [| [|] |]; try reflexivity.
    discriminate.
  - intros σ m' md k x Hm'. apply frame_store. exact Hm'.
  - apply frame_proxy.
Qed.
End Frame.

Ltac frame_of t m H Hf :=
  match type of H with
  | ?c ?σ = Ok _ ?σ' =>
      assert (Hf : frame t m σ σ')
        by (refine ((_ : preserves (frame t m) c) _ _ _ H); preserving)
  end.

(** * The write and the delete, step by step *)

Section SetTrap.
Variables (t : loc) (m : mloc).
Import state_proxy_handler.

(** A write, step by step: everything up to the bump leaves the raw target
    and the version alone; the setter of the raw descriptor, if any, has
    been called by then; the bump comes last, and only for a key that did
    not exist. *)
Lemma set_inv σ k v rcv b σ' :
  wrapped σ t m ->
  set t k v rcv σ = Ok b σ' ->
  exists σ1 ex o md1 evs,
    key_exists σ t m k = Some ex
    /\ objs σ !! t = Some o
    /\ frame t m σ σ1
    /\ trace σ1 = trace σ ++ evs
    /\ (forall f, descriptor_set (assoc_get k (o_props o)) = Some f ->
                  In (ECall f rcv v) evs)
    /\ metas σ1 !! m = Some md1
    /\ b = true
    /\ σ' = (if ex then σ1 else bump m md1 σ1).
Proof.
  intros Hw H. unfold set in H.
  rewrite (bind_Ok _ _ _ _ _ (target_metadata_wrapped _ _ _ Hw)) in H.
  apply bind_Ok_inv in H as (s & σ0 & H0 & H).
  apply s_get_inv in H0 as [Hs ->].
  apply bind_Ok_inv in H as (inside & σ0 & H0 & H).
  pose proof (has_property_inv _ _ _ _ _ H0) as ->.
  apply has_property_find in H0 as (dfound & Hfind & Hinside).
  apply bind_Ok_inv in H as (d & σ0 & H0 & H).
  pose proof (get_descriptor_inv _ _ _ _ _ H0) as ->.
  apply get_descriptor_inv' in H0 as (o & Ho & Hd).
  apply bind_Ok_inv in H as (has & σA & HA & H).
  frame_of t m HA HfA.
  assert (Hex : key_exists σ t m k = Some has).
  { unfold key_exists. rewrite Hs, Hfind. destruct s as [x|].
    - apply bind_Ok_inv in HA as (pv & σ2 & _ & HA).
      apply bind_Ok_inv in HA as (u & σ3 & _ & HA). inversion HA. reflexivity.
    - apply bind_Ok_inv in HA as (u & σ2 & _ & HA). inversion HA. congruence. }
  apply bind_Ok_inv in H as (mdA & σ0 & H0 & H).
  apply get_meta_inv in H0 as [HmA ->].
  apply bind_Ok_inv in H as (u1 & σB & HB & H).
  frame_of t m HB HfB.
  apply bind_Ok_inv in H as (d' & σ0 & H0 & H).
  pose proof (get_descriptor_inv _ _ _ _ _ H0) as ->.
  apply get_descriptor_inv' in H0 as (o' & Ho' & Hd').
  destruct (HfA Hw) as (HwA & HoA & _ & _ & (evA & HtA & _) & _).
  destruct (HfB HwA) as (HwB & HoB & _ & _ & (evB & HtB & _) & _).
  assert (o' = o) by congruence. subst o'.
  apply bind_Ok_inv in H as (u2 & σC & HC & H).
  assert (HfC : frame t m σB σC).
  { revert HC. destruct (descriptor_set d'); intros HC.
    - refine ((_ : preserves (frame t m) (modify (emit _))) _ _ _ HC). preserving.
    - refine ((_ : preserves (frame t m) (ret tt)) _ _ _ HC). preserving. }
  assert (HtC : exists evC, trace σC = trace σB ++ evC
                /\ forall f, descriptor_set d' = Some f -> In (ECall f rcv v) evC).
  { revert HC. destruct (descriptor_set d') as [f|]; intros HC.
    - inversion HC. exists [ECall f rcv v]. split; [reflexivity|].
      intros f' Hf'. inversion Hf'. left. reflexivity.
    - inversion HC. exists []. split; [rewrite app_nil_r; reflexivity|]. discriminate. }
  destruct HtC as (evC & HtC & HinC).
  destruct (HfC HwB) as (HwC & _).
  apply bind_Ok_inv in H as (u3 & σD & HD & H).
  inversion H; subst b σ'; clear H.
  destruct has; simpl in HD.
  - inversion HD; subst σD.
    destruct HwC as (oC & mdC & w & e & c & HoC & HkC & HmC & HtC').
    exists σC, true, o, mdC, (evA ++ evB ++ evC).
    split; [exact Hex|]. split; [exact Ho|].
    split; [exact (frame_trans t m _ _ _ HfA (frame_trans t m _ _ _ HfB HfC))|].
    split; [rewrite HtC, HtB, HtA, <- !app_assoc; reflexivity|].
    split; [|auto].
    intros f Hf. rewrite !in_app_iff. right. right. apply HinC. rewrite Hd'. exact Hf.
  - apply bind_Ok_inv in HD as (u4 & σE & HE & HD).
    frame_of t m HE HfE.
    destruct (HfE HwC) as (HwE & _ & _ & _ & (evE & HtE & _) & _).
    apply update_version_inv in HD as (mdE & HmE & ->).
    exists σE, false, o, mdE, (evA ++ evB ++ evC ++ evE).
    split; [exact Hex|]. split; [exact Ho|].
    split; [exact (frame_trans t m _ _ _ HfA
                     (frame_trans t m _ _ _ HfB (frame_trans t m _ _ _ HfC HfE)))|].
    split; [rewrite HtE, HtC, HtB, HtA, <- !app_assoc; reflexivity|].
    split; [|auto].
    intros f Hf. rewrite !in_app_iff. right. right. left.
    apply HinC. rewrite Hd'. exact Hf.
Qed.
End SetTrap.

Section DeleteTrap.
Variables (t : loc) (m : mloc).
Import state_proxy_handler.

(** A delete, step by step: the result is the existence of the key, and
    the bump comes last, only for a key that existed. *)
Lemma deleteProperty_inv σ k b σ' :
  wrapped σ t m ->
  deleteProperty t k σ = Ok b σ' ->
  exists σ1 md1,
    key_exists σ t m k = Some b
    /\ frame t m σ σ1
    /\ metas σ1 !! m = Some md1
    /\ σ' = (if b then bump m md1 σ1 else σ1).
Proof.
  intros Hw H. unfold deleteProperty in H.
  rewrite (bind_Ok _ _ _ _ _ (target_metadata_wrapped _ _ _ Hw)) in H.
  apply bind_Ok_inv in H as (s & σ0 & H0 & H).
  apply s_get_inv in H0 as [Hs ->].
  apply bind_Ok_inv in H as (ex & σ0 & H0 & H).
  assert (Hex : key_exists σ t m k = Some ex /\ σ0 = σ).
  { unfold key_exists. rewrite Hs. destruct s as [x|].
    - inversion H0. auto.
    - pose proof (has_property_inv _ _ _ _ _ H0) as ->.
      apply has_property_find in H0 as (d & -> & ->). auto. }
  destruct Hex as [Hex ->].
  apply bind_Ok_inv in H as (u1 & σA & HA & H).
  frame_of t m HA HfA.
  destruct (HfA Hw) as (HwA & _).
  apply bind_Ok_inv in H as (u2 & σB & HB & H).
  inversion H; subst b σ'; clear H.
  destruct ex; simpl in HB.
  - apply update_version_inv in HB as (mdA & HmA & ->).
    exists σA, mdA. auto.
  - inversion HB; subst σB.
    destruct HwA as (oA & mdA & w & e & c & HoA & HkA & HmA & HtA).
    exists σA, mdA. auto.
Qed.
End DeleteTrap.


Lemma set_wrapped σ t m k v rcv b σ' :
  wrapped σ t m -> state_proxy_handler.set t k v rcv σ = Ok b σ' -> wrapped σ' t m.
Proof.
  intros Hw H.
  destruct (set_inv t m σ k v rcv b σ' Hw H)
    as (σ1 & ex & o & md1 & evs & _ & _ & Hf & _ & _ & Hm1 & _ & ->).
  destruct (Hf Hw) as (Hw1 & _).
  destruct ex; [exact Hw1 | apply bump_wrapped; auto].
Qed.

Lemma deleteProperty_wrapped σ t m k b σ' :
  wrapped σ t m -> state_proxy_handler.deleteProperty t k σ = Ok b σ' -> wrapped σ' t m.
Proof.
  intros Hw H.
  destruct (deleteProperty_inv t m σ k b σ' Hw H) as (σ1 & md1 & _ & Hf & Hm1 & ->).
  destruct (Hf Hw) as (Hw1 & _).
  destruct b; [apply bump_wrapped; auto | exact Hw1].
Qed.


(** * Running the handlers *)






Lemma set_new_key σ t m md k v rcv :
  wrapped σ t m -> metas σ !! m = Some md -> m_a md = false ->
  cell σ m k = None -> has_property t k σ = Ok false σ ->
  is_object v = false ->
  state_proxy_handler.set t k v rcv σ = Ok true (written m md k v σ).
Proof.
  intros Hw Hm Ha Hc Hin Hv. unfold state_proxy_handler.set.
  rewrite (bind_Ok _ _ _ _ _ (target_metadata_wrapped _ _ _ Hw)).
  rewrite (bind_Ok _ _ _ _ _ (s_get_Ok _ _ _ k Hm)).
  rewrite (cell_None_meta _ _ _ _ Hm Hc).
  rewrite (bind_Ok _ _ _ _ _ Hin).
  destruct (wrapped_object _ _ _ Hw) as [o Ho].
  rewrite (bind_Ok _ _ _ _ _ (get_descriptor_Ok _ _ _ k Ho)).
  set (σa := emit (ESet (SKey m k) v) σ).
  set (md1 := with_s (assoc_set k v) md).
  set (σb := store_source m md k v σa).
  set (σc := store_source m md1 k v σb).
  assert (Hmb : metas σb !! m = Some md1).
  { unfold σb, store_source. simpl. apply list_lookup_insert_eq.
    eapply lookup_lt_Some; eauto. }
  assert (Hmc : metas σc !! m = Some (with_s (assoc_set k v) md1)).
  { unfold σc, store_source. simpl. apply list_lookup_insert_eq.
    rewrite length_insert. eapply lookup_lt_Some; eauto. }
  match goal with
  | |- bind ?c _ _ = _ => assert (E : c σ = Ok false σc)
  end.
  { simpl negb. rewrite orb_true_l. unfold when.
    match goal with
    | |- bind ?c _ _ = _ => assert (E : c σ = Ok tt σc)
    end.
    { rewrite (bind_Ok _ _ _ _ _ (proxy_primitive v (Some m) σ Hv)).
      rewrite (bind_Ok _ _ _ _ _ (set_key_Ok _ _ _ _ _ Hm)).
      apply (s_set_source_Ok σb). exact Hmb. }
    rewrite (bind_Ok _ _ _ _ _ E). reflexivity. }
  rewrite (bind_Ok _ _ _ _ _ E). clear E.
  rewrite (bind_Ok _ _ _ _ _ (get_meta_Ok _ _ _ Hmc)).
  simpl m_a. rewrite Ha. rewrite andb_false_l. unfold when at 1.
  rewrite (bind_Ok _ _ σc tt σc) by reflexivity.
  assert (Hoc : objs σc !! t = Some o) by exact Ho.
  rewrite (bind_Ok _ _ _ _ _ (get_descriptor_Ok _ _ _ k Hoc)).
  rewrite (has_property_false_own _ _ _ _ Hin Ho). simpl descriptor_set. cbv iota.
  rewrite (bind_Ok _ _ σc tt σc) by reflexivity.
  simpl negb. unfold when at 1.
  match goal with
  | |- bind ?c _ _ = _ =>
      assert (E : c σc = Ok tt (bump m (with_s (assoc_set k v) md1) σc))
  end.
  { assert (E0 : forall c : M unit, c σc = Ok tt σc ->
                 bind c (fun _ => update_version m) σc
                 = Ok tt (bump m (with_s (assoc_set k v) md1) σc)).
    { intros c Hcc. rewrite (bind_Ok _ _ _ _ _ Hcc).
      apply update_version_Ok. exact Hmc. }
    destruct k; apply E0; reflexivity. }
  rewrite (bind_Ok _ _ _ _ _ E). reflexivity.
Qed.

Lemma written_cell σ m md k v :
  metas σ !! m = Some md -> cell (written m md k v σ) m k = Some v.
Proof.
  intros Hm. unfold written.
  set (md1 := with_s (assoc_set k v) md).
  set (σb := store_source m md k v (emit (ESet (SKey m k) v) σ)).
  assert (Hmb : metas σb !! m = Some md1).
  { unfold σb, store_source. simpl. apply list_lookup_insert_eq.
    eapply lookup_lt_Some; eauto. }
  assert (Hmc : metas (store_source m md1 k v σb) !! m
                = Some (with_s (assoc_set k v) md1)).
  { unfold store_source. simpl. apply list_lookup_insert_eq.
    rewrite length_insert. eapply lookup_lt_Some; eauto. }
  rewrite (bump_cell _ _ _ _ Hmc). apply cell_store_source_eq. exact Hmb.
Qed.

Lemma deleteProperty_live_key σ t m md k x :
  wrapped σ t m -> metas σ !! m = Some md -> cell σ m k = Some x ->
  x <> UNINITIALIZED ->
  state_proxy_handler.deleteProperty t k σ = Ok true (deleted m md k σ).
Proof.
  intros Hw Hm Hc Hx. unfold state_proxy_handler.deleteProperty.
  rewrite (bind_Ok _ _ _ _ _ (target_metadata_wrapped _ _ _ Hw)).
  rewrite (bind_Ok _ _ _ _ _ (s_get_Ok _ _ _ k Hm)).
  assert (Hs : assoc_get k (m_s md) = Some x).
  { unfold cell in Hc. rewrite Hm in Hc. exact Hc. }
  rewrite Hs. rewrite (is_uninitialized_false _ Hx). simpl negb.
  rewrite (bind_Ok _ _ σ true σ) by reflexivity.
  rewrite (bool_decide_eq_true_2 (Some x <> None)) by discriminate.
  unfold when.
  rewrite (bind_Ok _ _ _ _ _ (set_key_Ok _ _ _ _ _ Hm)).
  set (σb := store_source m md k UNINITIALIZED _).
  assert (Hmb : metas σb !! m = Some (with_s (assoc_set k UNINITIALIZED) md)).
  { unfold σb, store_source. simpl. apply list_lookup_insert_eq.
    eapply lookup_lt_Some; eauto. }
  rewrite (bind_Ok _ _ _ _ _ (update_version_Ok _ _ _ Hmb)). reflexivity.
Qed.

Lemma deleted_cell σ m md k :
  metas σ !! m = Some md -> cell (deleted m md k σ) m k = Some UNINITIALIZED.
Proof.
  intros Hm. unfold deleted.
  set (σb := store_source m md k UNINITIALIZED _).
  assert (Hmb : metas σb !! m = Some (with_s (assoc_set k UNINITIALIZED) md)).
  { unfold σb, store_source. simpl. apply list_lookup_insert_eq.
    eapply lookup_lt_Some; eauto. }
  rewrite (bump_cell _ _ _ _ Hmb). apply (cell_store_source_eq (emit _ σ)). exact Hm.
Qed.

Lemma get_tracked_key σ t m k x rcv inside :
  wrapped σ t m -> k <> STATE_SYMBOL -> cell σ m k = Some x ->
  has_property t k σ = Ok inside σ ->
  state_proxy_handler.get t k rcv σ
    = Ok (if is_uninitialized x then VUndef else x) (emit (EGet (SKey m k)) σ).
Proof.
  intros Hw Hk Hc Hin. unfold state_proxy_handler.get.
  rewrite (bool_decide_eq_false_2 _ Hk).
  rewrite (bind_Ok _ _ _ _ _ (target_metadata_wrapped _ _ _ Hw)).
  destruct (cell_Some_meta _ _ _ _ Hc) as (md & Hm & Hs).
  rewrite (bind_Ok _ _ _ _ _ (s_get_Ok _ _ _ k Hm)). rewrite Hs.
  rewrite (bind_Ok _ _ _ _ _ Hin).
  destruct (wrapped_object _ _ _ Hw) as [o Ho].
  rewrite (bind_Ok _ _ _ _ _ (get_descriptor_Ok _ _ _ k Ho)).
  rewrite (bool_decide_eq_false_2 (Some x = None)) by discriminate.
  rewrite andb_false_l.
  rewrite (bind_Ok _ _ σ (Some x) σ) by reflexivity.
  rewrite (bind_Ok _ _ _ _ _ (get_key_Ok _ _ _ _ Hc)). reflexivity.
Qed.

(** The has-check of a tracked key.  The raw target is consulted only when
    the cell holds the tombstone, and the answer does not depend on it. *)
Lemma has_tracked_key σ t m k x inside :
  wrapped σ t m -> k <> STATE_SYMBOL -> cell σ m k = Some x ->
  is_uninitialized x = false \/ has_property t k σ = Ok inside σ ->
  state_proxy_handler.has t k σ
    = Ok (negb (is_uninitialized x)) (emit (EGet (SKey m k)) σ).
Proof.
  intros Hw Hk Hc Hin. unfold state_proxy_handler.has.
  rewrite (bool_decide_eq_false_2 _ Hk).
  rewrite (bind_Ok _ _ _ _ _ (target_metadata_wrapped _ _ _ Hw)).
  destruct (cell_Some_meta _ _ _ _ Hc) as (md & Hm & Hs).
  rewrite (bind_Ok _ _ _ _ _ (s_get_Ok _ _ _ k Hm)). rewrite Hs.
  destruct (wrapped_object _ _ _ Hw) as [o Ho].
  assert (Hrest : forall has : bool,
    (effect <- gets current_effect ;;
     d <- get_descriptor t k ;;
     if bool_decide (Some x <> None) || (effect && (negb has || is_writable d))
     then
       when (bool_decide (Some x = None))
            (init <- (if has
                      then raw <- get_property t k ;; proxy raw (Some m)
                      else ret UNINITIALIZED) ;;
             s_set_source m k init) ;;
       value <- runtime.get (SKey m k) ;;
       ret (if is_uninitialized value then false else has)
     else ret has) σ
    = Ok (if is_uninitialized x then false else has) (emit (EGet (SKey m k)) σ)).
  { intros has.
    rewrite (bind_Ok _ _ σ (current_effect σ) σ) by reflexivity.
    rewrite (bind_Ok _ _ _ _ _ (get_descriptor_Ok _ _ _ k Ho)).
    rewrite (bool_decide_eq_true_2 (Some x <> None)) by discriminate.
    rewrite (bool_decide_eq_false_2 (Some x = None)) by discriminate.
    rewrite orb_true_l. unfold when at 1.
    rewrite (bind_Ok _ _ σ tt σ) by reflexivity.
    rewrite (bind_Ok _ _ _ _ _ (get_key_Ok _ _ _ _ Hc)). reflexivity. }
  destruct (is_uninitialized x) eqn:Hx; simpl negb; cbv iota.
  - destruct Hin as [Hin | Hin]; [discriminate|].
    rewrite (bind_Ok _ _ _ _ _ Hin). rewrite Hrest. reflexivity.
  - rewrite (bind_Ok _ _ σ true σ) by reflexivity. rewrite Hrest. reflexivity.
Qed.

(** The has-check reports the existence of the key, when the key is tracked
    or when no computation is running. *)
Lemma has_reports_existence σ t m k h σh :
  wrapped σ t m -> k <> STATE_SYMBOL ->
  is_Some (cell σ m k) \/ current_effect σ = false ->
  state_proxy_handler.has t k σ = Ok h σh ->
  key_exists σ t m k = Some h.
Proof.
  intros Hw Hk Hcase H. pose proof H as H'. unfold state_proxy_handler.has in H.
  rewrite (bool_decide_eq_false_2 _ Hk) in H.
  rewrite (bind_Ok _ _ _ _ _ (target_metadata_wrapped _ _ _ Hw)) in H.
  apply bind_Ok_inv in H as (s & σ0 & H0 & H).
  apply s_get_inv in H0 as [Hs ->].
  apply bind_Ok_inv in H as (has & σ0 & Hhas & H).
  destruct s as [x|].
  - unfold key_exists. rewrite Hs.
    destruct (wrapped_object _ _ _ Hw) as [o Ho].
    destruct (cell_Some_meta _ _ _ _ Hs) as (md & Hm & Hs').
    destruct (is_uninitialized x) eqn:Hx; simpl negb in *; cbv iota in Hhas.
    + pose proof (has_property_inv _ _ _ _ _ Hhas) as ->.
      rewrite (has_tracked_key σ t m k x has Hw Hk Hs (or_intror Hhas)) in H'.
      rewrite Hx in H'. inversion H'. reflexivity.
    + rewrite (has_tracked_key σ t m k x true Hw Hk Hs (or_introl Hx)) in H'.
      rewrite Hx in H'. inversion H'. reflexivity.
  - destruct Hcase as [[x Hx] | Heff]; [congruence|].
    pose proof (has_property_inv _ _ _ _ _ Hhas) as ->.
    apply bind_Ok_inv in H as (eff & σa & H0 & H). inversion H0; subst; clear H0.
    apply bind_Ok_inv in H as (d & σb & H0 & H).
    apply get_descriptor_inv in H0 as ->.
    rewrite Heff in H. rewrite (bool_decide_eq_false_2 (None <> None)) in H by auto.
    simpl in H. inversion H; subst.
    unfold key_exists. rewrite Hs.
    apply has_property_find in Hhas as (d' & -> & ->). reflexivity.
Qed.

(** * Key enumeration *)

Lemma chain_ends_find_property fuel os l k :
  chain_ends fuel os l = true -> exists d, find_property fuel os l k = Some d.
Proof.
  revert l. induction fuel as [|fuel IH]; intros l; simpl; [discriminate|].
  destruct (os !! l) as [o|]; [|discriminate].
  destruct (assoc_get k (o_props o)) as [pr|]; [eauto|].
  destruct (o_proto o) as [l'|]; [apply IH | eauto].
Qed.

Lemma pushed_keys_Ok σ t cells :
  chain_ok σ t ->
  pushed_keys t cells σ
    = Ok (assoc_keys
            (List.filter
               (fun kx => negb (is_uninitialized (snd kx)) && absent_from σ t (fst kx))
               cells)) σ.
Proof.
  intros Hchain. induction cells as [|[k x] r IH]; [reflexivity|].
  simpl pushed_keys. destruct (chain_ends_find_property _ _ _ k Hchain) as [d Hd].
  assert (Hin : has_property t k σ = Ok (bool_decide (d <> None)) σ).
  { unfold has_property, lookup_property, bind, gets, of_option. rewrite Hd.
    destruct d; reflexivity. }
  rewrite (bind_Ok _ _ _ _ _ Hin). rewrite (bind_Ok _ _ _ _ _ IH).
  unfold ret. f_equal. simpl List.filter. simpl fst. simpl snd.
  assert (Ha : absent_from σ t k = negb (bool_decide (d <> None))).
  { unfold absent_from. rewrite Hd. destruct d as [pr|].
    - rewrite (bool_decide_eq_true_2 (Some pr <> None)) by discriminate. reflexivity.
    - rewrite (bool_decide_eq_false_2 (None <> None)) by auto. reflexivity. }
  rewrite Ha.
  destruct (negb (is_uninitialized x) && negb (bool_decide (d <> None))); reflexivity.
Qed.

(** Key enumeration registers a dependency on the structural version, changes
    nothing else, and returns the kept raw keys followed by the wrapper-only
    keys, in the iteration order of the map. *)
Lemma ownKeys_enumeration σ t m o md :
  wrapped σ t m -> objs σ !! t = Some o -> metas σ !! m = Some md ->
  chain_ok σ t ->
  state_proxy_handler.ownKeys t σ
    = Ok (kept_raw_keys md o ++ wrapper_only_keys σ t md) (emit (EGet (SVersion m)) σ).
Proof.
  intros Hw Ho Hm Htotal. unfold state_proxy_handler.ownKeys.
  rewrite (bind_Ok _ _ _ _ _ (target_metadata_wrapped _ _ _ Hw)).
  set (σ1 := emit (EGet (SVersion m)) σ).
  assert (E : runtime.get (SVersion m) σ = Ok (VNum (m_v md)) σ1).
  { unfold runtime.get. rewrite (bind_Ok _ _ σ tt σ1) by reflexivity.
    rewrite (bind_Ok _ _ _ _ _ (get_meta_Ok σ1 m md Hm)). reflexivity. }
  rewrite (bind_Ok _ _ _ _ _ E).
  rewrite (bind_Ok _ _ _ _ _ (get_object_Ok σ1 t o Ho)).
  rewrite (bind_Ok _ _ _ _ _ (get_meta_Ok σ1 m md Hm)).
  rewrite (bind_Ok _ _ _ _ _ (pushed_keys_Ok σ1 t (m_s md) Htotal)). reflexivity.
Qed.

(** * Wrapping in a well-formed store *)

Lemma chain_ends_insert fuel os (l : loc) o o' (l0 : loc) :
  os !! l = Some o -> o_proto o' = o_proto o ->
  chain_ends fuel (<[l := o']> os) l0 = chain_ends fuel os l0.
Proof.
  intros Ho Hproto. revert l0.
  induction fuel as [|fuel IH]; intros l0; cbn [chain_ends]; [reflexivity|].
  destruct (decide (l0 = l)) as [E|Hne].
  - rewrite E. rewrite list_lookup_insert_eq by (eapply lookup_lt_Some; eauto).
    rewrite Ho, Hproto. destruct (o_proto o); auto.
  - rewrite list_lookup_insert_ne by auto.
    destruct (os !! l0) as [o0|]; [|reflexivity].
    destruct (o_proto o0); auto.
Qed.

(** Wrapping a target that carries its marker returns the recorded proxy and
    changes nothing. *)
Lemma proxy_marked σ l o pr parent :
  well_formed σ -> objs σ !! l = Some o -> o_frozen o = false ->
  assoc_get STATE_SYMBOL (o_props o) = Some pr ->
  exists p, proxy (VObj l) parent σ = Ok (VProxy p) σ /\ proxies σ !! p = Some l.
Proof.
  intros (HA & _ & _) Ho Hfrozen Hk.
  destruct (HA l o pr Ho Hk) as (m & md & p & -> & Hm & Ht & Hp & Hpl).
  exists p. split; [|exact Hpl].
  unfold proxy. rewrite (bind_Ok _ _ _ _ _ (get_object_Ok _ _ _ Ho)). rewrite Hfrozen.
  rewrite (bind_Ok _ _ _ _ _ (has_property_own _ _ _ _ _ Ho Hk)).
  match goal with
  | |- bind ?c _ _ = _ => assert (E : c σ = Ok (Some (VProxy p)) σ)
  end.
  { rewrite (bind_Ok _ _ _ _ _ (get_property_own_data _ _ _ _ _ _ _ _ Ho Hk)).
    rewrite <- Hp. apply existing_proxy_owner; auto. }
  rewrite (bind_Ok _ _ _ _ _ E). reflexivity.
Qed.

Lemma proxy_unmarked σ l o parent :
  well_formed σ -> objs σ !! l = Some o -> o_frozen o = false ->
  o_proto o = Some object_prototype \/ o_proto o = Some array_prototype ->
  assoc_get STATE_SYMBOL (o_props o) = None ->
  proxy (VObj l) parent σ = Ok (VProxy (length (proxies σ))) (first_wrap l o σ).
Proof.
  intros (HA & _ & HC) Ho Hfrozen Hproto Hk.
  unfold proxy. rewrite (bind_Ok _ _ _ _ _ (get_object_Ok _ _ _ Ho)). rewrite Hfrozen.
  assert (Hl : (l < length (objs σ))%nat) by (eapply lookup_lt_Some; eauto).
  destruct (chain_ends_find_property _ _ _ STATE_SYMBOL (HC l Hl)) as [d Hd].
  assert (Hin : has_property l STATE_SYMBOL σ = Ok (bool_decide (d <> None)) σ).
  { unfold has_property, lookup_property, bind, gets, of_option. rewrite Hd.
    destruct d; reflexivity. }
  rewrite (bind_Ok _ _ _ _ _ Hin).
  match goal with
  | |- bind ?c _ _ = _ => assert (E : c σ = Ok None σ)
  end.
  { destruct d as [pr|].
    - rewrite (bool_decide_eq_true_2 (Some pr <> None)) by discriminate.
      destruct (find_property_source _ _ _ _ _ Hd) as (l' & o' & Ho' & Hk').
      destruct (HA l' o' pr Ho' Hk') as (m & md & p & -> & Hm & Ht & Hp & _).
      assert (Hne : l' <> l).
      { intros E. rewrite E in Ho'. rewrite Ho in Ho'.
        inversion Ho'; subst o'.
        rewrite Hk in Hk'. discriminate. }
      assert (Hg : get_property l STATE_SYMBOL σ = Ok (VMeta m) σ).
      { unfold get_property, lookup_property, bind, gets, of_option. rewrite Hd.
        reflexivity. }
      rewrite (bind_Ok _ _ _ _ _ Hg). simpl.
      rewrite (bind_Ok _ _ _ _ _ (get_meta_Ok _ _ _ Hm)). unfold ret.
      rewrite (bool_decide_eq_false_2 (m_t md = VObj l)) by (rewrite Ht; congruence).
      rewrite (bool_decide_eq_false_2 (m_p md = VObj l)) by (rewrite Hp; discriminate).
      reflexivity.
    - rewrite (bool_decide_eq_false_2 (None <> None)) by auto. reflexivity. }
  rewrite (bind_Ok _ _ _ _ _ E). clear E.
  assert (Hplain : bool_decide (o_proto o = Some object_prototype)
                   || bool_decide (o_proto o = Some array_prototype) = true).
  { destruct Hproto as [H | H].
    - rewrite (bool_decide_eq_true_2 _ H). reflexivity.
    - rewrite (bool_decide_eq_true_2 _ H). apply orb_true_r. }
  rewrite Hplain.
  unfold new_Proxy.
  rewrite (bind_Ok _ _ σ (length (proxies σ)) (set_proxies (fun ps => ps ++ [l]) σ))
    by reflexivity.
  set (σa := set_proxies (fun ps => ps ++ [l]) σ).
  unfold new_metadata.
  set (md := {| m_s := []; m_v := 0; m_a := o_array o;
                m_p := VProxy (length (proxies σ)); m_t := VObj l |}).
  rewrite (bind_Ok _ _ σa (length (metas σ)) (set_metas (fun ms => ms ++ [md]) σa))
    by reflexivity.
  set (σb := set_metas (fun ms => ms ++ [md]) σa).
  assert (E : define_property l STATE_SYMBOL (VMeta (length (metas σ))) σb
              = Ok tt (first_wrap l o σ)).
  { unfold define_property.
    rewrite (bind_Ok _ _ _ _ _ (get_object_Ok σb l o Ho)). rewrite Hk. reflexivity. }
  rewrite (bind_Ok _ _ _ _ _ E). reflexivity.
Qed.

Lemma first_wrap_well_formed σ (l : loc) o :
  well_formed σ -> objs σ !! l = Some o ->
  assoc_get STATE_SYMBOL (o_props o) = None ->
  well_formed (first_wrap l o σ).
Proof.
  intros (HA & HB & HC) Ho Hk.
  assert (Hl : (l < length (objs σ))%nat) by (eapply lookup_lt_Some; eauto).
  split; [|split].
  - intros l0 o0 pr Ho0 Hk0. unfold first_wrap in Ho0. simpl in Ho0.
    destruct (decide (l0 = l)) as [E|Hne].
    + subst l0. rewrite list_lookup_insert_eq in Ho0 by auto.
      inversion Ho0; subst o0; clear Ho0. simpl in Hk0.
      rewrite (assoc_get_app_None _ _ _ Hk) in Hk0. simpl in Hk0.
      inversion Hk0; subst pr.
      exists (length (metas σ)),
        {| m_s := []; m_v := 0; m_a := o_array o;
           m_p := VProxy (length (proxies σ)); m_t := VObj l |},
        (length (proxies σ)).
      split; [reflexivity|]. unfold first_wrap. simpl.
      split; [apply list_lookup_middle; reflexivity|].
      split; [reflexivity|]. split; [reflexivity|].
      apply list_lookup_middle. reflexivity.
    + rewrite list_lookup_insert_ne in Ho0 by auto.
      destruct (HA l0 o0 pr Ho0 Hk0) as (m & md & p & -> & Hm & Ht & Hp & Hpl).
      exists m, md, p. split; [reflexivity|]. unfold first_wrap. simpl.
      split; [apply lookup_app_l_Some; exact Hm|].
      split; [exact Ht|]. split; [exact Hp|]. apply lookup_app_l_Some. exact Hpl.
  - intros p l0 Hpl. unfold first_wrap in Hpl. simpl in Hpl.
    destruct (decide (p = length (proxies σ))) as [E|Hne].
    + subst p. rewrite list_lookup_middle in Hpl by reflexivity.
      inversion Hpl; subst l0; clear Hpl.
      exists (with_props
                (fun ps => ps ++ [(STATE_SYMBOL,
                                   PData (VMeta (length (metas σ))) true false false)]) o),
        (length (metas σ)),
        {| m_s := []; m_v := 0; m_a := o_array o;
           m_p := VProxy (length (proxies σ)); m_t := VObj l |}.
      unfold first_wrap. simpl.
      split; [apply list_lookup_insert_eq; auto|].
      split.
      { rewrite (assoc_get_app_None _ _ _ Hk). reflexivity. }
      split; [apply list_lookup_middle; reflexivity | reflexivity].
    + assert (Hold : proxies σ !! p = Some l0).
      { destruct (lookup_app_Some (proxies σ) [l] p l0) as [Hcases _].
        destruct (Hcases Hpl) as [H | [Hge H]]; [exact H|].
        destruct (p - length (proxies σ))%nat eqn:Hd; [lia|]. discriminate. }
      destruct (HB p l0 Hold) as (o0 & m & md & Ho0 & Hk0 & Hm & Hp).
      assert (Hne0 : l0 <> l).
      { intros E. subst l0. rewrite Ho in Ho0. inversion Ho0; subst o0.
        rewrite Hk in Hk0. discriminate. }
      exists o0, m, md. unfold first_wrap. simpl.
      split; [rewrite list_lookup_insert_ne by auto; exact Ho0|].
      split; [exact Hk0|]. split; [apply lookup_app_l_Some; exact Hm | exact Hp].
  - intros l0 Hl0. unfold chain_ok, first_wrap in *.
    cbn [objs set_objs set_metas set_proxies] in *.
    rewrite length_insert in *.
    rewrite (chain_ends_insert _ _ _ o _ _ Ho) by reflexivity.
    apply HC. exact Hl0.
Qed.

Lemma get_proxied_value_wrapper σ p (l : loc) :
  well_formed σ -> proxies σ !! p = Some l ->
  get_proxied_value (VProxy p) σ = Ok (VProxy p) σ
  /\ get_proxied_value (VObj l) σ = Ok (VProxy p) σ.
Proof.
  intros (_ & HB & _) Hpl.
  destruct (HB p l Hpl) as (o & m & md & Ho & Hk & Hm & Hp).
  assert (Hg : get_property l STATE_SYMBOL σ = Ok (VMeta m) σ)
    by (eapply get_property_own_data; eauto).
  split.
  - unfold get_proxied_value.
    assert (Ht : proxy_target p σ = Ok l σ).
    { unfold proxy_target, bind, gets, of_option. rewrite Hpl. reflexivity. }
    rewrite (bind_Ok _ _ _ _ _ Ht). rewrite (bind_Ok _ _ _ _ _ Hg).
    rewrite (bind_Ok _ _ _ _ _ (get_meta_Ok _ _ _ Hm)). rewrite Hp. reflexivity.
  - unfold get_proxied_value.
    rewrite (bind_Ok _ _ _ _ _ (has_property_own _ _ _ _ _ Ho Hk)).
    rewrite (bind_Ok _ _ _ _ _ Hg).
    rewrite (bind_Ok _ _ _ _ _ (get_meta_Ok _ _ _ Hm)). rewrite Hp. reflexivity.
Qed.

Lemma proxy_of_wrapper σ p (l : loc) o parent :
  well_formed σ -> proxies σ !! p = Some l ->
  objs σ !! l = Some o -> o_frozen o = false ->
  proxy (VProxy p) parent σ = Ok (VProxy p) σ
  /\ proxy (VObj l) parent σ = Ok (VProxy p) σ.
Proof.
  intros Hwf Hpl Ho Hfrozen. pose proof Hwf as (HA & HB & _).
  destruct (HB p l Hpl) as (o' & m & md & Ho' & Hk & Hm & Hp).
  assert (o' = o) by congruence. subst o'.
  assert (Hg : get_property l STATE_SYMBOL σ = Ok (VMeta m) σ)
    by (eapply get_property_own_data; eauto).
  split.
  - unfold proxy.
    assert (Ht : proxy_target p σ = Ok l σ).
    { unfold proxy_target, bind, gets, of_option. rewrite Hpl. reflexivity. }
    rewrite (bind_Ok _ _ _ _ _ Ht).
    rewrite (bind_Ok _ _ _ _ _ (get_object_Ok _ _ _ Ho)). rewrite Hfrozen.
    rewrite (bind_Ok _ _ _ _ _ Hg).
    assert (E : existing_proxy (VMeta m) (VProxy p) σ = Ok (Some (VProxy p)) σ).
    { simpl. rewrite (bind_Ok _ _ _ _ _ (get_meta_Ok _ _ _ Hm)). unfold ret.
      rewrite (bool_decide_eq_true_2 (m_p md = VProxy p)) by exact Hp.
      rewrite orb_true_r, Hp. reflexivity. }
    rewrite (bind_Ok _ _ _ _ _ E). reflexivity.
  - destruct (proxy_marked σ l o _ parent Hwf Ho Hfrozen Hk) as (p' & Hproxy & Hpl').
    destruct (HA l o _ Ho Hk) as (m' & md' & p'' & Hpr & Hm' & _ & Hp' & _).
    inversion Hpr; subst m'. assert (md' = md) by congruence. subst md'.
    destruct (HB p' l Hpl') as (o2 & m2 & md2 & Ho2 & Hk2 & Hm2 & Hp2).
    assert (o2 = o) by congruence. subst o2.
    rewrite Hk in Hk2. inversion Hk2; subst m2.
    assert (md2 = md) by congruence. subst md2.
    assert (p' = p) by congruence. subst p'. exact Hproxy.
Qed.

(** Wrapping a plain object of a well-formed store. *)
Lemma wrap_plain σ (l : loc) parent :
  well_formed σ -> plain σ l ->
  exists p σ1,
    proxy (VObj l) parent σ = Ok (VProxy p) σ1
    /\ well_formed σ1
    /\ proxies σ1 !! p = Some l
    /\ (forall l0, plain σ l0 -> plain σ1 l0)
    /\ (forall p0 l0, proxies σ !! p0 = Some l0 -> proxies σ1 !! p0 = Some l0).
Proof.
  intros Hwf (o & Ho & Hfrozen & Hproto).
  destruct (assoc_get STATE_SYMBOL (o_props o)) as [pr|] eqn:Hk.
  - destruct (proxy_marked σ l o pr parent Hwf Ho Hfrozen Hk) as (p & Hproxy & Hpl).
    exists p, σ. auto.
  - exists (length (proxies σ)), (first_wrap l o σ).
    split; [apply proxy_unmarked; auto|].
    split; [apply first_wrap_well_formed; auto|].
    split; [unfold first_wrap; simpl; apply list_lookup_middle; reflexivity|].
    split.
    + intros l0 (o0 & Ho0 & Hf0 & Hp0). unfold plain, first_wrap. simpl.
      destruct (decide (l0 = l)) as [E|Hne].
      * subst l0. assert (o0 = o) by congruence. subst o0.
        eexists. split; [apply list_lookup_insert_eq; eapply lookup_lt_Some; eauto|].
        simpl. auto.
      * exists o0. rewrite list_lookup_insert_ne by auto. auto.
    + intros p0 l0 Hp0. unfold first_wrap. simpl. apply lookup_app_l_Some. exact Hp0.
Qed.

Lemma is_same_Ok σ a b pa pb :
  get_proxied_value a σ = Ok pa σ -> get_proxied_value b σ = Ok pb σ ->
  is_same a b σ = Ok (bool_decide (pa = pb)) σ.
Proof.
  intros Ha Hb. unfold is_same.
  rewrite (bind_Ok _ _ _ _ _ Ha). rewrite (bind_Ok _ _ _ _ _ Hb). reflexivity.
Qed.

Lemma plain_object σ (l : loc) :
  plain σ l -> exists o, objs σ !! l = Some o /\ o_frozen o = false.
Proof. intros (o & Ho & Hf & _). eauto. Qed.

(** A store without any wrapper is well formed when its prototype chains
    end. *)
Lemma store_well_formed os :
  Forall (fun o => assoc_get STATE_SYMBOL (o_props o) = None)
         (Object_prototype :: Array_prototype :: os) ->
  (forall l, (l < length (objs (store os)))%nat -> chain_ok (store os) l) ->
  well_formed (store os).
Proof.
  intros Hnone Hchain. split; [|split].
  - intros l o pr Ho Hk. rewrite Forall_forall in Hnone.
    assert (Hin : o ∈ Object_prototype :: Array_prototype :: os)
      by (eapply list_elem_of_lookup_2; exact Ho).
    rewrite (Hnone o Hin) in Hk. discriminate.
  - intros p l Hp. simpl in Hp. rewrite lookup_nil in Hp. discriminate.
  - exact Hchain.
Qed.

Lemma store_one_object_well_formed : well_formed (store [object_literal []]).
Proof.
  apply store_well_formed.
  - repeat constructor.
  - intros l Hl. simpl in Hl.
    destruct l as [|[|[|l]]]; try reflexivity. lia.
Qed.


Lemma store_two_objects_well_formed :
  well_formed (store [object_literal []; array_literal [VNum 1]]).
Proof.
  apply store_well_formed.
  - repeat constructor.
  - intros l Hl. simpl in Hl.
    destruct l as [|[|[|[|l]]]]; try reflexivity. lia.
Qed.

(** ** Well-formedness is an invariant *)

Lemma well_formed_emit e σ : well_formed σ -> well_formed (emit e σ).
Proof. intros Hwf. exact Hwf. Qed.

(** Changing the map or the version of a record keeps the store well formed. *)
Lemma well_formed_update σ m md md' :
  metas σ !! m = Some md -> m_t md' = m_t md -> m_p md' = m_p md ->
  well_formed σ -> well_formed (set_metas (fun ms => <[m := md']> ms) σ).
Proof.
  intros Hm Ht Hp (HA & HB & HC).
  assert (Hlt : (m < length (metas σ))%nat) by (eapply lookup_lt_Some; eauto).
  split; [|split].
  - intros l o pr Ho Hk.
    destruct (HA l o pr Ho Hk) as (m0 & md0 & p & -> & Hm0 & Ht0 & Hp0 & Hpl).
    destruct (decide (m0 = m)) as [->|Hne].
    + assert (md0 = md) by congruence. subst md0.
      exists m, md', p. simpl. rewrite list_lookup_insert_eq by auto.
      split; [reflexivity|]. split; [reflexivity|].
      split; [congruence|]. split; [congruence | exact Hpl].
    + exists m0, md0, p. simpl. rewrite list_lookup_insert_ne by auto. auto.
  - intros p l Hpl.
    destruct (HB p l Hpl) as (o & m0 & md0 & Ho & Hk & Hm0 & Hp0).
    destruct (decide (m0 = m)) as [->|Hne].
    + assert (md0 = md) by congruence. subst md0.
      exists o, m, md'. simpl. rewrite list_lookup_insert_eq by auto.
      split; [exact Ho|]. split; [exact Hk|]. split; [reflexivity | congruence].
    + exists o, m0, md0. simpl. rewrite list_lookup_insert_ne by auto. auto.
  - exact HC.
Qed.

Lemma well_formed_store σ m md k x :
  metas σ !! m = Some md -> well_formed σ -> well_formed (store_source m md k x σ).
Proof. intros Hm. apply (well_formed_update σ m md); auto. Qed.

Lemma well_formed_bump σ m md :
  metas σ !! m = Some md -> well_formed σ -> well_formed (bump m md σ).
Proof.
  intros Hm Hwf. unfold bump.
  apply (well_formed_update (emit _ σ) m md); auto.
Qed.

Lemma well_formed_proxy x parent σ y σ' :
  proxy x parent σ = Ok y σ' -> well_formed σ -> well_formed σ'.
Proof.
  intros Hp Hwf. destruct (proxy_inv _ _ _ _ _ Hp)
    as [-> | (l & o & -> & Ho & Hfrozen & Hex & Hdef)]; [exact Hwf|].
  assert (Hk : assoc_get STATE_SYMBOL (o_props o) = None).
  { destruct (assoc_get STATE_SYMBOL (o_props o)) as [pr|] eqn:Hk; [|reflexivity].
    destruct Hwf as (HA & _ & _).
    destruct (HA l o pr Ho Hk) as (m & md & p & -> & Hm & Ht & _).
    rewrite (bind_Ok _ _ _ _ _ (has_property_own _ _ _ _ _ Ho Hk)) in Hex.
    rewrite (bind_Ok _ _ _ _ _ (get_property_own_data _ _ _ _ _ _ _ _ Ho Hk)) in Hex.
    rewrite (existing_proxy_owner _ _ _ _ Hm Ht) in Hex. discriminate. }
  assert (E : σ' = first_wrap l o σ).
  { unfold define_property in Hdef.
    rewrite (bind_Ok _ _ _ _ _ (get_object_Ok (set_metas _ (set_proxies _ σ)) l o Ho))
      in Hdef.
    rewrite Hk in Hdef. inversion Hdef. reflexivity. }
  rewrite E. apply first_wrap_well_formed; auto.
Qed.

#[global] Instance well_formed_respected : Respected keeps_well_formed.
Proof.
  split.
  - intros σ Hwf. exact Hwf.
  - intros σ1 σ2 σ3 H12 H23 Hwf. auto.
  - intros e σ _. exact (well_formed_emit e σ).
  - intros σ m md k x Hm. exact (well_formed_store σ m md k x Hm).
  - intros x parent σ y σ'. exact (well_formed_proxy x parent σ y σ').
Qed.

Lemma well_formed_update_version m : preserves keeps_well_formed (update_version m).
Proof.
  intros σ u σ' H. apply update_version_inv in H as (md & Hm & ->).
  exact (well_formed_bump σ m md Hm).
Qed.

(** The wrapper factory and every handler keep a well-formed store well
    formed: the stores that the properties of wrapping are stated on are the
    ones that the program reaches from a store without wrappers. *)
Theorem well_formed_invariant :
  (forall x parent, preserves keeps_well_formed (proxy x parent))
  /\ (forall t k d, preserves keeps_well_formed (state_proxy_handler.defineProperty t k d))
  /\ (forall t k, preserves keeps_well_formed (state_proxy_handler.deleteProperty t k))
  /\ (forall t k rcv, preserves keeps_well_formed (state_proxy_handler.get t k rcv))
  /\ (forall t k,
        preserves keeps_well_formed (state_proxy_handler.getOwnPropertyDescriptor t k))
  /\ (forall t k, preserves keeps_well_formed (state_proxy_handler.has t k))
  /\ (forall t k v rcv, preserves keeps_well_formed (state_proxy_handler.set t k v rcv))
  /\ (forall t, preserves keeps_well_formed (state_proxy_handler.ownKeys t)).
Proof.
  split; [intros; apply preserves_proxy|].
  split; [intros; apply preserves_defineProperty|].
  split; [intros; apply preserves_deleteProperty, well_formed_update_version|].
  split; [intros; apply preserves_get_trap|].
  split; [intros; apply preserves_getOwnPropertyDescriptor|].
  split; [intros; apply preserves_has|].
  split; [intros; apply preserves_set, well_formed_update_version|].
  intros; apply preserves_ownKeys.
Qed.

(** * The properties of the specification *)

Ltac show_wrapped :=
  unfold wrapped; do 5 eexists;
  split; [reflexivity | split; [reflexivity | split; reflexivity]].

(** ** Length of a freshly wrapped array (C1) *)

(** C1, at the failing inputs.  On a fresh [w = proxy([1, 2, 3])], after
    [w.length = 1] the reads of [w[1]] and [w[2]] still yield 2 and 3 (the
    length reads 1); and on a fresh wrapper, after [w[5] = 9] the read of
    [w.length] yields 3, not 6.  No cell exists for the indices, nor for
    [length], when the write happens, and the raw array is never updated. *)
Theorem C1_fresh_array_length_out_of_sync :
  result ((state_proxy_handler.set 2%nat (KStr "length") (VNum 1) (VProxy 0%nat) ;;
           x1 <- state_proxy_handler.get 2%nat (KStr "1") (VProxy 0%nat) ;;
           x2 <- state_proxy_handler.get 2%nat (KStr "2") (VProxy 0%nat) ;;
           len <- state_proxy_handler.get 2%nat (KStr "length") (VProxy 0%nat) ;;
           ret (x1, x2, len)) wrapped_array_123)
    = Some (VNum 2, VNum 3, VNum 1)
  /\ result ((state_proxy_handler.set 2%nat (KStr "5") (VNum 9) (VProxy 0%nat) ;;
              state_proxy_handler.get 2%nat (KStr "length") (VProxy 0%nat))
               wrapped_array_123)
     = Some (VNum 3).
Proof. split; vm_compute; reflexivity. Qed.

(** The same two scenarios once the indices and the length have been read,
    so that their cells exist: the truncated indices read [undefined], the
    length reads 1, and after [w[5] = 9] it reads 6. *)
Lemma tracked_array_length_in_sync :
  result ((state_proxy_handler.get 2%nat (KStr "1") (VProxy 0%nat) ;;
           state_proxy_handler.get 2%nat (KStr "2") (VProxy 0%nat) ;;
           state_proxy_handler.get 2%nat (KStr "length") (VProxy 0%nat) ;;
           state_proxy_handler.set 2%nat (KStr "length") (VNum 1) (VProxy 0%nat) ;;
           x1 <- state_proxy_handler.get 2%nat (KStr "1") (VProxy 0%nat) ;;
           x2 <- state_proxy_handler.get 2%nat (KStr "2") (VProxy 0%nat) ;;
           len <- state_proxy_handler.get 2%nat (KStr "length") (VProxy 0%nat) ;;
           state_proxy_handler.set 2%nat (KStr "5") (VNum 9) (VProxy 0%nat) ;;
           len' <- state_proxy_handler.get 2%nat (KStr "length") (VProxy 0%nat) ;;
           ret (x1, x2, len, len')) wrapped_array_123)
    = Some (VUndef, VUndef, VNum 1, VNum 6).
Proof. vm_compute. reflexivity. Qed.

(** ** Writes and the raw target (C2) *)




(** ** The structural version (C3) *)




(** ** defineProperty and write (C4) *)




(** ** Wrapping twice (C5) *)




(** ** Unsupported descriptors (C6) *)



(** ** Key enumeration (C7) *)

(** C7, at the failing input.  After [w = proxy({})] and
    [Object.defineProperty(w, "toString", { value: 1, ... })] the key
    [toString] has a live cell and is not in the list of the own keys of the
    raw target; the descriptor read of the wrapper reports it as an own
    property; and yet key enumeration returns the marker alone: the test
    [key in target] also finds the key on the prototype of the raw target. *)
Theorem C7_live_cell_of_inherited_key_not_enumerated :
  cell defined_toString 0%nat (KStr "toString") = Some (VNum 1)
  /\ result (get_descriptor 2%nat (KStr "toString") defined_toString) = Some None
  /\ result (has_property 2%nat (KStr "toString") defined_toString) = Some true
  /\ result (state_proxy_handler.getOwnPropertyDescriptor 2%nat (KStr "toString")
               defined_toString)
     = Some (Some (PData (VNum 1) true true true))
  /\ result (state_proxy_handler.ownKeys 2%nat defined_toString) = Some [STATE_SYMBOL].
Proof. repeat split; vm_compute; reflexivity. Qed.

(** What key enumeration does return: it first reads the structural version
    of the record, registering a dependency, and changes nothing else; it
    returns the own keys of the raw target, in raw order, without the keys
    whose cell holds the tombstone, followed by the keys whose cell is live
    and that are not in the raw target, neither as an own key nor through
    its prototype chain, in the iteration order of the cell map.  A key with
    a live cell that the raw target and its prototypes lack is enumerated,
    although it is no own key of the raw target. *)
Theorem key_enumeration
    (σ : state) (t : loc) (m : mloc) (o : object) (md : metadata) :
  wrapped σ t m -> objs σ !! t = Some o -> metas σ !! m = Some md ->
  chain_ok σ t ->
  state_proxy_handler.ownKeys t σ
    = Ok (kept_raw_keys md o ++ wrapper_only_keys σ t md) (emit (EGet (SVersion m)) σ)
  /\ forall k x,
       cell σ m k = Some x -> x <> UNINITIALIZED -> absent_from σ t k = true ->
       In k (kept_raw_keys md o ++ wrapper_only_keys σ t md)
       /\ ~ In k (assoc_keys (o_props o)).
Proof.
  intros Hw Ho Hm Hchain. split; [apply ownKeys_enumeration; auto|].
  intros k x Hc Hx Habs.
  assert (Hs : assoc_get k (m_s md) = Some x).
  { unfold cell in Hc. rewrite Hm in Hc. exact Hc. }
  split.
  - apply in_or_app. right. unfold wrapper_only_keys.
    apply (in_assoc_keys_filter _ k x); [exact Hs|].
    simpl. rewrite (is_uninitialized_false _ Hx), Habs. reflexivity.
  - intros Hin. unfold absent_from in Habs. simpl in Habs. rewrite Ho in Habs.
    assert (Hown : exists pr, assoc_get k (o_props o) = Some pr).
    { clear - Hin. unfold assoc_keys in Hin.
      induction (o_props o) as [|[k' pr] r IH]; simpl in *; [contradiction|].
      destruct (decide (k = k')); [eauto|].
      destruct Hin as [Hk | Hin]; [congruence | auto]. }
    destruct Hown as [pr Hpr]. rewrite Hpr in Habs. discriminate.
Qed.

(** [w = proxy({}); w.a = 1] enumerates the marker, then [a]. *)
Example key_enumeration_of_a_written_key :
  result (state_proxy_handler.ownKeys 2%nat after_write_a) = Some [STATE_SYMBOL; KStr "a"].
Proof. vm_compute. reflexivity. Qed.

(** ** Write, read, delete, has (C8) *)

(** C8: on a wrapped target that is not an array, for a key that is neither
    tracked nor present and a primitive value: the write returns true, the
    read that follows yields the value, the delete that follows returns
    true, and after it the has-check is false and the read yields
    [undefined].  In every state the delete returns true exactly when the
    has-check of the key does. *)
Theorem C8_write_read_delete_has
    (t : loc) (m : mloc) (k : key) (rcv : val) :
  k <> STATE_SYMBOL ->
  (forall σ md v,
      wrapped σ t m -> metas σ !! m = Some md -> m_a md = false ->
      cell σ m k = None -> has_property t k σ = Ok false σ ->
      is_object v = false -> v <> UNINITIALIZED ->
      exists σ1 σ2 σ3 σ4 σ5,
        state_proxy_handler.set t k v rcv σ = Ok true σ1
        /\ state_proxy_handler.get t k rcv σ1 = Ok v σ2
        /\ state_proxy_handler.deleteProperty t k σ2 = Ok true σ3
        /\ state_proxy_handler.has t k σ3 = Ok false σ4
        /\ state_proxy_handler.get t k rcv σ4 = Ok VUndef σ5)
  /\ (forall σ h σh b σd,
      wrapped σ t m ->
      is_Some (cell σ m k) \/ current_effect σ = false ->
      state_proxy_handler.has t k σ = Ok h σh ->
      state_proxy_handler.deleteProperty t k σ = Ok b σd ->
      b = h).
Proof.
  intros Hk. split.
  - intros σ md v Hw Hm Ha Hc Hin Hv Hv'.
    pose proof (set_new_key σ t m md k v rcv Hw Hm Ha Hc Hin Hv) as Hset.
    set (σ1 := written m md k v σ) in *.
    pose proof (set_wrapped _ _ _ _ _ _ _ _ Hw Hset) as Hw1.
    pose proof (written_cell σ m md k v Hm) as Hc1. fold σ1 in Hc1.
    assert (Hin1 : has_property t k σ1 = Ok false σ1)
      by (apply (has_property_same_objs σ); [reflexivity | exact Hin]).
    pose proof (get_tracked_key σ1 t m k v rcv false Hw1 Hk Hc1 Hin1) as Hget.
    rewrite (is_uninitialized_false _ Hv') in Hget.
    set (σ2 := emit (EGet (SKey m k)) σ1) in *.
    pose proof (preserves_get_trap (R := frame t m) t k rcv _ _ _ Hget Hw1) as (Hw2 & _).
    destruct (wrapped_meta _ _ _ Hw2) as [md2 Hm2].
    assert (Hc2 : cell σ2 m k = Some v) by exact Hc1.
    pose proof (deleteProperty_live_key σ2 t m md2 k v Hw2 Hm2 Hc2 Hv') as Hdel.
    set (σ3 := deleted m md2 k σ2) in *.
    pose proof (deleteProperty_wrapped _ _ _ _ _ _ Hw2 Hdel) as Hw3.
    pose proof (deleted_cell σ2 m md2 k Hm2) as Hc3. fold σ3 in Hc3.
    assert (Hin3 : has_property t k σ3 = Ok false σ3)
      by (apply (has_property_same_objs σ); [reflexivity | exact Hin]).
    pose proof (has_tracked_key σ3 t m k _ false Hw3 Hk Hc3 (or_intror Hin3)) as Hhas.
    set (σ4 := emit (EGet (SKey m k)) σ3) in *.
    pose proof (preserves_has (R := frame t m) t k _ _ _ Hhas Hw3) as (Hw4 & _).
    assert (Hc4 : cell σ4 m k = Some UNINITIALIZED) by exact Hc3.
    assert (Hin4 : has_property t k σ4 = Ok false σ4)
      by (apply (has_property_same_objs σ); [reflexivity | exact Hin]).
    pose proof (get_tracked_key σ4 t m k _ rcv false Hw4 Hk Hc4 Hin4) as Hget4.
    exists σ1, σ2, σ3, σ4, (emit (EGet (SKey m k)) σ4).
    split; [exact Hset|]. split; [exact Hget|]. split; [exact Hdel|].
    split; [exact Hhas | exact Hget4].
  - intros σ h σh b σd Hw Hcase Hhas Hdel.
    pose proof (has_reports_existence σ t m k h σh Hw Hk Hcase Hhas) as E1.
    destruct (deleteProperty_inv t m σ k b σd Hw Hdel) as (σ1 & md1 & E2 & _).
    congruence.
Qed.

(** [w = proxy({}); w.a = 1; w.a; delete w.a; "a" in w; w.a] *)
Lemma C8_write_read_delete_has_witness :
  exists σ1 σ2 σ3 σ4 σ5,
    state_proxy_handler.set 2%nat (KStr "a") (VNum 1) (VProxy 0%nat) wrapped_empty_object
      = Ok true σ1
    /\ state_proxy_handler.get 2%nat (KStr "a") (VProxy 0%nat) σ1 = Ok (VNum 1) σ2
    /\ state_proxy_handler.deleteProperty 2%nat (KStr "a") σ2 = Ok true σ3
    /\ state_proxy_handler.has 2%nat (KStr "a") σ3 = Ok false σ4
    /\ state_proxy_handler.get 2%nat (KStr "a") (VProxy 0%nat) σ4 = Ok VUndef σ5.
Proof.
  assert (Hk : KStr "a" <> STATE_SYMBOL) by discriminate.
  destruct (C8_write_read_delete_has 2%nat 0%nat (KStr "a") (VProxy 0%nat) Hk)
    as [Hround _].
  eapply (Hround wrapped_empty_object _ (VNum 1)).
  - show_wrapped.
  - reflexivity.
  - reflexivity.
  - reflexivity.
  - vm_compute. reflexivity.
  - reflexivity.
  - discriminate.
Defined.

(** ** Identity (C9) *)

(** C9, at the failing input.  With [o1 = {}], [w1 = proxy(o1)] and
    [o2 = Object.create(o1)]: the object [o2] is not plain, so [proxy(o2)] is
    [o2] itself; [get_proxied_value(o2)] finds the marker of [o1] along the
    prototype chain and returns [w1], so [is(proxy(o1), proxy(o2))] is true
    for the two distinct raw objects. *)
Theorem C9_is_follows_an_inherited_marker :
  result ((w1 <- proxy (VObj 2%nat) None ;;
           w2 <- proxy (VObj 3%nat) None ;;
           o2 <- get_proxied_value (VObj 3%nat) ;;
           same <- is_same w1 w2 ;;
           ret (w1, w2, o2, same))
            (store [object_literal []; object_create 2%nat]))
    = Some (VProxy 0%nat, VObj 3%nat, VProxy 0%nat, true).
Proof. vm_compute. reflexivity. Qed.

(** On plain objects the property holds: in a well-formed store, for every
    plain object [o], [is(proxy(o), o)] is true, and wrapping [o] twice gives
    wrappers that [is] finds the same (they are the identical proxy); for two
    distinct plain objects, [is(proxy(o1), proxy(o2))] is false. *)
Theorem is_same_on_plain_objects (σ : state) (parent : option mloc) :
  well_formed σ ->
  (forall l,
      plain σ l ->
      exists p σ1,
        proxy (VObj l) parent σ = Ok (VProxy p) σ1
        /\ is_same (VProxy p) (VObj l) σ1 = Ok true σ1
        /\ proxy (VObj l) parent σ1 = Ok (VProxy p) σ1
        /\ is_same (VProxy p) (VProxy p) σ1 = Ok true σ1)
  /\ (forall l1 l2,
      plain σ l1 -> plain σ l2 -> l1 <> l2 ->
      exists p1 σ1 p2 σ2,
        proxy (VObj l1) parent σ = Ok (VProxy p1) σ1
        /\ proxy (VObj l2) parent σ1 = Ok (VProxy p2) σ2
        /\ is_same (VProxy p1) (VProxy p2) σ2 = Ok false σ2).
Proof.
  intros Hwf. split.
  - intros l Hplain.
    destruct (wrap_plain σ l parent Hwf Hplain)
      as (p & σ1 & Hp & Hwf1 & Hpl & Hkeep & _).
    destruct (plain_object _ _ (Hkeep l Hplain)) as (o1 & Ho1 & Hf1).
    destruct (get_proxied_value_wrapper σ1 p l Hwf1 Hpl) as [Hgp Hgo].
    destruct (proxy_of_wrapper σ1 p l o1 parent Hwf1 Hpl Ho1 Hf1) as [_ Hpo].
    exists p, σ1. split; [exact Hp|].
    split.
    { rewrite (is_same_Ok _ _ _ _ _ Hgp Hgo).
      rewrite bool_decide_eq_true_2 by reflexivity. reflexivity. }
    split; [exact Hpo|].
    rewrite (is_same_Ok _ _ _ _ _ Hgp Hgp).
    rewrite bool_decide_eq_true_2 by reflexivity. reflexivity.
  - intros l1 l2 Hplain1 Hplain2 Hne.
    destruct (wrap_plain σ l1 parent Hwf Hplain1)
      as (p1 & σ1 & Hp1 & Hwf1 & Hpl1 & Hkeep1 & _).
    destruct (wrap_plain σ1 l2 parent Hwf1 (Hkeep1 l2 Hplain2))
      as (p2 & σ2 & Hp2 & Hwf2 & Hpl2 & _ & Hprox2).
    exists p1, σ1, p2, σ2. split; [exact Hp1|]. split; [exact Hp2|].
    destruct (get_proxied_value_wrapper σ2 p1 l1 Hwf2 (Hprox2 _ _ Hpl1)) as [Hg1 _].
    destruct (get_proxied_value_wrapper σ2 p2 l2 Hwf2 Hpl2) as [Hg2 _].
    rewrite (is_same_Ok _ _ _ _ _ Hg1 Hg2).
    rewrite bool_decide_eq_false_2; [reflexivity|].
    intros E. inversion E; subst p2.
    pose proof (Hprox2 _ _ Hpl1) as Hpl1'. congruence.
Qed.

(** [o1 = {}] and [o2 = [1]]: the two wrappers differ. *)
Example is_same_on_two_literals :
  result ((w1 <- proxy (VObj 2%nat) None ;;
           w2 <- proxy (VObj 3%nat) None ;;
           same1 <- is_same w1 (VObj 2%nat) ;;
           same <- is_same w1 w2 ;;
           ret (w1, w2, same1, same))
            (store [object_literal []; array_literal [VNum 1]]))
    = Some (VProxy 0%nat, VProxy 1%nat, true, false).
Proof. vm_compute. reflexivity. Qed.

(** ** Reads of a tracked key (C10) *)


(** * Further properties of the code *)

(** ** Property lists and maps *)

Lemma assoc_get_None_not_in {V} k (l : list (key * V)) :
  assoc_get k l = None -> ~ In k (assoc_keys l).
Proof.
  unfold assoc_keys. induction l as [|[k' y] r IH]; simpl; [tauto|].
  destruct (decide (k = k')); [discriminate|].
  intros H [Hk | Hin]; [congruence | exact (IH H Hin)].
Qed.

Lemma in_assoc_keys_get {V} k (l : list (key * V)) :
  In k (assoc_keys l) -> exists x, assoc_get k l = Some x.
Proof.
  unfold assoc_keys. induction l as [|[k' y] r IH]; simpl; [tauto|].
  destruct (decide (k = k')); [eauto|].
  intros [Hk | Hin]; [congruence | auto].
Qed.

Lemma assoc_keys_app {V} (l1 l2 : list (key * V)) :
  assoc_keys (l1 ++ l2) = assoc_keys l1 ++ assoc_keys l2.
Proof. unfold assoc_keys. apply map_app. Qed.

Lemma NoDup_snoc {A} (l : list A) x : ~ In x l -> NoDup l -> NoDup (l ++ [x]).
Proof.
  intros Hx Hl. apply NoDup_app. split; [exact Hl|]. split; [|apply NoDup_singleton].
  intros y Hy Hin. apply list_elem_of_singleton in Hin. subst y.
  apply Hx, list_elem_of_In, Hy.
Qed.

(** [Map.prototype.set] keeps the keys of a map distinct. *)
Lemma NoDup_assoc_set {V} k (x : V) l :
  NoDup (assoc_keys l) -> NoDup (assoc_keys (assoc_set k x l)).
Proof.
  intros Hl. destruct (assoc_get k l) as [y|] eqn:Hk.
  - rewrite (assoc_keys_set_old _ _ _ _ Hk). exact Hl.
  - rewrite (assoc_set_new _ _ _ Hk), assoc_keys_app. simpl.
    apply NoDup_snoc; [apply assoc_get_None_not_in; exact Hk | exact Hl].
Qed.

Lemma user_props_set_marker o pr :
  user_props (with_props (assoc_set STATE_SYMBOL pr) o) = user_props o.
Proof.
  unfold user_props. simpl. induction (o_props o) as [|[k' y] r IH]; simpl.
  - reflexivity.
  - destruct (decide (STATE_SYMBOL = k')) as [<-|Hne]; simpl.
    + reflexivity.
    + rewrite IH. reflexivity.
Qed.

Lemma user_props_add_marker o pr :
  user_props (with_props (fun ps => ps ++ [(STATE_SYMBOL, pr)]) o) = user_props o.
Proof. unfold user_props. simpl. rewrite List.filter_app. simpl. apply app_nil_r. Qed.

Lemma user_props_get o k :
  k <> STATE_SYMBOL -> assoc_get k (user_props o) = assoc_get k (o_props o).
Proof.
  intros Hk. unfold user_props. induction (o_props o) as [|[k' y] r IH]; simpl; auto.
  destruct (decide (k' = STATE_SYMBOL)) as [->|Hne].
  - rewrite bool_decide_eq_true_2 by reflexivity. simpl.
    rewrite decide_False by exact Hk. exact IH.
  - rewrite bool_decide_eq_false_2 by exact Hne. simpl.
    destruct (decide (k = k')); auto.
Qed.

(** The definition of the marker on a raw object: the object keeps
    everything but its marker. *)
Lemma define_marker_inv l x σ u σ' :
  define_property l STATE_SYMBOL x σ = Ok u σ' ->
  exists o o',
    objs σ !! l = Some o
    /\ σ' = set_objs (fun os => <[l := o']> os) σ
    /\ o_proto o' = o_proto o /\ o_frozen o' = o_frozen o /\ o_array o' = o_array o
    /\ user_props o' = user_props o
    /\ (NoDup (assoc_keys (o_props o)) -> NoDup (assoc_keys (o_props o'))).
Proof.
  unfold define_property. intros H.
  apply bind_Ok_inv in H as (o & σ1 & H1 & H2).
  apply get_object_inv in H1 as [Ho ->]. exists o.
  assert (Hset : forall pr,
    let o' := with_props (assoc_set STATE_SYMBOL pr) o in
    o_proto o' = o_proto o /\ o_frozen o' = o_frozen o /\ o_array o' = o_array o
    /\ user_props o' = user_props o
    /\ (NoDup (assoc_keys (o_props o)) -> NoDup (assoc_keys (o_props o')))).
  { intros pr. simpl. repeat split. - apply user_props_set_marker.
    - apply NoDup_assoc_set. }
  destruct (assoc_get STATE_SYMBOL (o_props o)) as [[? w e c|? ? ? c]|] eqn:Hk.
  - destruct (c || (w && negb e)); inversion H2; subst; clear H2.
    eexists. split; [exact Ho|]. split; [reflexivity|]. apply Hset.
  - destruct c; inversion H2; subst; clear H2.
    eexists. split; [exact Ho|]. split; [reflexivity|]. apply Hset.
  - inversion H2; subst; clear H2.
    eexists. split; [exact Ho|]. split; [reflexivity|]. simpl.
    repeat split.
    + apply user_props_add_marker.
    + intros Hnd. rewrite assoc_keys_app. simpl.
      apply NoDup_snoc; [apply assoc_get_None_not_in; exact Hk | exact Hnd].
Qed.

(** ** The raw objects are never written *)

Lemma raw_objects_kept_same σ σ' : objs σ' = objs σ -> raw_objects_kept σ σ'.
Proof.
  intros E. split; [rewrite E; reflexivity|].
  intros l o Ho. exists o. rewrite E. auto.
Qed.

Lemma raw_objects_kept_trans σ1 σ2 σ3 :
  raw_objects_kept σ1 σ2 -> raw_objects_kept σ2 σ3 -> raw_objects_kept σ1 σ3.
Proof.
  intros [L12 H12] [L23 H23]. split; [congruence|].
  intros l o Ho. destruct (H12 l o Ho) as (o2 & Ho2 & Hp & Hf & Ha & Hu).
  destruct (H23 l o2 Ho2) as (o3 & Ho3 & Hp3 & Hf3 & Ha3 & Hu3).
  exists o3. repeat split; congruence.
Qed.

Lemma raw_objects_kept_proxy x parent σ y σ' :
  proxy x parent σ = Ok y σ' -> raw_objects_kept σ σ'.
Proof.
  intros Hp. destruct (proxy_inv _ _ _ _ _ Hp)
    as [-> | (l & o & -> & Ho & Hfrozen & Hex & Hdef)];
    [apply raw_objects_kept_same; reflexivity|].
  apply define_marker_inv in Hdef
    as (o0 & o' & Ho0 & -> & Hproto & Hfr & Harr & Hu & _).
  simpl in Ho0. assert (o0 = o) by congruence. subst o0.
  split; simpl.
  - apply length_insert.
  - intros l0 o1 Ho1. destruct (decide (l0 = l)) as [->|Hne].
    + assert (o1 = o) by congruence. subst o1. exists o'.
      rewrite list_lookup_insert_eq by (eapply lookup_lt_Some; eauto). auto.
    + exists o1. rewrite list_lookup_insert_ne by auto. auto.
Qed.

#[global] Instance raw_objects_kept_respected : Respected raw_objects_kept.
Proof.
  split.
  - intros σ. apply raw_objects_kept_same. reflexivity.
  - apply raw_objects_kept_trans.
  - intros e σ _. apply raw_objects_kept_same. reflexivity.
  - intros σ m md k x _. apply raw_objects_kept_same. reflexivity.
  - apply raw_objects_kept_proxy.
Qed.

Lemma raw_objects_kept_update_version m : preserves raw_objects_kept (update_version m).
Proof.
  intros σ u σ' H. apply update_version_inv in H as (md & _ & ->).
  apply raw_objects_kept_same. reflexivity.
Qed.

Lemma returns_respected (R : state -> state -> Prop) `{!Respected R} c σ σ' :
  (forall m, preserves R (update_version m)) -> returns c σ σ' -> R σ σ'.
Proof.
  intros Hbump. destruct c; simpl; intros [r H].
  - exact (preserves_proxy _ _ _ _ _ H).
  - exact (preserves_defineProperty _ _ _ _ _ _ H).
  - exact (preserves_deleteProperty _ _ Hbump _ _ _ H).
  - exact (preserves_get_trap _ _ _ _ _ _ H).
  - exact (preserves_getOwnPropertyDescriptor _ _ _ _ _ H).
  - exact (preserves_has _ _ _ _ _ H).
  - exact (preserves_set _ _ _ _ Hbump _ _ _ H).
  - exact (preserves_ownKeys _ _ _ _ H).
Qed.

Lemma reaches_respected (R : state -> state -> Prop) `{!Respected R} σ σ' :
  (forall m, preserves R (update_version m)) -> reaches σ σ' -> R σ σ'.
Proof.
  intros Hbump Hr. induction Hr as [σ | σ1 σ2 σ3 c _ IH Hc].
  - apply respected_refl.
  - eapply respected_trans; [exact IH|]. eapply returns_respected; eauto.
Qed.

Lemma find_property_kept fuel σ σ' l k :
  raw_objects_kept σ σ' -> k <> STATE_SYMBOL ->
  find_property fuel (objs σ') l k = find_property fuel (objs σ) l k.
Proof.
  intros [Hlen Hkept] Hk. revert l. induction fuel as [|fuel IH]; intros l; simpl; auto.
  destruct (objs σ !! l) as [o|] eqn:Ho.
  - destruct (Hkept l o Ho) as (o' & -> & Hp & _ & _ & Hu).
    rewrite <- (user_props_get o' k Hk), Hu, (user_props_get o k Hk), Hp.
    destruct (assoc_get k (o_props o)); auto.
    destruct (o_proto o); auto.
  - apply lookup_ge_None in Ho. rewrite <- Hlen in Ho.
    apply lookup_ge_None in Ho. rewrite Ho. reflexivity.
Qed.

Lemma lookup_property_kept σ σ' l k :
  raw_objects_kept σ σ' -> k <> STATE_SYMBOL ->
  result (lookup_property l k σ') = result (lookup_property l k σ).
Proof.
  intros Hkept Hk. unfold lookup_property, bind, gets, of_option.
  rewrite (find_property_kept _ σ σ' l k Hkept Hk).
  destruct Hkept as [-> _].
  destruct (find_property _ _ _ _); reflexivity.
Qed.

Lemma has_property_kept σ σ' l k b :
  raw_objects_kept σ σ' -> k <> STATE_SYMBOL ->
  has_property l k σ = Ok b σ -> has_property l k σ' = Ok b σ'.
Proof.
  intros Hkept Hk H. apply has_property_find in H as (d & Hf & ->).
  unfold has_property, lookup_property, bind, gets, of_option.
  destruct Hkept as [Hlen Hkept]. rewrite Hlen.
  rewrite (find_property_kept _ σ σ' l k (conj Hlen Hkept) Hk), Hf.
  destruct d; reflexivity.
Qed.

(** ** Distinct keys *)

Lemma unique_keys_same_objs_metas σ σ' :
  objs σ' = objs σ -> metas σ' = metas σ -> unique_keys σ -> unique_keys σ'.
Proof. intros Eo Em [Ho Hm]. split; rewrite ?Eo, ?Em; assumption. Qed.

Lemma unique_keys_update σ m md md' :
  metas σ !! m = Some md ->
  (NoDup (assoc_keys (m_s md)) -> NoDup (assoc_keys (m_s md'))) ->
  unique_keys σ -> unique_keys (set_metas (fun ms => <[m := md']> ms) σ).
Proof.
  intros Hm Hnd [Ho Hms]. split; [exact Ho|]. simpl.
  intros m0 md0 H0. destruct (decide (m0 = m)) as [->|Hne].
  - rewrite list_lookup_insert_eq in H0 by (eapply lookup_lt_Some; eauto).
    inversion H0; subst md0. apply Hnd. eapply Hms; eauto.
  - rewrite list_lookup_insert_ne in H0 by auto. eapply Hms; eauto.
Qed.

Lemma unique_keys_proxy x parent σ y σ' :
  proxy x parent σ = Ok y σ' -> unique_keys σ -> unique_keys σ'.
Proof.
  intros Hp [Ho Hms]. destruct (proxy_inv _ _ _ _ _ Hp)
    as [-> | (l & o & -> & Hol & Hfrozen & Hex & Hdef)]; [split; assumption|].
  apply define_marker_inv in Hdef as (o0 & o' & Ho0 & -> & _ & _ & _ & _ & Hnd).
  simpl in Ho0. assert (o0 = o) by congruence. subst o0.
  split; simpl.
  - intros l0 o1 H1. destruct (decide (l0 = l)) as [->|Hne].
    + rewrite list_lookup_insert_eq in H1 by (eapply lookup_lt_Some; eauto).
      inversion H1; subst o1. apply Hnd. eapply Ho; eauto.
    + rewrite list_lookup_insert_ne in H1 by auto. eapply Ho; eauto.
  - intros m0 md0 H0. apply lookup_app_Some in H0 as [H0 | [_ H0]].
    + eapply Hms; eauto.
    + destruct (m0 - length (metas σ))%nat; simpl in H0; [|discriminate].
      inversion H0; subst md0. simpl. apply NoDup_nil_2.
Qed.

#[global] Instance unique_keys_respected : Respected keeps_unique_keys.
Proof.
  split.
  - intros σ H. exact H.
  - intros σ1 σ2 σ3 H12 H23 H. exact (H23 (H12 H)).
  - intros e σ _ H. exact H.
  - intros σ m md k x Hm Hu. unfold store_source.
    apply (unique_keys_update σ m md); [exact Hm | | exact Hu].
    simpl. apply NoDup_assoc_set.
  - intros x parent σ y σ' Hp. exact (unique_keys_proxy x parent σ y σ' Hp).
Qed.

Lemma unique_keys_update_version m : preserves keeps_unique_keys (update_version m).
Proof.
  intros σ u σ' H. apply update_version_inv in H as (md & Hm & ->).
  intros Hu. unfold bump.
  apply (unique_keys_update (emit _ σ) m md); [exact Hm | auto | exact Hu].
Qed.

Lemma unique_keys_reaches σ σ' : unique_keys σ -> reaches σ σ' -> unique_keys σ'.
Proof.
  intros Hu Hr.
  exact (reaches_respected keeps_unique_keys σ σ' unique_keys_update_version Hr Hu).
Qed.

Lemma in_keys_filter {V} (f : key * V -> bool) k (l : list (key * V)) :
  In k (assoc_keys (List.filter f l)) -> In k (assoc_keys l).
Proof.
  unfold assoc_keys. induction l as [|[k' x'] r IH]; simpl; [tauto|].
  destruct (f (k', x')); simpl; [intros [H | H]; auto | auto].
Qed.

Lemma NoDup_keys_filter {V} (f : key * V -> bool) (l : list (key * V)) :
  NoDup (assoc_keys l) -> NoDup (assoc_keys (List.filter f l)).
Proof.
  induction l as [|[k x] r IH]; simpl; intros H; [apply NoDup_nil_2|].
  apply NoDup_cons in H as [Hk Hr].
  destruct (f (k, x)); simpl; [|apply IH; exact Hr].
  apply NoDup_cons. split; [|apply IH; exact Hr].
  intros Hin. apply Hk. apply list_elem_of_In. apply list_elem_of_In in Hin.
  exact (in_keys_filter f k r Hin).
Qed.

Lemma in_keys_filter_inv {V} (f : key * V -> bool) k (l : list (key * V)) :
  NoDup (assoc_keys l) -> In k (assoc_keys (List.filter f l)) ->
  exists x, assoc_get k l = Some x /\ f (k, x) = true.
Proof.
  induction l as [|[k' x'] r IH]; simpl; intros Hnd Hin; [contradiction|].
  apply NoDup_cons in Hnd as [Hk Hr].
  destruct (decide (k = k')) as [->|Hne].
  - destruct (f (k', x')) eqn:Hf; simpl in Hin; [eauto|].
    exfalso. apply Hk, list_elem_of_In. exact (in_keys_filter f k' r Hin).
  - apply IH; [exact Hr|].
    destruct (f (k', x')); simpl in Hin; [destruct Hin; congruence | exact Hin].
Qed.

Lemma absent_from_own σ (t : loc) o k :
  objs σ !! t = Some o -> absent_from σ t k = true -> assoc_get k (o_props o) = None.
Proof.
  intros Ho H. unfold absent_from in H. simpl in H. rewrite Ho in H.
  destruct (assoc_get k (o_props o)); [discriminate | reflexivity].
Qed.

(** ** The descriptor read *)

(** What the descriptor read returns on a wrapped target, from the own
    descriptor of the raw target and the cell of the key. *)
Lemma getOwnPropertyDescriptor_Ok σ t m o k :
  wrapped σ t m -> objs σ !! t = Some o ->
  state_proxy_handler.getOwnPropertyDescriptor t k σ
  = match assoc_get k (o_props o), cell σ m k with
    | Some (PData _ w e c), Some y => Ok (Some (PData y w e c)) (emit (EGet (SKey m k)) σ)
    | Some d, _ => Ok (Some d) σ
    | None, Some y =>
        Ok (if negb (is_uninitialized y) then Some (PData y true true true) else None) σ
    | None, None => Ok None σ
    end.
Proof.
  intros Hw Ho. destruct (wrapped_meta _ _ _ Hw) as [md Hm].
  unfold state_proxy_handler.getOwnPropertyDescriptor.
  rewrite (bind_Ok _ _ _ _ _ (get_descriptor_Ok _ _ _ k Ho)).
  rewrite (bind_Ok _ _ _ _ _ (target_metadata_wrapped _ _ _ Hw)).
  assert (Hc : cell σ m k = assoc_get k (m_s md)) by (unfold cell; rewrite Hm; reflexivity).
  destruct (assoc_get k (o_props o)) as [[x w e c|g s e c]|].
  - rewrite (bind_Ok _ _ _ _ _ (s_get_Ok _ _ _ k Hm)). rewrite Hc.
    destruct (assoc_get k (m_s md)) as [y|] eqn:Hy; [|reflexivity].
    assert (Hcy : cell σ m k = Some y) by congruence.
    rewrite (bind_Ok _ _ _ _ _ (get_key_Ok _ _ _ _ Hcy)). reflexivity.
  - destruct (cell σ m k); reflexivity.
  - rewrite (bind_Ok _ _ _ _ _ (s_get_Ok _ _ _ k Hm)). rewrite Hc.
    destruct (assoc_get k (m_s md)); reflexivity.
Qed.

Lemma kept_raw_keys_inv md o k :
  In k (kept_raw_keys md o) ->
  (exists pr, assoc_get k (o_props o) = Some pr)
  /\ match assoc_get k (m_s md) with
     | None => True
     | Some x => is_uninitialized x = false
     end.
Proof.
  unfold kept_raw_keys. intros Hin. apply filter_In in Hin as [Hin Hf]. split.
  - apply in_assoc_keys_get. exact Hin.
  - destruct (assoc_get k (m_s md)); [|exact I].
    apply negb_true_iff in Hf. exact Hf.
Qed.

Lemma wrapper_only_keys_inv σ t md k :
  NoDup (assoc_keys (m_s md)) -> In k (wrapper_only_keys σ t md) ->
  exists x, assoc_get k (m_s md) = Some x
            /\ is_uninitialized x = false /\ absent_from σ t k = true.
Proof.
  unfold wrapper_only_keys. intros Hnd Hin.
  apply (in_keys_filter_inv _ k _ Hnd) in Hin as (x & Hx & Hf). simpl in Hf.
  apply andb_true_iff in Hf as [Hlive Habs]. apply negb_true_iff in Hlive. eauto.
Qed.

Lemma store_unique_keys os :
  Forall (fun o => NoDup (assoc_keys (o_props o)))
         (Object_prototype :: Array_prototype :: os) ->
  unique_keys (store os).
Proof.
  intros H. split.
  - intros l o Ho. rewrite Forall_forall in H. apply H.
    eapply list_elem_of_lookup_2. exact Ho.
  - intros m md Hm. simpl in Hm. rewrite lookup_nil in Hm. discriminate.
Qed.

Lemma store_one_object_unique_keys : unique_keys (store [object_literal []]).
Proof.
  apply store_unique_keys. apply (bool_decide_unpack _). vm_compute. exact I.
Qed.

Lemma NoDup_List_filter {A} (f : A -> bool) (l : list A) :
  NoDup l -> NoDup (List.filter f l).
Proof.
  induction l as [|x r IH]; simpl; intros H; [apply NoDup_nil_2|].
  apply NoDup_cons in H as [Hx Hr].
  destruct (f x); [|auto]. apply NoDup_cons. split; [|auto].
  intros Hin. apply Hx. apply list_elem_of_In. apply list_elem_of_In in Hin.
  apply filter_In in Hin. tauto.
Qed.

Lemma get_descriptor_kept σ σ' l k :
  raw_objects_kept σ σ' -> k <> STATE_SYMBOL ->
  result (get_descriptor l k σ') = result (get_descriptor l k σ).
Proof.
  intros [Hlen Hkept] Hk. unfold get_descriptor, bind, gets, of_option.
  destruct (objs σ !! l) as [o|] eqn:Ho.
  - destruct (Hkept l o Ho) as (o' & -> & _ & _ & _ & Hu). simpl.
    rewrite <- (user_props_get o' k Hk), Hu, (user_props_get o k Hk). reflexivity.
  - apply lookup_ge_None in Ho. rewrite <- Hlen in Ho.
    apply lookup_ge_None in Ho. rewrite Ho. reflexivity.
Qed.

Lemma has_property_result_kept σ σ' l k :
  raw_objects_kept σ σ' -> k <> STATE_SYMBOL ->
  result (has_property l k σ') = result (has_property l k σ).
Proof.
  intros Hkept Hk. unfold has_property, lookup_property, bind, gets, of_option.
  rewrite (find_property_kept _ σ σ' l k Hkept Hk). destruct Hkept as [-> _].
  destruct (find_property _ _ _ _); reflexivity.
Qed.

Lemma get_property_result_kept σ σ' l k :
  raw_objects_kept σ σ' -> k <> STATE_SYMBOL ->
  result (get_property l k σ') = result (get_property l k σ).
Proof.
  intros Hkept Hk. unfold get_property, lookup_property, bind, gets, of_option.
  rewrite (find_property_kept _ σ σ' l k Hkept Hk). destruct Hkept as [-> _].
  destruct (find_property _ _ _ _) as [[[? ? ? ?|[?|] ? ? ?]|]|]; reflexivity.
Qed.

Ltac run_call c σ2 :=
  apply (reaches_call _ σ2 _ c); [|eexists; vm_compute; reflexivity].

(** ** The wrapper factory on a well-formed store *)

Lemma get_property_find σ l k x σ' :
  get_property l k σ = Ok x σ' ->
  exists d, find_property (S (length (objs σ))) (objs σ) l k = Some d
            /\ match d with
               | None => x = VUndef
               | Some (PData y _ _ _) => x = y
               | Some (PAccessor g _ _ _) => g = None /\ x = VUndef
               end.
Proof.
  unfold get_property, lookup_property, bind, gets, of_option.
  destruct (find_property _ _ _ _) as [d|]; [|discriminate].
  intros H. exists d. split; [reflexivity|].
  destruct d as [[y ? ? ?|[g|] ? ? ?]|]; inversion H; auto.
Qed.




(** ** The identity utilities *)

Lemma proxy_target_inv p σ l σ' :
  proxy_target p σ = Ok l σ' -> proxies σ !! p = Some l /\ σ' = σ.
Proof.
  unfold proxy_target, bind, gets, of_option.
  destruct (proxies σ !! p); intros H; inversion H; auto.
Qed.

(** [get_proxied_value] reads the state and leaves it as it is. *)
Lemma get_proxied_value_inv x σ y σ' : get_proxied_value x σ = Ok y σ' -> σ' = σ.
Proof.
  assert (Hmeta : forall mv (x0 : val) σ0 y0 σ1,
    match mv with
    | VMeta m => md <- get_meta m ;; ret (m_p md)
    | _ => if truthy mv then out_of_model else ret x0
    end σ0 = Ok y0 σ1 -> σ1 = σ0).
  { intros mv x0 σ0 y0 σ1 H. destruct mv; simpl in H;
      try (inversion H; auto; fail);
      try (match type of H with
           | (if ?b then _ else _) _ = _ => destruct b; inversion H; auto
           end; fail).
    apply bind_Ok_inv in H as (md & σ2 & H1 & H2).
    apply get_meta_inv in H1 as [_ ->]. inversion H2; auto. }
  destruct x; simpl; intros H; try (inversion H; auto; fail).
  - apply bind_Ok_inv in H as (marked & σ1 & H1 & H2).
    apply has_property_inv in H1 as ->.
    destruct marked; [|inversion H2; auto].
    apply bind_Ok_inv in H2 as (mv & σ1 & H2 & H3).
    apply get_property_inv in H2 as ->. eapply Hmeta; eauto.
  - apply bind_Ok_inv in H as (target & σ1 & H1 & H2).
    apply proxy_target_inv in H1 as [_ ->].
    apply bind_Ok_inv in H2 as (mv & σ1 & H2 & H3).
    apply get_property_inv in H2 as ->. eapply Hmeta; eauto.
Qed.


Lemma wrapped_empty_object_well_formed : well_formed wrapped_empty_object.
Proof.
  apply (well_formed_proxy (VObj 2%nat) None (store [object_literal []]) (VProxy 0%nat)).
  - vm_compute. reflexivity.
  - exact store_one_object_well_formed.
Qed.

(** ** Reads *)

Lemma s_set_source_inv m k x σ u σ' :
  s_set_source m k x σ = Ok u σ' ->
  exists md, metas σ !! m = Some md /\ σ' = store_source m md k x σ.
Proof.
  unfold s_set_source, update_meta. intros H.
  apply bind_Ok_inv in H as (md & σ1 & H1 & H2).
  apply get_meta_inv in H1 as [Hm ->]. inversion H2. eauto.
Qed.

(** ** Index keys *)

Lemma to_int_not_nil n :
  Z.to_int n <> Decimal.Pos Decimal.Nil /\ Z.to_int n <> Decimal.Neg Decimal.Nil.
Proof.
  destruct n as [|p|p]; simpl; split; try discriminate;
    intros H; inversion H as [E]; exact (DecimalPos.Unsigned.to_uint_nonnil p E).
Qed.

(** [i + ''] determines [i]. *)
Lemma string_of_Z_inj i j : string_of_Z i = string_of_Z j -> i = j.
Proof.
  unfold string_of_Z. intros H. apply DecimalZ.to_int_inj.
  destruct (to_int_not_nil i) as [Hi1 Hi2]. destruct (to_int_not_nil j) as [Hj1 Hj2].
  pose proof (NilZero.isi _ Hi1 Hi2) as Ei. pose proof (NilZero.isi _ Hj1 Hj2) as Ej.
  rewrite H in Ei. congruence.
Qed.

Lemma string_of_Z_not_length i : KStr (string_of_Z i) <> KStr "length".
Proof.
  unfold string_of_Z. intros H. inversion H as [E].
  destruct (to_int_not_nil i) as [Hi1 Hi2].
  pose proof (NilZero.isi _ Hi1 Hi2) as Ei. rewrite E in Ei. vm_compute in Ei. discriminate.
Qed.

Lemma digits_value_acc d (acc : positive) :
  digits_value (Z.pos acc) (NilEmpty.string_of_uint d) = Some (Z.pos (Pos.of_uint_acc d acc)).
Proof.
  revert acc. induction d; intros acc; cbn [NilEmpty.string_of_uint digits_value Pos.of_uint_acc];
    try reflexivity;
    match goal with
    | |- context [is_digit ?c] => change (is_digit c) with true; cbv iota
    end;
    match goal with
    | |- context [Z.of_nat ?e] =>
        let v := eval vm_compute in (Z.of_nat e) in change (Z.of_nat e) with v
    end; rewrite <- IHd; f_equal; lia.
Qed.

Lemma digits_value_uint d :
  digits_value 0 (NilEmpty.string_of_uint d) = Some (Z.of_N (Pos.of_uint d)).
Proof.
  induction d; cbn [NilEmpty.string_of_uint digits_value Pos.of_uint];
    try reflexivity;
    match goal with
    | |- context [is_digit ?c] => change (is_digit c) with true; cbv iota
    end;
    match goal with
    | |- digits_value ?z _ = _ =>
        let z' := eval vm_compute in z in change z with z'
    end; [exact IHd | apply digits_value_acc ..].
Qed.

Lemma string_of_uint_starts_with_digit d :
  d <> Decimal.Nil ->
  exists c r, NilEmpty.string_of_uint d = String c r /\ is_digit c = true.
Proof. destruct d; intros H; [congruence | simpl; eauto ..]. Qed.

(** [Number(i + '')] is [i], for an index [i] that a double holds exactly. *)
Lemma Number_string_of_Z n :
  0 <= n < 2 ^ 53 -> Number (string_of_Z n) = NInteger n.
Proof.
  intros Hn. unfold string_of_Z.
  assert (E : exists d, Z.to_int n = Decimal.Pos d /\ d <> Decimal.Nil
                        /\ Z.of_N (Pos.of_uint d) = n).
  { destruct n as [|p|p]; [| |lia].
    - exists (Decimal.D0 Decimal.Nil). repeat split; discriminate.
    - exists (Pos.to_uint p). split; [reflexivity|].
      split; [apply DecimalPos.Unsigned.to_uint_nonnil|].
      rewrite DecimalPos.Unsigned.of_to. reflexivity. }
  destruct E as (d & -> & Hd & Hv). simpl NilZero.string_of_int.
  assert (Es : NilZero.string_of_uint d = NilEmpty.string_of_uint d)
    by (destruct d; [congruence | reflexivity ..]).
  rewrite Es. destruct (string_of_uint_starts_with_digit d Hd) as (c & r & Hs & Hc).
  pose proof (digits_value_uint d) as Hdv. rewrite Hs in *.
  unfold Number. rewrite Hc. unfold unsigned_number. rewrite Hdv, Hv.
  unfold safe_integer.
  destruct (Z.ltb_spec (Z.abs n) (2 ^ 53)); [reflexivity | lia].
Qed.

(** ** Arrays *)

Lemma store_source_lookup σ m md k x :
  metas σ !! m = Some md ->
  metas (store_source m md k x σ) !! m = Some (with_s (assoc_set k x) md).
Proof.
  intros Hm. unfold store_source. simpl.
  apply list_lookup_insert_eq. eapply lookup_lt_Some; eauto.
Qed.

(** The loop of the truncation: every cell of an index of the range that
    exists is set to the tombstone, and nothing else is changed. *)
Lemma clear_signals_spec count :
  forall m i σ md,
    metas σ !! m = Some md ->
    exists σ' md',
      clear_signals m i count σ = Ok tt σ'
      /\ objs σ' = objs σ
      /\ metas σ' !! m = Some md' /\ m_a md' = m_a md /\ m_v md' = m_v md
      /\ (forall j, i <= j < i + Z.of_nat count ->
                    is_Some (cell σ m (KStr (string_of_Z j))) ->
                    cell σ' m (KStr (string_of_Z j)) = Some UNINITIALIZED)
      /\ (forall k, (forall j, i <= j < i + Z.of_nat count -> k <> KStr (string_of_Z j)) ->
                    cell σ' m k = cell σ m k).
Proof.
  induction count as [|count IH]; intros m i σ md Hm.
  - exists σ, md. simpl. repeat split; auto. intros j Hj. lia.
  - cbn [clear_signals].
    rewrite (bind_Ok _ _ _ _ _ (s_get_Ok _ _ _ (KStr (string_of_Z i)) Hm)).
    assert (Hother : forall j, i + 1 <= j -> KStr (string_of_Z i) <> KStr (string_of_Z j)).
    { intros j Hj E. inversion E as [E']. apply string_of_Z_inj in E'. lia. }
    destruct (assoc_get (KStr (string_of_Z i)) (m_s md)) as [x|] eqn:Hx.
    + rewrite (bool_decide_eq_true_2 (Some x <> None)) by discriminate.
      unfold when.
      rewrite (bind_Ok _ _ _ _ _ (set_key_Ok _ _ _ (KStr (string_of_Z i)) UNINITIALIZED Hm)).
      set (σ1 := store_source m md (KStr (string_of_Z i)) UNINITIALIZED
                   (emit (ESet (SKey m (KStr (string_of_Z i))) UNINITIALIZED) σ)).
      assert (Hm1 : metas σ1 !! m
                    = Some (with_s (assoc_set (KStr (string_of_Z i)) UNINITIALIZED) md))
        by (apply (store_source_lookup (emit _ σ)); exact Hm).
      destruct (IH m (i + 1) σ1 _ Hm1) as (σ' & md' & Hrun & Ho & Hm' & Ha & Hv & Hcl & Hkeep).
      exists σ', md'. split; [exact Hrun|]. split; [exact Ho|]. split; [exact Hm'|].
      split; [exact Ha|]. split; [exact Hv|]. split.
      * intros j Hj Hsome. destruct (decide (j = i)) as [->|Hne].
        -- rewrite Hkeep by (intros j Hj'; apply Hother; lia).
           apply (cell_store_source_eq (emit _ σ)). exact Hm.
        -- apply Hcl; [lia|].
           unfold σ1. rewrite (cell_store_source_ne (emit _ σ)); [exact Hsome | exact Hm |].
           intros E. inversion E as [E']. apply string_of_Z_inj in E'. auto.
      * intros k Hk. rewrite Hkeep by (intros j Hj; apply Hk; lia).
        unfold σ1. apply (cell_store_source_ne (emit _ σ)); [exact Hm|].
        apply Hk. lia.
    + rewrite (bool_decide_eq_false_2 (None <> None)) by auto.
      unfold when. rewrite (bind_Ok _ _ σ tt σ) by reflexivity.
      destruct (IH m (i + 1) σ md Hm) as (σ' & md' & Hrun & Ho & Hm' & Ha & Hv & Hcl & Hkeep).
      exists σ', md'. split; [exact Hrun|]. split; [exact Ho|]. split; [exact Hm'|].
      split; [exact Ha|]. split; [exact Hv|]. split.
      * intros j Hj Hsome. destruct (decide (j = i)) as [->|Hne].
        -- exfalso. unfold cell in Hsome. rewrite Hm in Hsome. simpl in Hsome.
           rewrite Hx in Hsome. destruct Hsome as [? Hsome]. discriminate.
        -- apply Hcl; [lia | exact Hsome].
      * intros k Hk. apply Hkeep. intros j Hj. apply Hk. lia.
Qed.

(** ** Nested objects *)


(** ** Writes that are dropped *)

(** ** Tracking of a key that has no cell *)


(** ** Records *)

Lemma wrappers_kept_same σ σ' :
  proxies σ' = proxies σ -> metas σ' = metas σ -> wrappers_kept σ σ'.
Proof.
  intros Ep Em. split; [rewrite Ep; auto|].
  intros m md Hm. exists md. rewrite Em.
  split; [exact Hm|]. split; [reflexivity|]. split; [reflexivity|].
  split; [reflexivity|]. split; [lia | auto].
Qed.

Lemma wrappers_kept_update σ m md md' :
  metas σ !! m = Some md ->
  m_t md' = m_t md -> m_p md' = m_p md -> m_a md' = m_a md -> m_v md <= m_v md' ->
  (forall k, is_Some (assoc_get k (m_s md)) -> is_Some (assoc_get k (m_s md'))) ->
  wrappers_kept σ (set_metas (fun ms => <[m := md']> ms) σ).
Proof.
  intros Hm Ht Hp Ha Hv Hk. split; [auto|]. simpl.
  intros m0 md0 H0. destruct (decide (m0 = m)) as [->|Hne].
  - assert (md0 = md) by congruence. subst md0. exists md'.
    rewrite list_lookup_insert_eq by (eapply lookup_lt_Some; eauto).
    split; [reflexivity|]. split; [exact Ht|]. split; [exact Hp|].
    split; [exact Ha|]. split; [exact Hv | exact Hk].
  - exists md0. rewrite list_lookup_insert_ne by auto.
    split; [exact H0|]. split; [reflexivity|]. split; [reflexivity|].
    split; [reflexivity|]. split; [lia | auto].
Qed.

#[global] Instance wrappers_kept_respected : Respected wrappers_kept.
Proof.
  split.
  - intros σ. apply wrappers_kept_same; reflexivity.
  - intros σ1 σ2 σ3 [Hp12 Hm12] [Hp23 Hm23]. split; [auto|].
    intros m md Hm. destruct (Hm12 m md Hm) as (md2 & Hm2 & Ht2 & Hpp2 & Ha2 & Hv2 & Hk2).
    destruct (Hm23 m md2 Hm2) as (md3 & Hm3 & Ht3 & Hpp3 & Ha3 & Hv3 & Hk3).
    exists md3. split; [exact Hm3|]. split; [congruence|]. split; [congruence|].
    split; [congruence|]. split; [lia | auto].
  - intros e σ _. apply wrappers_kept_same; reflexivity.
  - intros σ m md k x Hm. unfold store_source.
    apply (wrappers_kept_update σ m md); auto; [simpl; lia|].
    intros k0 Hs. simpl. destruct (decide (k0 = k)) as [->|Hne].
    + rewrite assoc_get_set_eq. eauto.
    + rewrite assoc_get_set_ne by auto. exact Hs.
  - intros x parent σ y σ' Hp. destruct (proxy_inv _ _ _ _ _ Hp)
      as [-> | (l & o & -> & Ho & Hfrozen & Hex & Hdef)];
      [apply wrappers_kept_same; reflexivity|].
    apply define_property_inv in Hdef as (o' & ->). split; simpl.
    + intros p l0 Hp0. apply lookup_app_l_Some. exact Hp0.
    + intros m md Hm. exists md.
      rewrite (lookup_app_l_Some _ _ _ _ Hm).
      split; [reflexivity|]. split; [reflexivity|]. split; [reflexivity|].
      split; [reflexivity|]. split; [lia | auto].
Qed.

Lemma wrappers_kept_update_version m : preserves wrappers_kept (update_version m).
Proof.
  intros σ u σ' H. apply update_version_inv in H as (md & Hm & ->).
  unfold bump. eapply respected_trans.
  - apply (wrappers_kept_same σ (emit (ESet (SVersion m) (VNum (m_v md + 1))) σ));
      reflexivity.
  - apply (wrappers_kept_update (emit _ σ) m md); auto. simpl. lia.
Qed.

(** ** One record at a time *)

Section Steps.
Context {R : state -> state -> Prop} `{!PreOrder R}.

Lemma steps_ret {A} (x : A) : preserves R (ret x).
Proof. intros σ y σ' H. inversion H. reflexivity. Qed.

Lemma steps_bind {A B} (c : M A) (f : A -> M B) :
  preserves R c -> (forall x, preserves R (f x)) -> preserves R (bind c f).
Proof.
  intros Hc Hf σ y σ' H. apply bind_Ok_inv in H as (x & σ1 & H1 & H2).
  transitivity σ1; [eapply Hc | eapply Hf]; eauto.
Qed.

Lemma steps_read {A} (c : M A) :
  (forall σ x σ', c σ = Ok x σ' -> σ' = σ) -> preserves R c.
Proof. intros Hc σ x σ' H. apply Hc in H as ->. reflexivity. Qed.

Lemma steps_when b c : preserves R c -> preserves R (when b c).
Proof. intros Hc. destruct b; simpl; [exact Hc | apply steps_ret]. Qed.

Lemma steps_fail {A} (c : M A) : (forall σ x σ', c σ <> Ok x σ') -> preserves R c.
Proof. intros Hc σ x σ' H. destruct (Hc _ _ _ H). Qed.
End Steps.

#[global] Instance other_records_kept_preorder m : PreOrder (other_records_kept m).
Proof.
  split.
  - intros σ m' md' _ H. exact H.
  - intros σ1 σ2 σ3 H12 H23 m' md' Hne H. apply H23; [exact Hne|]. apply H12; assumption.
Qed.

Section Isolation.
Variable m : mloc.

Lemma other_records_kept_same σ σ' : metas σ' = metas σ -> other_records_kept m σ σ'.
Proof. intros E m' md' _ H. rewrite E. exact H. Qed.

Lemma other_records_kept_update σ md' :
  other_records_kept m σ (set_metas (fun ms => <[m := md']> ms) σ).
Proof. intros m' md0 Hne H. simpl. rewrite list_lookup_insert_ne by auto. exact H. Qed.

Lemma isolated_emit e : preserves (other_records_kept m) (modify (emit e)).
Proof. intros σ u σ' H. inversion H. apply other_records_kept_same. reflexivity. Qed.

Lemma isolated_s_set_source k x : preserves (other_records_kept m) (s_set_source m k x).
Proof.
  intros σ u σ' H. apply s_set_source_inv in H as (md & _ & ->).
  apply other_records_kept_update.
Qed.

Lemma isolated_set_key k x : preserves (other_records_kept m) (sources.set (SKey m k) x).
Proof.
  unfold sources.set. apply steps_bind; [apply isolated_emit|].
  intros _. apply isolated_s_set_source.
Qed.

Lemma isolated_get sg : preserves (other_records_kept m) (runtime.get sg).
Proof.
  unfold runtime.get. apply steps_bind; [apply isolated_emit|]. intros _.
  apply steps_read. intros σ x σ' H. destruct sg.
  - apply bind_Ok_inv in H as (s & σ1 & H1 & H2). apply s_get_inv in H1 as [_ ->].
    destruct s; inversion H2. reflexivity.
  - apply bind_Ok_inv in H as (md & σ1 & H1 & H2). apply get_meta_inv in H1 as [_ ->].
    inversion H2. reflexivity.
Qed.

Lemma isolated_proxy x parent : preserves (other_records_kept m) (proxy x parent).
Proof.
  intros σ y σ' Hp. destruct (proxy_inv _ _ _ _ _ Hp)
    as [-> | (l & o & -> & Ho & Hfrozen & Hex & Hdef)]; [reflexivity|].
  apply define_property_inv in Hdef as (o' & ->).
  intros m' md' _ H. simpl. apply lookup_app_l_Some. exact H.
Qed.

Lemma isolated_update_version : preserves (other_records_kept m) (update_version m).
Proof.
  intros σ u σ' H. apply update_version_inv in H as (md & _ & ->).
  unfold bump. transitivity (emit (ESet (SVersion m) (VNum (m_v md + 1))) σ).
  - apply other_records_kept_same. reflexivity.
  - apply other_records_kept_update.
Qed.

Lemma isolated_clear_signals i count :
  preserves (other_records_kept m) (clear_signals m i count).
Proof.
  revert i. induction count as [|n IH]; intros i; simpl.
  - apply steps_ret.
  - apply steps_bind;
      [apply steps_read; intros σ x σ' H; apply s_get_inv in H; tauto|].
    intros s. apply steps_bind; [apply steps_when, isolated_set_key|].
    intros _. apply IH.
Qed.

Lemma isolated_pushed_keys t cells : preserves (other_records_kept m) (pushed_keys t cells).
Proof.
  apply steps_read. induction cells as [|[k x] r IH]; simpl; intros σ ks σ' H.
  - inversion H. reflexivity.
  - apply bind_Ok_inv in H as (inside & σ1 & H1 & H2).
    apply has_property_inv in H1 as ->.
    apply bind_Ok_inv in H2 as (more & σ1 & H2 & H3).
    apply IH in H2 as ->. inversion H3. reflexivity.
Qed.
End Isolation.

(** Decomposes what a handler does after it has found the record [m] of its
    target. *)
Ltac isolating :=
  repeat first
    [ apply steps_ret
    | apply isolated_update_version
    | apply isolated_proxy
    | apply isolated_s_set_source
    | apply isolated_set_key
    | apply isolated_get
    | apply isolated_clear_signals
    | apply isolated_pushed_keys
    | apply isolated_emit
    | apply steps_fail; intros ? ? ?; discriminate
    | apply steps_read; intros ? ? ?;
      first [ apply has_property_inv | apply get_property_inv | apply get_descriptor_inv
            | apply target_metadata_inv
            | let H := fresh in intros H; apply get_object_inv in H; tauto
            | let H := fresh in intros H; apply get_meta_inv in H; tauto
            | let H := fresh in intros H; apply s_get_inv in H; tauto
            | let H := fresh in intros H; inversion H; reflexivity ]
    | apply steps_when
    | apply steps_bind; [|intros ?]
    | match goal with
      | |- preserves _ (if ?b then _ else _) => destruct b
      | |- preserves _ (match ?x with _ => _ end) => destruct x
      end ].

Lemma isolated_handlers σ t m :
  wrapped σ t m ->
  (forall k d b σ',
      state_proxy_handler.defineProperty t k d σ = Ok b σ' -> other_records_kept m σ σ')
  /\ (forall k b σ',
        state_proxy_handler.deleteProperty t k σ = Ok b σ' -> other_records_kept m σ σ')
  /\ (forall k rcv x σ',
        state_proxy_handler.get t k rcv σ = Ok x σ' -> other_records_kept m σ σ')
  /\ (forall k d σ',
        state_proxy_handler.getOwnPropertyDescriptor t k σ = Ok d σ' ->
        other_records_kept m σ σ')
  /\ (forall k b σ', state_proxy_handler.has t k σ = Ok b σ' -> other_records_kept m σ σ')
  /\ (forall k v rcv b σ',
        state_proxy_handler.set t k v rcv σ = Ok b σ' -> other_records_kept m σ σ')
  /\ (forall ks σ', state_proxy_handler.ownKeys t σ = Ok ks σ' -> other_records_kept m σ σ').
Proof.
  intros Hw. pose proof (target_metadata_wrapped _ _ _ Hw) as Htm.
  repeat split.
  - intros k d b σ' H. unfold state_proxy_handler.defineProperty in H.
    apply bind_Ok_inv in H as (u & σ1 & H1 & H).
    apply when_Ok_inv in H1 as [[_ H1] | [_ ->]]; [discriminate|].
    rewrite (bind_Ok _ _ _ _ _ Htm) in H. revert H.
    refine ((_ : preserves (other_records_kept m) _) σ b σ'). isolating.
  - intros k b σ' H. unfold state_proxy_handler.deleteProperty in H.
    rewrite (bind_Ok _ _ _ _ _ Htm) in H. revert H.
    refine ((_ : preserves (other_records_kept m) _) σ b σ'). isolating.
  - intros k rcv x σ' H. unfold state_proxy_handler.get in H.
    destruct (bool_decide (k = STATE_SYMBOL)).
    + apply get_property_inv in H as ->. reflexivity.
    + rewrite (bind_Ok _ _ _ _ _ Htm) in H. revert H.
      refine ((_ : preserves (other_records_kept m) _) σ x σ'). isolating.
  - intros k d σ' H. unfold state_proxy_handler.getOwnPropertyDescriptor in H.
    apply bind_Ok_inv in H as (d0 & σ1 & H1 & H).
    apply get_descriptor_inv in H1 as ->.
    rewrite (bind_Ok _ _ _ _ _ Htm) in H. revert H.
    refine ((_ : preserves (other_records_kept m) _) σ d σ'). isolating.
  - intros k b σ' H. unfold state_proxy_handler.has in H.
    destruct (bool_decide (k = STATE_SYMBOL)).
    + inversion H. reflexivity.
    + rewrite (bind_Ok _ _ _ _ _ Htm) in H. revert H.
      refine ((_ : preserves (other_records_kept m) _) σ b σ'). isolating.
  - intros k v rcv b σ' H. unfold state_proxy_handler.set in H.
    rewrite (bind_Ok _ _ _ _ _ Htm) in H. revert H.
    refine ((_ : preserves (other_records_kept m) _) σ b σ'). isolating.
  - intros ks σ' H. unfold state_proxy_handler.ownKeys in H.
    rewrite (bind_Ok _ _ _ _ _ Htm) in H. revert H.
    refine ((_ : preserves (other_records_kept m) _) σ ks σ'). isolating.
Qed.



(** * Further properties, one by one *)



(** X2: a well-formed store stays well formed.  After any sequence of calls
    of the wrapper factory and of the handlers that return, every marker is
    still the one the factory installed on the object that owns it, every
    proxy is still the wrapper recorded for its target, and every prototype
    chain still ends. *)
Theorem X2_store_stays_well_formed (σ σ' : state) :
  well_formed σ -> reaches σ σ' -> well_formed σ'.
Proof.
  intros Hwf Hr.
  exact (reaches_respected keeps_well_formed σ σ' well_formed_update_version Hr Hwf).
Qed.

Lemma X2_store_stays_well_formed_witness : well_formed after_delete_a.
Proof.
  apply (X2_store_stays_well_formed (store [object_literal []]) after_delete_a).
  - exact store_one_object_well_formed.
  - run_call (CallDeleteProperty 2%nat (KStr "a")) after_write_a.
    run_call (CallSet 2%nat (KStr "a") (VNum 1) (VProxy 0%nat)) wrapped_empty_object.
    run_call (CallProxy (VObj 2%nat) None) (store [object_literal []]).
    apply reaches_here.
Defined.

(** X3: no call ever writes a raw object.  After any sequence of calls of
    the wrapper factory and of the handlers, every raw object has the
    prototype, the frozen and array status and the own properties it had,
    the marker apart; so a read of any key other than the marker from any
    raw object (its descriptor, its presence, its value) gives what it gave
    before. *)
Theorem X3_raw_objects_are_never_written (σ σ' : state) :
  reaches σ σ' ->
  raw_objects_kept σ σ'
  /\ forall l k,
       k <> STATE_SYMBOL ->
       result (get_descriptor l k σ') = result (get_descriptor l k σ)
       /\ result (has_property l k σ') = result (has_property l k σ)
       /\ result (get_property l k σ') = result (get_property l k σ).
Proof.
  intros Hr.
  assert (Hkept : raw_objects_kept σ σ')
    by exact (reaches_respected raw_objects_kept σ σ' raw_objects_kept_update_version Hr).
  split; [exact Hkept|]. intros l k Hk. split; [|split].
  - apply get_descriptor_kept; assumption.
  - apply has_property_result_kept; assumption.
  - apply get_property_result_kept; assumption.
Qed.

Lemma X3_raw_objects_are_never_written_witness :
  raw_objects_kept (store [object_literal []]) after_delete_a
  /\ forall l k,
       k <> STATE_SYMBOL ->
       result (get_descriptor l k after_delete_a)
         = result (get_descriptor l k (store [object_literal []]))
       /\ result (has_property l k after_delete_a)
          = result (has_property l k (store [object_literal []]))
       /\ result (get_property l k after_delete_a)
          = result (get_property l k (store [object_literal []])).
Proof.
  apply (X3_raw_objects_are_never_written (store [object_literal []]) after_delete_a).
  run_call (CallDeleteProperty 2%nat (KStr "a")) after_write_a.
  run_call (CallSet 2%nat (KStr "a") (VNum 1) (VProxy 0%nat)) wrapped_empty_object.
  run_call (CallProxy (VObj 2%nat) None) (store [object_literal []]).
  apply reaches_here.
Defined.

(** X4: wrappers are never lost.  After any sequence of calls of the
    wrapper factory and of the handlers, every proxy still has the target it
    had, and every record still has its target, its proxy and its kind; its
    structural version has not decreased; and every key that had a cell
    still has one: no cell is ever removed. *)
Theorem X4_wrappers_are_never_lost (σ σ' : state) :
  reaches σ σ' -> wrappers_kept σ σ'.
Proof.
  intros Hr.
  exact (reaches_respected wrappers_kept σ σ' wrappers_kept_update_version Hr).
Qed.

Lemma X4_wrappers_are_never_lost_witness : wrappers_kept wrapped_empty_object after_delete_a.
Proof.
  apply (X4_wrappers_are_never_lost wrapped_empty_object after_delete_a).
  run_call (CallDeleteProperty 2%nat (KStr "a")) after_write_a.
  run_call (CallSet 2%nat (KStr "a") (VNum 1) (VProxy 0%nat)) wrapped_empty_object.
  apply reaches_here.
Defined.

(** X5: a handler works on the record of its target alone.  A call of a
    handler on a wrapped target leaves every other record that exists as it
    is: its cells, its structural version, its proxy and its target; a call
    of the wrapper factory leaves every record that exists as it is.
    (Wrapping a nested value may add records; it changes none.) *)
Theorem X5_calls_leave_the_other_records_alone (c : call) (σ σ' : state) :
  returns c σ σ' ->
  match call_target c with
  | Some t => forall m, wrapped σ t m -> other_records_kept m σ σ'
  | None => forall m md, metas σ !! m = Some md -> metas σ' !! m = Some md
  end.
Proof.
  destruct c; simpl; intros [r H];
    try (intros m Hw;
         destruct (isolated_handlers σ target m Hw)
           as (H1 & H2 & H3 & H4 & H5 & H6 & H7); eauto; fail).
  intros m md Hm. destruct (proxy_inv _ _ _ _ _ H)
    as [-> | (l & o & -> & Ho & Hfrozen & Hex & Hdef)]; [exact Hm|].
  apply define_property_inv in Hdef as (o' & ->). simpl.
  apply lookup_app_l_Some. exact Hm.
Qed.

Lemma X5_calls_leave_the_other_records_alone_witness :
  exists σ',
    state_proxy_handler.set 2%nat (KStr "a") (VNum 1) (VProxy 0%nat) two_wrappers
      = Ok true σ'
    /\ metas σ' !! 1%nat
       = Some {| m_s := []; m_v := 0; m_a := false; m_p := VProxy 1%nat; m_t := VObj 3%nat |}.
Proof.
  eexists. split; [vm_compute; reflexivity|].
  refine (X5_calls_leave_the_other_records_alone
            (CallSet 2%nat (KStr "a") (VNum 1) (VProxy 0%nat)) two_wrappers _ _
            0%nat _ 1%nat _ _ _).
  - eexists. vm_compute. reflexivity.
  - show_wrapped.
  - discriminate.
  - reflexivity.
Defined.



(** X7: reads are stable.  When a read through the wrapper returns a value,
    the same read repeated at once returns the same value, and this second
    read neither creates a cell nor wraps an object: at most a dependency
    is registered. *)
Theorem X7_reads_are_stable
    (σ : state) (t : loc) (m : mloc) (k : key) (rcv v : val) (σ1 : state) :
  wrapped σ t m ->
  state_proxy_handler.get t k rcv σ = Ok v σ1 ->
  exists σ2,
    state_proxy_handler.get t k rcv σ1 = Ok v σ2
    /\ objs σ2 = objs σ1 /\ metas σ2 = metas σ1 /\ proxies σ2 = proxies σ1.
Proof.
  intros Hw H.
  assert (Hframe : frame t m σ σ1)
    by exact (preserves_get_trap (R := frame t m) t k rcv σ v σ1 H).
  assert (Hkept : raw_objects_kept σ σ1)
    by exact (preserves_get_trap (R := raw_objects_kept) t k rcv σ v σ1 H).
  pose proof H as H0. unfold state_proxy_handler.get in H.
  destruct (bool_decide (k = STATE_SYMBOL)) eqn:Hk.
  { apply get_property_inv in H as ->. exists σ. auto. }
  apply bool_decide_eq_false_1 in Hk.
  rewrite (bind_Ok _ _ _ _ _ (target_metadata_wrapped _ _ _ Hw)) in H.
  destruct (wrapped_meta _ _ _ Hw) as [md Hm].
  rewrite (bind_Ok _ _ _ _ _ (s_get_Ok _ _ _ k Hm)) in H.
  apply bind_Ok_inv in H as (inside & σa & Hin & H).
  pose proof (has_property_inv _ _ _ _ _ Hin) as ->.
  apply bind_Ok_inv in H as (d & σa & Hd & H).
  pose proof (get_descriptor_inv _ _ _ _ _ Hd) as ->.
  destruct (Hframe Hw) as (Hw1 & _).
  pose proof (has_property_kept σ σ1 t k inside Hkept Hk Hin) as Hin1.
  destruct (assoc_get k (m_s md)) as [x|] eqn:Hs.
  - assert (Hc : cell σ m k = Some x) by (unfold cell; rewrite Hm; exact Hs).
    rewrite (get_tracked_key σ t m k x rcv inside Hw Hk Hc Hin) in H0.
    inversion H0; subst v σ1; clear H0.
    exists (emit (EGet (SKey m k)) (emit (EGet (SKey m k)) σ)).
    split; [|auto].
    apply (get_tracked_key (emit (EGet (SKey m k)) σ) t m k x rcv inside); auto.
  - rewrite (bool_decide_eq_true_2 (None = None)) in H by reflexivity.
    rewrite andb_true_l in H.
    destruct (negb inside || is_writable d) eqn:Hcond.
    + apply bind_Ok_inv in H as (s & σb & Hs' & H).
      apply bind_Ok_inv in Hs' as (raw & σr & Hraw & Hs').
      apply bind_Ok_inv in Hs' as (pv & σp & Hpv & Hs').
      apply bind_Ok_inv in Hs' as (u & σs & Hst & Hs').
      inversion Hs'; subst s σs; clear Hs'.
      apply s_set_source_inv in Hst as (mdp & Hmp & ->).
      pose proof (cell_store_source_eq σp m mdp k pv Hmp) as Hc.
      rewrite (bind_Ok _ _ _ _ _ (get_key_Ok _ _ _ _ Hc)) in H.
      inversion H; subst v σ1; clear H.
      eexists. split.
      * apply (get_tracked_key _ t m k pv rcv inside); auto.
      * auto.
    + change (get_property t k σ = Ok v σ1) in H.
      apply get_property_inv in H as ->. exists σ. auto.
Qed.

Lemma X7_reads_are_stable_witness :
  exists σ2,
    state_proxy_handler.get 2%nat (KStr "a") (VProxy 0%nat) tracked_a = Ok (VNum 1) σ2
    /\ objs σ2 = objs tracked_a /\ metas σ2 = metas tracked_a
    /\ proxies σ2 = proxies tracked_a.
Proof.
  apply (X7_reads_are_stable wrapped_object_a 2%nat 0%nat (KStr "a") (VProxy 0%nat)
           (VNum 1) tracked_a).
  - show_wrapped.
  - vm_compute. reflexivity.
Defined.





(** X10: the has-check tracks a key only while a computation is running.
    For a key that has no cell: outside of a computation the has-check
    returns what [Reflect.has] returns on the raw target and changes
    nothing.  Inside a computation, a key that the raw target lacks gets a
    cell holding the tombstone, a dependency on it is registered, and the
    result is false; a key that is a writable data property of the raw
    target holding a primitive value gets a cell holding that value, a
    dependency is registered, and the result is true; any other key of the
    raw target (inherited, accessor, not writable) is not tracked: the
    result is true and nothing changes. *)
Theorem X10_has_tracks_inside_a_computation
    (σ : state) (t : loc) (m : mloc) (md : metadata) (o : object)
    (k : key) (inside : bool) :
  wrapped σ t m -> metas σ !! m = Some md -> objs σ !! t = Some o ->
  k <> STATE_SYMBOL -> cell σ m k = None ->
  has_property t k σ = Ok inside σ ->
  (current_effect σ = false -> state_proxy_handler.has t k σ = Ok inside σ)
  /\ (current_effect σ = true -> inside = false ->
      state_proxy_handler.has t k σ
      = Ok false (emit (EGet (SKey m k)) (store_source m md k UNINITIALIZED σ)))
  /\ (forall x e c,
        current_effect σ = true ->
        assoc_get k (o_props o) = Some (PData x true e c) ->
        is_object x = false -> x <> UNINITIALIZED ->
        state_proxy_handler.has t k σ
        = Ok true (emit (EGet (SKey m k)) (store_source m md k x σ)))
  /\ (current_effect σ = true -> inside = true ->
      is_writable (assoc_get k (o_props o)) = false ->
      state_proxy_handler.has t k σ = Ok true σ).
Proof.
  intros Hw Hm Ho Hk Hc Hin.
  assert (Hs : s_get m k σ = Ok None σ).
  { rewrite (s_get_Ok _ _ _ k Hm). rewrite (cell_None_meta _ _ _ _ Hm Hc). reflexivity. }
  unfold state_proxy_handler.has.
  rewrite (bool_decide_eq_false_2 _ Hk).
  rewrite (bind_Ok _ _ _ _ _ (target_metadata_wrapped _ _ _ Hw)).
  rewrite (bind_Ok _ _ _ _ _ Hs).
  rewrite (bind_Ok _ _ _ _ _ Hin).
  rewrite (bind_Ok _ _ σ (current_effect σ) σ) by reflexivity.
  rewrite (bind_Ok _ _ _ _ _ (get_descriptor_Ok _ _ _ k Ho)).
  rewrite (bool_decide_eq_false_2 (None <> None)) by auto.
  rewrite (bool_decide_eq_true_2 (None = None)) by reflexivity.
  rewrite orb_false_l.
  split; [|split; [|split]].
  - intros ->. reflexivity.
  - intros -> ->. simpl negb. rewrite orb_true_l. rewrite andb_true_l. unfold when.
    match goal with
    | |- bind ?c _ _ = _ =>
        assert (E : c σ = Ok tt (store_source m md k UNINITIALIZED σ))
    end.
    { rewrite (bind_Ok _ _ σ UNINITIALIZED σ) by reflexivity.
      apply s_set_source_Ok. exact Hm. }
    rewrite (bind_Ok _ _ _ _ _ E). clear E.
    rewrite (bind_Ok _ _ _ _ _
               (get_key_Ok _ _ _ _ (cell_store_source_eq σ m md k UNINITIALIZED Hm))).
    reflexivity.
  - intros x e c -> Hprop Hx Hlive.
    assert (inside = true) as ->.
    { pose proof (has_property_own _ _ _ _ _ Ho Hprop) as E. congruence. }
    rewrite Hprop. simpl is_writable. simpl negb. rewrite orb_true_r.
    rewrite andb_true_l. unfold when.
    match goal with
    | |- bind ?c _ _ = _ => assert (E : c σ = Ok tt (store_source m md k x σ))
    end.
    { match goal with
      | |- bind ?c _ _ = _ => assert (E : c σ = Ok x σ)
      end.
      { rewrite (bind_Ok _ _ _ _ _ (get_property_own_data _ _ _ _ _ _ _ _ Ho Hprop)).
        apply proxy_primitive. exact Hx. }
      rewrite (bind_Ok _ _ _ _ _ E). apply s_set_source_Ok. exact Hm. }
    rewrite (bind_Ok _ _ _ _ _ E). clear E.
    rewrite (bind_Ok _ _ _ _ _ (get_key_Ok _ _ _ _ (cell_store_source_eq σ m md k x Hm))).
    rewrite (is_uninitialized_false _ Hlive). reflexivity.
  - intros -> -> ->. reflexivity.
Qed.

Lemma X10_has_tracks_inside_a_computation_witness :
  state_proxy_handler.has 2%nat (KStr "b") wrapped_object_a_in_effect
  = Ok false (emit (EGet (SKey 0%nat (KStr "b")))
                (store_source 0%nat
                   {| m_s := []; m_v := 0; m_a := false; m_p := VProxy 0%nat;
                      m_t := VObj 2%nat |}
                   (KStr "b") UNINITIALIZED wrapped_object_a_in_effect))
  /\ state_proxy_handler.has 2%nat (KStr "a") wrapped_object_a_in_effect
     = Ok true (emit (EGet (SKey 0%nat (KStr "a")))
                  (store_source 0%nat
                     {| m_s := []; m_v := 0; m_a := false; m_p := VProxy 0%nat;
                        m_t := VObj 2%nat |}
                     (KStr "a") (VNum 1) wrapped_object_a_in_effect))
  /\ state_proxy_handler.has 2%nat (KStr "b") wrapped_object_a = Ok false wrapped_object_a.
Proof.
  split; [|split].
  - refine (proj1 (proj2 (X10_has_tracks_inside_a_computation wrapped_object_a_in_effect
              2%nat 0%nat _ _ (KStr "b") false _ _ _ _ _ _)) eq_refl eq_refl).
    + show_wrapped.
    + reflexivity.
    + reflexivity.
    + discriminate.
    + reflexivity.
    + reflexivity.
  - refine (proj1 (proj2 (proj2 (X10_has_tracks_inside_a_computation wrapped_object_a_in_effect
              2%nat 0%nat _
              (with_props
                 (fun ps => ps ++ [(STATE_SYMBOL, PData (VMeta 0%nat) true false false)])
                 (object_literal [(KStr "a", data (VNum 1))]))
              (KStr "a") true _ _ _ _ _ _)))
              (VNum 1) true true eq_refl eq_refl eq_refl _).
    + show_wrapped.
    + reflexivity.
    + reflexivity.
    + discriminate.
    + reflexivity.
    + reflexivity.
    + discriminate.
  - refine (proj1 (X10_has_tracks_inside_a_computation wrapped_object_a
              2%nat 0%nat _ _ (KStr "b") false _ _ _ _ _ _) eq_refl).
    + show_wrapped.
    + reflexivity.
    + reflexivity.
    + discriminate.
    + reflexivity.
    + reflexivity.
Defined.





(** X13: truncation of a wrapped array.  On a wrapped array whose raw
    [length] is [n], the write [w.length = i] returns true; the cell of
    [length] then holds [i]; every index from [i] up to the raw length whose
    cell exists has the tombstone in its cell; the cell of every other key is
    as before, and so are the structural version and the raw objects.  (The
    cell of [length], if there is one, is supposed not to hold the
    tombstone.) *)
Theorem X13_truncation_clears_the_tracked_indices
    (σ : state) (t : loc) (m : mloc) (md : metadata) (o : object)
    (i n : Z) (e c : bool) (rcv : val) :
  wrapped σ t m -> metas σ !! m = Some md -> m_a md = true ->
  objs σ !! t = Some o ->
  assoc_get (KStr "length") (o_props o) = Some (PData (VNum n) true e c) ->
  cell σ m (KStr "length") <> Some UNINITIALIZED ->
  exists σ',
    state_proxy_handler.set t (KStr "length") (VNum i) rcv σ = Ok true σ'
    /\ cell σ' m (KStr "length") = Some (VNum i)
    /\ (forall j, i <= j < n ->
                  is_Some (cell σ m (KStr (string_of_Z j))) ->
                  cell σ' m (KStr (string_of_Z j)) = Some UNINITIALIZED)
    /\ (forall k, k <> KStr "length" ->
                  (forall j, i <= j < n -> k <> KStr (string_of_Z j)) ->
                  cell σ' m k = cell σ m k)
    /\ version σ' m = version σ m
    /\ objs σ' = objs σ.
Proof.
  intros Hw Hm Ha Ho Hlen Hlive.
  set (L := KStr "length") in *.
  set (σe := emit (ESet (SKey m L) (VNum i)) σ).
  (* the state after the write of the cell of length *)
  assert (Hphase : exists σa mda,
    metas σa !! m = Some mda /\ m_a mda = true /\ m_v mda = m_v md
    /\ objs σa = objs σ
    /\ cell σa m L = Some (VNum i)
    /\ (forall k, k <> L -> cell σa m k = cell σ m k)
    /\ (s <- ret (assoc_get L (m_s md)) ;;
        match s with
        | None =>
            when (negb true || is_writable (Some (PData (VNum n) true e c)))
                 (pv <- proxy (VNum i) (Some m) ;;
                  sources.set (SKey m L) pv ;;
                  s_set_source m L pv) ;;
            ret true
        | Some x =>
            pv <- proxy (VNum i) (Some m) ;;
            sources.set (SKey m L) pv ;;
            ret (negb (is_uninitialized x))
        end) σ = Ok true σa).
  { rewrite (bind_Ok _ _ σ (assoc_get L (m_s md)) σ) by reflexivity.
    destruct (assoc_get L (m_s md)) as [x|] eqn:Hx.
    - exists (store_source m md L (VNum i) σe), (with_s (assoc_set L (VNum i)) md).
      split; [apply (store_source_lookup σe); exact Hm|].
      split; [exact Ha|]. split; [reflexivity|]. split; [reflexivity|].
      split; [apply (cell_store_source_eq σe); exact Hm|].
      split; [intros k Hk; apply (cell_store_source_ne σe); [exact Hm | exact Hk]|].
      rewrite (bind_Ok _ _ σ (VNum i) σ) by reflexivity.
      rewrite (bind_Ok _ _ _ _ _ (set_key_Ok _ _ _ L (VNum i) Hm)).
      assert (Hx' : is_uninitialized x = false).
      { apply is_uninitialized_false. intros ->. apply Hlive.
        unfold cell. rewrite Hm. exact Hx. }
      rewrite Hx'. reflexivity.
    - set (md1 := with_s (assoc_set L (VNum i)) md).
      set (σb := store_source m md L (VNum i) σe).
      assert (Hmb : metas σb !! m = Some md1) by (apply (store_source_lookup σe); exact Hm).
      exists (store_source m md1 L (VNum i) σb), (with_s (assoc_set L (VNum i)) md1).
      split; [apply store_source_lookup; exact Hmb|].
      split; [exact Ha|]. split; [reflexivity|]. split; [reflexivity|].
      split; [apply cell_store_source_eq; exact Hmb|].
      split.
      { intros k Hk. rewrite (cell_store_source_ne σb) by auto.
        apply (cell_store_source_ne σe); [exact Hm | exact Hk]. }
      simpl negb. simpl is_writable. rewrite orb_true_r. unfold when.
      match goal with
      | |- bind ?c _ _ = _ =>
          assert (E : c σ = Ok tt (store_source m md1 L (VNum i) σb))
      end.
      { rewrite (bind_Ok _ _ σ (VNum i) σ) by reflexivity.
        rewrite (bind_Ok _ _ _ _ _ (set_key_Ok _ _ _ L (VNum i) Hm)).
        apply (s_set_source_Ok σb). exact Hmb. }
      rewrite (bind_Ok _ _ _ _ _ E). reflexivity. }
  destruct Hphase as (σa & mda & Hma & Haa & Hva & Hoa & Hca & Hka & Hrun).
  destruct (clear_signals_spec (Z.to_nat (n - i)) m i σa mda Hma)
    as (σb & mdb & Hclear & Hob & Hmb & Hab & Hvb & Hcl & Hkeep).
  exists σb. split.
  - unfold state_proxy_handler.set.
    rewrite (bind_Ok _ _ _ _ _ (target_metadata_wrapped _ _ _ Hw)).
    rewrite (bind_Ok _ _ _ _ _ (s_get_Ok _ _ _ L Hm)).
    rewrite (bind_Ok _ _ _ _ _ (has_property_own _ _ _ _ _ Ho Hlen)).
    rewrite (bind_Ok _ _ _ _ _ (get_descriptor_Ok _ _ _ L Ho)). rewrite Hlen.
    rewrite (bind_Ok _ _ σ (assoc_get L (m_s md)) σ) in Hrun by reflexivity.
    rewrite (bind_Ok _ _ _ _ _ Hrun).
    rewrite (bind_Ok _ _ _ _ _ (get_meta_Ok _ _ _ Hma)). rewrite Haa.
    rewrite (bool_decide_eq_true_2 (L = KStr "length")) by reflexivity.
    simpl andb. unfold when at 1.
    assert (Hoa' : objs σa !! t = Some o) by (rewrite Hoa; exact Ho).
    match goal with
    | |- bind ?c _ _ = _ => assert (E : c σa = Ok tt σb)
    end.
    { rewrite (bind_Ok _ _ _ _ _ (get_property_own_data _ _ _ _ _ _ _ _ Hoa' Hlen)).
      exact Hclear. }
    rewrite (bind_Ok _ _ _ _ _ E). clear E.
    assert (Hob' : objs σb !! t = Some o) by (rewrite Hob; exact Hoa').
    rewrite (bind_Ok _ _ _ _ _ (get_descriptor_Ok _ _ _ L Hob')). rewrite Hlen.
    simpl descriptor_set. cbv iota.
    rewrite (bind_Ok _ _ σb tt σb) by reflexivity.
    reflexivity.
  - assert (Hnot : forall j, L <> KStr (string_of_Z j)).
    { intros j E. symmetry in E. exact (string_of_Z_not_length j E). }
    assert (Hrange : forall j, i <= j < i + Z.of_nat (Z.to_nat (n - i)) <-> i <= j < n) by lia.
    split; [|split; [|split; [|split]]].
    + rewrite Hkeep by (intros j _; apply Hnot). exact Hca.
    + intros j Hj Hsome. apply Hcl; [apply Hrange; exact Hj|].
      rewrite Hka by (intros E; exact (string_of_Z_not_length j E)). exact Hsome.
    + intros k Hk Hout. rewrite Hkeep by (intros j Hj; apply Hout, Hrange; exact Hj).
      apply Hka. exact Hk.
    + unfold version. rewrite Hmb, Hm. simpl. congruence.
    + congruence.
Qed.

Lemma X13_truncation_clears_the_tracked_indices_witness :
  exists σ',
    state_proxy_handler.set 2%nat (KStr "length") (VNum 1) (VProxy 0%nat) read_array_123
      = Ok true σ'
    /\ cell σ' 0%nat (KStr "length") = Some (VNum 1)
    /\ (forall j, 1 <= j < 3 ->
                  is_Some (cell read_array_123 0%nat (KStr (string_of_Z j))) ->
                  cell σ' 0%nat (KStr (string_of_Z j)) = Some UNINITIALIZED)
    /\ (forall k, k <> KStr "length" ->
                  (forall j, 1 <= j < 3 -> k <> KStr (string_of_Z j)) ->
                  cell σ' 0%nat k = cell read_array_123 0%nat k)
    /\ version σ' 0%nat = version read_array_123 0%nat
    /\ objs σ' = objs read_array_123.
Proof.
  eapply (X13_truncation_clears_the_tracked_indices read_array_123 2%nat 0%nat _ _ 1 3 _ _
            (VProxy 0%nat)).
  - show_wrapped.
  - reflexivity.
  - reflexivity.
  - reflexivity.
  - reflexivity.
  - vm_compute. discriminate.
Defined.

(** X14: extension of a wrapped array.  On a wrapped array whose cell of
    [length] holds [len], the write of a primitive value to an index [n] that
    has no cell and that the raw array lacks returns true; the cell of the
    index then holds the value; the cell of [length] holds [n + 1] when
    [n >= len] and [len] otherwise; the structural version has grown by
    one; and the events are, in this order: the write of the cell of the
    index, the write of the cell of [length] if it changes, and the bump of
    the structural version as the last one. *)
Theorem X14_extension_updates_the_tracked_length
    (σ : state) (t : loc) (m : mloc) (md : metadata)
    (n len : Z) (v rcv : val) :
  wrapped σ t m -> metas σ !! m = Some md -> m_a md = true ->
  cell σ m (KStr "length") = Some (VNum len) ->
  0 <= n < 2 ^ 53 ->
  cell σ m (KStr (string_of_Z n)) = None ->
  has_property t (KStr (string_of_Z n)) σ = Ok false σ ->
  is_object v = false ->
  exists σ',
    state_proxy_handler.set t (KStr (string_of_Z n)) v rcv σ = Ok true σ'
    /\ cell σ' m (KStr (string_of_Z n)) = Some v
    /\ cell σ' m (KStr "length") = Some (VNum (if n >=? len then n + 1 else len))
    /\ version σ' m = Some (m_v md + 1)
    /\ trace σ'
       = trace σ
         ++ [ESet (SKey m (KStr (string_of_Z n))) v]
         ++ (if n >=? len then [ESet (SKey m (KStr "length")) (VNum (n + 1))] else [])
         ++ [ESet (SVersion m) (VNum (m_v md + 1))].
Proof.
  intros Hw Hm Ha Hlen Hn Hc Hin Hv.
  set (k := KStr (string_of_Z n)) in *. set (L := KStr "length") in *.
  assert (HkL : k <> L) by (apply string_of_Z_not_length).
  destruct (wrapped_object _ _ _ Hw) as [o Ho].
  set (σa := emit (ESet (SKey m k) v) σ).
  set (md1 := with_s (assoc_set k v) md).
  set (σb := store_source m md k v σa).
  set (md2 := with_s (assoc_set k v) md1).
  set (σc := store_source m md1 k v σb).
  assert (Hmb : metas σb !! m = Some md1) by (apply (store_source_lookup σa); exact Hm).
  assert (Hmc : metas σc !! m = Some md2) by (apply store_source_lookup; exact Hmb).
  assert (Hck : cell σc m k = Some v) by (apply cell_store_source_eq; exact Hmb).
  assert (HcL : cell σc m L = Some (VNum len)).
  { unfold σc. rewrite (cell_store_source_ne σb) by auto.
    unfold σb. rewrite (cell_store_source_ne σa) by auto. exact Hlen. }
  (* the state after the update of the cell of length *)
  set (σd := if n >=? len
             then store_source m md2 L (VNum (n + 1)) (emit (ESet (SKey m L) (VNum (n + 1))) σc)
             else σc).
  set (md3 := if n >=? len then with_s (assoc_set L (VNum (n + 1))) md2 else md2).
  assert (Hmd : metas σd !! m = Some md3).
  { unfold σd, md3. destruct (n >=? len); [|exact Hmc].
    apply (store_source_lookup (emit _ σc)). exact Hmc. }
  assert (Hv3 : m_v md3 = m_v md) by (unfold md3; destruct (n >=? len); reflexivity).
  exists (bump m md3 σd). split; [|split; [|split; [|split]]].
  - unfold state_proxy_handler.set.
    rewrite (bind_Ok _ _ _ _ _ (target_metadata_wrapped _ _ _ Hw)).
    rewrite (bind_Ok _ _ _ _ _ (s_get_Ok _ _ _ k Hm)).
    rewrite (cell_None_meta _ _ _ _ Hm Hc).
    rewrite (bind_Ok _ _ _ _ _ Hin).
    rewrite (bind_Ok _ _ _ _ _ (get_descriptor_Ok _ _ _ k Ho)).
    match goal with
    | |- bind ?c _ _ = _ => assert (E : c σ = Ok false σc)
    end.
    { simpl negb. rewrite orb_true_l. unfold when.
      match goal with
      | |- bind ?c _ _ = _ => assert (E : c σ = Ok tt σc)
      end.
      { rewrite (bind_Ok _ _ _ _ _ (proxy_primitive v (Some m) σ Hv)).
        rewrite (bind_Ok _ _ _ _ _ (set_key_Ok _ _ _ _ _ Hm)).
        apply (s_set_source_Ok σb). exact Hmb. }
      rewrite (bind_Ok _ _ _ _ _ E). reflexivity. }
    rewrite (bind_Ok _ _ _ _ _ E). clear E.
    rewrite (bind_Ok _ _ _ _ _ (get_meta_Ok _ _ _ Hmc)).
    simpl m_a. rewrite Ha.
    rewrite (bool_decide_eq_false_2 (k = KStr "length")) by exact HkL.
    simpl andb. unfold when at 1.
    rewrite (bind_Ok _ _ σc tt σc) by reflexivity.
    assert (Hoc : objs σc !! t = Some o) by exact Ho.
    rewrite (bind_Ok _ _ _ _ _ (get_descriptor_Ok _ _ _ k Hoc)).
    rewrite (has_property_false_own _ _ _ _ Hin Ho). simpl descriptor_set. cbv iota.
    rewrite (bind_Ok _ _ σc tt σc) by reflexivity.
    simpl negb. unfold when at 1.
    match goal with
    | |- bind ?c _ _ = _ => assert (E : c σc = Ok tt (bump m md3 σd))
    end.
    { unfold k at 1. cbv iota. unfold when at 1.
      match goal with
      | |- bind ?c _ _ = _ => assert (E : c σc = Ok tt σd)
      end.
      { assert (HsL : s_get m L σc = Ok (Some (VNum len)) σc).
        { rewrite (s_get_Ok _ _ _ L Hmc). f_equal.
          unfold cell in HcL. rewrite Hmc in HcL. exact HcL. }
        rewrite (bind_Ok _ _ _ _ _ HsL).
        rewrite (Number_string_of_Z n Hn). unfold σd, when.
        destruct (n >=? len); [|reflexivity].
        apply set_key_Ok. exact Hmc. }
      rewrite (bind_Ok _ _ _ _ _ E). apply update_version_Ok. exact Hmd. }
    rewrite (bind_Ok _ _ _ _ _ E). reflexivity.
  - rewrite (bump_cell _ _ _ _ Hmd). unfold σd. destruct (n >=? len); [|exact Hck].
    rewrite (cell_store_source_ne (emit _ σc)) by auto. exact Hck.
  - rewrite (bump_cell _ _ _ _ Hmd). unfold σd. destruct (n >=? len); [|exact HcL].
    apply (cell_store_source_eq (emit _ σc)). exact Hmc.
  - rewrite (bump_version _ _ _ Hmd). rewrite Hv3. reflexivity.
  - unfold bump, σd. destruct (n >=? len); simpl; rewrite <- ?app_assoc; reflexivity.
Qed.

Lemma X14_extension_updates_the_tracked_length_witness :
  exists σ',
    state_proxy_handler.set 2%nat (KStr (string_of_Z 5)) (VNum 9) (VProxy 0%nat)
      read_array_123 = Ok true σ'
    /\ cell σ' 0%nat (KStr (string_of_Z 5)) = Some (VNum 9)
    /\ cell σ' 0%nat (KStr "length") = Some (VNum (if 5 >=? 3 then 5 + 1 else 3))
    /\ version σ' 0%nat = Some (0 + 1)
    /\ trace σ'
       = trace read_array_123
         ++ [ESet (SKey 0%nat (KStr (string_of_Z 5))) (VNum 9)]
         ++ (if 5 >=? 3 then [ESet (SKey 0%nat (KStr "length")) (VNum (5 + 1))] else [])
         ++ [ESet (SVersion 0%nat) (VNum (0 + 1))].
Proof.
  eapply (X14_extension_updates_the_tracked_length read_array_123 2%nat 0%nat
            {| m_s := _; m_v := 0; m_a := _; m_p := _; m_t := _ |}
            5 3 (VNum 9) (VProxy 0%nat)).
  - show_wrapped.
  - reflexivity.
  - reflexivity.
  - reflexivity.
  - lia.
  - reflexivity.
  - reflexivity.
  - reflexivity.
Defined.

(** X15: key enumeration never returns a key twice.  In a state reached from
    a store in which no object has two properties of the same key and no
    record two cells of the same key, on a wrapped target whose prototype
    chain ends, [ownKeys] returns, and the list it returns has no
    duplicate. *)
Theorem X15_ownKeys_returns_no_duplicate (σ0 σ : state) (t : loc) (m : mloc) :
  unique_keys σ0 -> reaches σ0 σ -> wrapped σ t m -> chain_ok σ t ->
  exists ks,
    state_proxy_handler.ownKeys t σ = Ok ks (emit (EGet (SVersion m)) σ)
    /\ NoDup ks.
Proof.
  intros Hu0 Hr Hw Hchain.
  pose proof (unique_keys_reaches _ _ Hu0 Hr) as [Huo Hum].
  destruct (wrapped_object _ _ _ Hw) as [o Ho].
  destruct (wrapped_meta _ _ _ Hw) as [md Hm].
  eexists. split; [apply (ownKeys_enumeration σ t m o md); assumption|].
  apply NoDup_app. split; [|split].
  - unfold kept_raw_keys. apply NoDup_List_filter. eapply Huo; eauto.
  - intros k Hin Hin'. apply list_elem_of_In in Hin. apply list_elem_of_In in Hin'.
    apply kept_raw_keys_inv in Hin as [[pr Hpr] _].
    apply (wrapper_only_keys_inv σ t md k (Hum m md Hm)) in Hin' as (x & _ & _ & Habs).
    rewrite (absent_from_own σ t o k Ho Habs) in Hpr. discriminate.
  - unfold wrapper_only_keys. apply NoDup_keys_filter. eapply Hum; eauto.
Qed.

Lemma X15_ownKeys_returns_no_duplicate_witness :
  exists ks,
    state_proxy_handler.ownKeys 2%nat after_write_a
      = Ok ks (emit (EGet (SVersion 0%nat)) after_write_a)
    /\ NoDup ks.
Proof.
  apply (X15_ownKeys_returns_no_duplicate (store [object_literal []]) after_write_a 2%nat 0%nat).
  - exact store_one_object_unique_keys.
  - run_call (CallSet 2%nat (KStr "a") (VNum 1) (VProxy 0%nat)) wrapped_empty_object.
    run_call (CallProxy (VObj 2%nat) None) (store [object_literal []]).
    apply reaches_here.
  - show_wrapped.
  - reflexivity.
Defined.

(** X16: every key that key enumeration returns exists and can be described.
    In a state reached from a store with distinct keys, on a wrapped target
    whose prototype chain ends: for each key of the list that [ownKeys]
    returns, the key exists (its cell is live or, absent a cell, the raw
    target has it), and [getOwnPropertyDescriptor] returns a descriptor for
    it. *)
Theorem X16_enumerated_keys_exist_and_are_described
    (σ0 σ : state) (t : loc) (m : mloc) :
  unique_keys σ0 -> reaches σ0 σ -> wrapped σ t m -> chain_ok σ t ->
  exists ks σ1,
    state_proxy_handler.ownKeys t σ = Ok ks σ1
    /\ forall k,
         In k ks ->
         key_exists σ1 t m k = Some true
         /\ exists d σ2,
              state_proxy_handler.getOwnPropertyDescriptor t k σ1 = Ok (Some d) σ2.
Proof.
  intros Hu0 Hr Hw Hchain.
  pose proof (unique_keys_reaches _ _ Hu0 Hr) as [Huo Hum].
  destruct (wrapped_object _ _ _ Hw) as [o Ho].
  destruct (wrapped_meta _ _ _ Hw) as [md Hm].
  exists (kept_raw_keys md o ++ wrapper_only_keys σ t md), (emit (EGet (SVersion m)) σ).
  split; [apply (ownKeys_enumeration σ t m o md); assumption|].
  set (σ1 := emit (EGet (SVersion m)) σ).
  assert (Hw1 : wrapped σ1 t m) by exact Hw.
  assert (Ho1 : objs σ1 !! t = Some o) by exact Ho.
  assert (Hc1 : forall k, cell σ1 m k = assoc_get k (m_s md)).
  { intros k. unfold cell, σ1. simpl. rewrite Hm. reflexivity. }
  intros k Hin. rewrite (getOwnPropertyDescriptor_Ok σ1 t m o k Hw1 Ho1).
  unfold key_exists. rewrite Hc1.
  apply in_app_or in Hin as [Hin | Hin].
  - apply kept_raw_keys_inv in Hin as [[pr Hpr] Hlive]. rewrite Hpr.
    destruct (assoc_get k (m_s md)) as [x|].
    + rewrite Hlive. split; [reflexivity|]. destruct pr; eauto.
    + split; [|destruct pr; eauto].
      change (objs σ1) with (objs σ).
      rewrite (find_property_own _ _ _ _ _ _ Ho Hpr). reflexivity.
  - apply (wrapper_only_keys_inv σ t md k (Hum m md Hm)) in Hin as (x & Hx & Hlive & Habs).
    rewrite Hx, Hlive, (absent_from_own σ t o k Ho Habs). simpl. eauto.
Qed.

Lemma X16_enumerated_keys_exist_and_are_described_witness :
  exists ks σ1,
    state_proxy_handler.ownKeys 2%nat after_write_a = Ok ks σ1
    /\ forall k,
         In k ks ->
         key_exists σ1 2%nat 0%nat k = Some true
         /\ exists d σ2,
              state_proxy_handler.getOwnPropertyDescriptor 2%nat k σ1 = Ok (Some d) σ2.
Proof.
  apply (X16_enumerated_keys_exist_and_are_described
           (store [object_literal []]) after_write_a 2%nat 0%nat).
  - exact store_one_object_unique_keys.
  - run_call (CallSet 2%nat (KStr "a") (VNum 1) (VProxy 0%nat)) wrapped_empty_object.
    run_call (CallProxy (VObj 2%nat) None) (store [object_literal []]).
    apply reaches_here.
  - show_wrapped.
  - reflexivity.
Defined.

(** X17: on a well-formed store, [get_proxied_value] changes nothing, and
    what it returns is a value that it returns as it is: unwrapping twice is
    unwrapping once. *)
Theorem X17_get_proxied_value_is_idempotent (σ : state) (x y : val) (σ' : state) :
  well_formed σ ->
  get_proxied_value x σ = Ok y σ' ->
  σ' = σ /\ get_proxied_value y σ = Ok y σ.
Proof.
  intros Hwf H. pose proof (get_proxied_value_inv _ _ _ _ H) as ->.
  split; [reflexivity|].
  assert (Hown : forall p l, proxies σ !! p = Some l ->
                 get_proxied_value (VProxy p) σ = Ok (VProxy p) σ).
  { intros p l Hp. exact (proj1 (get_proxied_value_wrapper σ p l Hwf Hp)). }
  destruct Hwf as (HA & HB & HC).
  destruct x; simpl in H; try (inversion H; subst; reflexivity).
  - apply bind_Ok_inv in H as (marked & σ1 & H1 & H2).
    pose proof (has_property_inv _ _ _ _ _ H1) as ->.
    destruct marked.
    + apply bind_Ok_inv in H2 as (mv & σ1 & H2 & H3).
      pose proof (get_property_inv _ _ _ _ _ H2) as ->.
      apply has_property_find in H1 as (d & Hd & Hb).
      apply get_property_find in H2 as (d' & Hd' & Hmv).
      assert (d' = d) by congruence. subst d'.
      destruct d as [pr|]; [|rewrite bool_decide_eq_false_2 in Hb by auto; discriminate].
      destruct (find_property_source _ _ _ _ _ Hd) as (l' & o' & Ho' & Hk').
      destruct (HA l' o' pr Ho' Hk') as (m & md & p & -> & Hm & Ht & Hp & Hpl).
      subst mv. apply bind_Ok_inv in H3 as (md' & σ1 & H3 & H4).
      apply get_meta_inv in H3 as [Hm' ->]. inversion H4; subst y.
      assert (md' = md) by congruence. subst md'. rewrite Hp.
      eapply Hown; eauto.
    + inversion H2; subst y. simpl.
      apply has_property_find in H1 as (d & Hd & Hb).
      unfold has_property, lookup_property, bind, gets, of_option. rewrite Hd.
      destruct d; [rewrite bool_decide_eq_true_2 in Hb by discriminate; discriminate|].
      reflexivity.
  - apply bind_Ok_inv in H as (target & σ1 & H1 & H2).
    apply proxy_target_inv in H1 as [Hp ->].
    destruct (HB p target Hp) as (o & m & md & Ho & Hk & Hm & Hmp).
    rewrite (bind_Ok _ _ _ _ _ (get_property_own_data _ _ _ _ _ _ _ _ Ho Hk)) in H2.
    rewrite (bind_Ok _ _ _ _ _ (get_meta_Ok _ _ _ Hm)) in H2.
    inversion H2; subst y. rewrite Hmp. eapply Hown; eauto.
Qed.

Lemma X17_get_proxied_value_is_idempotent_witness :
  wrapped_empty_object = wrapped_empty_object
  /\ get_proxied_value (VProxy 0%nat) wrapped_empty_object
     = Ok (VProxy 0%nat) wrapped_empty_object.
Proof.
  apply (X17_get_proxied_value_is_idempotent wrapped_empty_object (VObj 2%nat)
           (VProxy 0%nat) wrapped_empty_object).
  - exact wrapped_empty_object_well_formed.
  - vm_compute. reflexivity.
Defined.



